(** * HybridOptimizer: a shallow embedding of [src/HybridOptimizer.cc]

    The hybrid Levenberg-Marquardt / BFGS least-squares engine of
    [lsst::meas::extensions::multiShapelet], written as Rocq functions over
    IEEE binary64 numbers (the primitive floats are C++'s [double]).

    Conventions.
    - [Impl] is the C++ class [HybridOptimizer::Impl], one field per data
      member, plus the ghost field [calls] that records which methods of the
      objective were invoked.
    - [step] mutates the [Impl] in place; here it is explicit state passing,
      and the early [return]s of the C++ are the [Return] constructor of
      [Flow].
    - Eigen is a library outside the repository.  Its element-wise operations
      are written out on lists; its two factorizations ([LDLT] and
      [SelfAdjointEigenSolver]) and libm's [pow] are parameters ([NumLib]).
    - The header [HybridOptimizer.h] is not among the sources, so the numeric
      values of the [StateFlags] enumerators are parameters ([StateFlags]).
    - [Exact] holds the BFGS update of [B] with real numbers in place of
      doubles; it serves to say what the rounding of the update costs. *)

From Stdlib Require Import Reals Lra.
From Stdlib Require Import ZArith List Bool Floats Lia.
Import ListNotations.
Set Warnings "-inexact-float".

Local Open Scope float_scope.

(** ** Dense linear algebra, as Eigen evaluates it *)

Module LinAlg.

Definition Vector := list float.
(** A matrix is the list of its rows. *)
Definition Matrix := list (list float).

Fixpoint imap_from {X Y : Type} (i : nat) (fn : nat -> X -> Y) (l : list X) : list Y :=
  match l with
  | [] => []
  | a :: t => fn i a :: imap_from (S i) fn t
  end.

Definition imap {X Y : Type} (fn : nat -> X -> Y) (l : list X) : list Y :=
  imap_from 0 fn l.

Definition mapij (fn : nat -> nat -> float -> float) (M : Matrix) : Matrix :=
  imap (fun i row => imap (fun j a => fn i j a) row) M.

Fixpoint zipWith (op : float -> float -> float) (u w : Vector) : Vector :=
  match u, w with
  | a :: u', b :: w' => op a b :: zipWith op u' w'
  | _, _ => []
  end.

(** [Vector::Zero(n)], [Matrix::Zero(r, c)], [Matrix::Identity(n, n)]. *)
Definition Zero (n : nat) : Vector := repeat 0 n.
Definition MZero (r c : nat) : Matrix := repeat (Zero c) r.
Definition Identity (n : nat) : Matrix :=
  map (fun i => map (fun j => if Nat.eqb i j then 1 else 0) (seq 0 n)) (seq 0 n).

(** [setZero()] keeps the shape of the buffer. *)
Definition setZero (M : Matrix) : Matrix := map (map (fun _ => 0)) M.

(** Entry access; Eigen does not define a read outside the buffer, the
    model reads [nan] there. *)
Definition coeff (u : Vector) (i : nat) : float := nth i u nan.
Definition row (M : Matrix) (i : nat) : Vector := nth i M [].
Definition entry (M : Matrix) (i j : nat) : float := coeff (row M i) j.

(** Reductions run left to right, starting from the first coefficient; the
    sum of nothing is [0]. *)
Definition vsum (u : Vector) : float :=
  match u with
  | [] => 0
  | a :: t => fold_left add t a
  end.

Definition dot (u w : Vector) : float := vsum (zipWith mul u w).
Definition squaredNorm (u : Vector) : float := dot u u.
Definition norm (u : Vector) : float := sqrt (squaredNorm u).

(** [lpNorm<Eigen::Infinity>()] is [cwiseAbs().maxCoeff()]. *)
Definition lpNormInf (u : Vector) : float :=
  match u with
  | [] => 0
  | a :: t => fold_left (fun m b => if m <? abs b then abs b else m) t (abs a)
  end.

Definition vadd (u w : Vector) : Vector := zipWith add u w.
Definition vsub (u w : Vector) : Vector := zipWith sub u w.
Definition vscale (u : Vector) (c : float) : Vector := map (fun a => a * c) u.
Definition vneg (u : Vector) : Vector := map opp u.

(** [M.adjoint()] of a matrix with [c] columns. *)
Definition adjoint (c : nat) (M : Matrix) : Matrix :=
  map (fun j => map (fun r => coeff r j) M) (seq 0 c).

Definition mulVec (M : Matrix) (u : Vector) : Vector := map (fun r => dot r u) M.

(** [M * N.adjoint()]: entry [(i, j)] is the product of row [i] of [M] with
    row [j] of [N]. *)
Definition mulAdjoint (M N : Matrix) : Matrix :=
  map (fun r => map (fun r' => dot r r') N) M.

(** [M.diagonal()] and [M.diagonal().array() += mu]. *)
Definition diagonal (M : Matrix) : Vector := imap (fun i r => coeff r i) M.
Definition addDiagonal (M : Matrix) (mu : float) : Matrix :=
  mapij (fun i j a => if Nat.eqb i j then a + mu else a) M.

(** [M.selfadjointView<Eigen::Lower>().rankUpdate(U, alpha)]:
    [M += alpha * U * U^T], written to the entries on and below the diagonal
    only.  [U] is given by its rows. *)
Definition rankUpdateLower (M : Matrix) (U : Matrix) (alpha : float) : Matrix :=
  mapij (fun i j a => if Nat.leb j i then a + alpha * dot (row U i) (row U j) else a) M.

(** The same with a column vector [u]: entry [(i, j)], [j <= i], receives
    [(alpha * u_j) * u_i]. *)
Definition rankUpdateLowerVec (M : Matrix) (u : Vector) (alpha : float) : Matrix :=
  mapij (fun i j a => if Nat.leb j i then a + (alpha * coeff u j) * coeff u i else a) M.

(** [M.selfadjointView<Eigen::Lower>()]: the symmetric matrix whose lower
    triangle is that of [M]; the strict upper triangle of [M] is not read. *)
Definition selfadjointLower (M : Matrix) : Matrix :=
  mapij (fun i j a => if Nat.leb j i then a else entry M j i) M.

(** [rightCols(k)] of a matrix with [c] columns, [tail(k)] of a vector. *)
Definition tail (k : nat) (u : Vector) : Vector := skipn (length u - k) u.
Definition rightCols (k : nat) (M : Matrix) : Matrix := map (tail k) M.

(** [M * d.asDiagonal()] scales column [j] by [d_j]. *)
Definition mulDiag (M : Matrix) (d : Vector) : Matrix := map (fun r => zipWith mul r d) M.

End LinAlg.
Export LinAlg.

(** ** The types of the header

    [MethodEnum] and the three operations of the objective are used by the
    source as declared here. *)

Inductive MethodEnum := LM | BFGS.

Definition is_BFGS (m : MethodEnum) : bool :=
  match m with BFGS => true | LM => false end.

(** Modelled from the spec: the enumeration [Objective::StepResult] is
    declared in the header, which is not among the sources.  The source tests
    [if (doStep)] for "the proposal is evaluated" and the spec evaluates
    "unless INVALID", so [INVALID] is the enumerator that converts to
    [false]. *)
Inductive StepResult := INVALID | VALID | MODIFIED.

Definition evaluable (r : StepResult) : bool :=
  match r with INVALID => false | VALID | MODIFIED => true end.

(** The [StateFlags] enumerators, bit masks combined into [int state]. *)
Record StateFlags := {
  STEP_ACCEPTED : Z;
  STEP_MODIFIED : Z;
  STEP_INVALID : Z;
  SUCCESS_FTOL : Z;
  SUCCESS_GTOL : Z;
  FAILURE_MINSTEP : Z;
  FAILURE_MINTRUST : Z;
  FAILURE_MAXITER : Z
}.

(** Modelled from the spec: [FINISHED] is declared in the header; the spec
    gives it as the union of the [SUCCESS_*] and [FAILURE_*] bits. *)
Definition FINISHED (F : StateFlags) : Z :=
  Z.lor (Z.lor (SUCCESS_FTOL F) (SUCCESS_GTOL F))
        (Z.lor (Z.lor (FAILURE_MINSTEP F) (FAILURE_MINTRUST F)) (FAILURE_MAXITER F)).

(** The objective: [computeFunction] fills the residuals at [x],
    [computeDerivative] the Jacobian at [x] (given the residuals), [tryStep]
    inspects the proposal [xNew] and may overwrite it. *)
Record Objective := {
  getFunctionSize : nat;
  getParameterSize : nat;
  computeFunction : Vector -> Vector;
  computeDerivative : Vector -> Vector -> Matrix;
  tryStep : Vector -> Vector -> StepResult * Vector
}.

Record HybridOptimizerControl := {
  fTol : float;
  gTol : float;
  minStep : float;
  delta0 : float;
  tau : float;
  maxIter : Z;
  useCholesky : bool
}.

(** What the engine takes from outside the repository: Eigen's [LDLT]
    ([compute] then [solve]), Eigen's [SelfAdjointEigenSolver] (eigenvalues in
    increasing order and the matrix whose columns are the eigenvectors), and
    [std::pow]. *)
Record NumLib := {
  ldlt_solve : Matrix -> Vector -> Vector;
  eigh_compute : Matrix -> Vector * Matrix;
  std_pow : float -> float -> float
}.

(** Ghost: the methods of the objective that were called, oldest first. *)
Inductive ObjCall := CallComputeFunction | CallComputeDerivative | CallTryStep.

(** ** The state: [class HybridOptimizer::Impl] *)

Record Impl := {
  obj : Objective;
  ctrl : HybridOptimizerControl;
  method : MethodEnum;
  state : Z;
  count : Z;
  rank : Z;
  x : Vector;
  xNew : Vector;
  f : Vector;
  fNew : Vector;
  J : Matrix;
  JNew : Matrix;
  h : Vector;
  y : Vector;
  v : Vector;
  A : Matrix;
  B : Matrix;
  g : Vector;
  gNew : Vector;
  normInfF : float;
  normInfG : float;
  Q : float;
  QNew : float;
  mu : float;
  nu : float;
  delta : float;
  calls : list ObjCall
}.

(** Assignment to one data member. *)

Definition set_method (s : Impl) (a : MethodEnum) : Impl :=
  Build_Impl (obj s) (ctrl s) a (state s) (count s) (rank s) (x s) (xNew s) (f s) (fNew
    s) (J s) (JNew s) (h s) (y s) (v s) (A s) (B s) (g s) (gNew s) (normInfF s)
    (normInfG s) (Q s) (QNew s) (mu s) (nu s) (delta s) (calls s).

Definition set_state (s : Impl) (a : Z) : Impl :=
  Build_Impl (obj s) (ctrl s) (method s) a (count s) (rank s) (x s) (xNew s) (f s) (fNew
    s) (J s) (JNew s) (h s) (y s) (v s) (A s) (B s) (g s) (gNew s) (normInfF s)
    (normInfG s) (Q s) (QNew s) (mu s) (nu s) (delta s) (calls s).

Definition set_count (s : Impl) (a : Z) : Impl :=
  Build_Impl (obj s) (ctrl s) (method s) (state s) a (rank s) (x s) (xNew s) (f s) (fNew
    s) (J s) (JNew s) (h s) (y s) (v s) (A s) (B s) (g s) (gNew s) (normInfF s)
    (normInfG s) (Q s) (QNew s) (mu s) (nu s) (delta s) (calls s).

Definition set_rank (s : Impl) (a : Z) : Impl :=
  Build_Impl (obj s) (ctrl s) (method s) (state s) (count s) a (x s) (xNew s) (f s)
    (fNew s) (J s) (JNew s) (h s) (y s) (v s) (A s) (B s) (g s) (gNew s) (normInfF s)
    (normInfG s) (Q s) (QNew s) (mu s) (nu s) (delta s) (calls s).

Definition set_x (s : Impl) (a : Vector) : Impl :=
  Build_Impl (obj s) (ctrl s) (method s) (state s) (count s) (rank s) a (xNew s) (f s)
    (fNew s) (J s) (JNew s) (h s) (y s) (v s) (A s) (B s) (g s) (gNew s) (normInfF s)
    (normInfG s) (Q s) (QNew s) (mu s) (nu s) (delta s) (calls s).

Definition set_xNew (s : Impl) (a : Vector) : Impl :=
  Build_Impl (obj s) (ctrl s) (method s) (state s) (count s) (rank s) (x s) a (f s)
    (fNew s) (J s) (JNew s) (h s) (y s) (v s) (A s) (B s) (g s) (gNew s) (normInfF s)
    (normInfG s) (Q s) (QNew s) (mu s) (nu s) (delta s) (calls s).

Definition set_f (s : Impl) (a : Vector) : Impl :=
  Build_Impl (obj s) (ctrl s) (method s) (state s) (count s) (rank s) (x s) (xNew s) a
    (fNew s) (J s) (JNew s) (h s) (y s) (v s) (A s) (B s) (g s) (gNew s) (normInfF s)
    (normInfG s) (Q s) (QNew s) (mu s) (nu s) (delta s) (calls s).

Definition set_fNew (s : Impl) (a : Vector) : Impl :=
  Build_Impl (obj s) (ctrl s) (method s) (state s) (count s) (rank s) (x s) (xNew s) (f
    s) a (J s) (JNew s) (h s) (y s) (v s) (A s) (B s) (g s) (gNew s) (normInfF s)
    (normInfG s) (Q s) (QNew s) (mu s) (nu s) (delta s) (calls s).

Definition set_J (s : Impl) (a : Matrix) : Impl :=
  Build_Impl (obj s) (ctrl s) (method s) (state s) (count s) (rank s) (x s) (xNew s) (f
    s) (fNew s) a (JNew s) (h s) (y s) (v s) (A s) (B s) (g s) (gNew s) (normInfF s)
    (normInfG s) (Q s) (QNew s) (mu s) (nu s) (delta s) (calls s).

Definition set_JNew (s : Impl) (a : Matrix) : Impl :=
  Build_Impl (obj s) (ctrl s) (method s) (state s) (count s) (rank s) (x s) (xNew s) (f
    s) (fNew s) (J s) a (h s) (y s) (v s) (A s) (B s) (g s) (gNew s) (normInfF s)
    (normInfG s) (Q s) (QNew s) (mu s) (nu s) (delta s) (calls s).

Definition set_h (s : Impl) (a : Vector) : Impl :=
  Build_Impl (obj s) (ctrl s) (method s) (state s) (count s) (rank s) (x s) (xNew s) (f
    s) (fNew s) (J s) (JNew s) a (y s) (v s) (A s) (B s) (g s) (gNew s) (normInfF s)
    (normInfG s) (Q s) (QNew s) (mu s) (nu s) (delta s) (calls s).

Definition set_y (s : Impl) (a : Vector) : Impl :=
  Build_Impl (obj s) (ctrl s) (method s) (state s) (count s) (rank s) (x s) (xNew s) (f
    s) (fNew s) (J s) (JNew s) (h s) a (v s) (A s) (B s) (g s) (gNew s) (normInfF s)
    (normInfG s) (Q s) (QNew s) (mu s) (nu s) (delta s) (calls s).

Definition set_v (s : Impl) (a : Vector) : Impl :=
  Build_Impl (obj s) (ctrl s) (method s) (state s) (count s) (rank s) (x s) (xNew s) (f
    s) (fNew s) (J s) (JNew s) (h s) (y s) a (A s) (B s) (g s) (gNew s) (normInfF s)
    (normInfG s) (Q s) (QNew s) (mu s) (nu s) (delta s) (calls s).

Definition set_A (s : Impl) (a : Matrix) : Impl :=
  Build_Impl (obj s) (ctrl s) (method s) (state s) (count s) (rank s) (x s) (xNew s) (f
    s) (fNew s) (J s) (JNew s) (h s) (y s) (v s) a (B s) (g s) (gNew s) (normInfF s)
    (normInfG s) (Q s) (QNew s) (mu s) (nu s) (delta s) (calls s).

Definition set_B (s : Impl) (a : Matrix) : Impl :=
  Build_Impl (obj s) (ctrl s) (method s) (state s) (count s) (rank s) (x s) (xNew s) (f
    s) (fNew s) (J s) (JNew s) (h s) (y s) (v s) (A s) a (g s) (gNew s) (normInfF s)
    (normInfG s) (Q s) (QNew s) (mu s) (nu s) (delta s) (calls s).

Definition set_g (s : Impl) (a : Vector) : Impl :=
  Build_Impl (obj s) (ctrl s) (method s) (state s) (count s) (rank s) (x s) (xNew s) (f
    s) (fNew s) (J s) (JNew s) (h s) (y s) (v s) (A s) (B s) a (gNew s) (normInfF s)
    (normInfG s) (Q s) (QNew s) (mu s) (nu s) (delta s) (calls s).

Definition set_gNew (s : Impl) (a : Vector) : Impl :=
  Build_Impl (obj s) (ctrl s) (method s) (state s) (count s) (rank s) (x s) (xNew s) (f
    s) (fNew s) (J s) (JNew s) (h s) (y s) (v s) (A s) (B s) (g s) a (normInfF s)
    (normInfG s) (Q s) (QNew s) (mu s) (nu s) (delta s) (calls s).

Definition set_normInfF (s : Impl) (a : float) : Impl :=
  Build_Impl (obj s) (ctrl s) (method s) (state s) (count s) (rank s) (x s) (xNew s) (f
    s) (fNew s) (J s) (JNew s) (h s) (y s) (v s) (A s) (B s) (g s) (gNew s) a (normInfG
    s) (Q s) (QNew s) (mu s) (nu s) (delta s) (calls s).

Definition set_normInfG (s : Impl) (a : float) : Impl :=
  Build_Impl (obj s) (ctrl s) (method s) (state s) (count s) (rank s) (x s) (xNew s) (f
    s) (fNew s) (J s) (JNew s) (h s) (y s) (v s) (A s) (B s) (g s) (gNew s) (normInfF s)
    a (Q s) (QNew s) (mu s) (nu s) (delta s) (calls s).

Definition set_Q (s : Impl) (a : float) : Impl :=
  Build_Impl (obj s) (ctrl s) (method s) (state s) (count s) (rank s) (x s) (xNew s) (f
    s) (fNew s) (J s) (JNew s) (h s) (y s) (v s) (A s) (B s) (g s) (gNew s) (normInfF s)
    (normInfG s) a (QNew s) (mu s) (nu s) (delta s) (calls s).

Definition set_QNew (s : Impl) (a : float) : Impl :=
  Build_Impl (obj s) (ctrl s) (method s) (state s) (count s) (rank s) (x s) (xNew s) (f
    s) (fNew s) (J s) (JNew s) (h s) (y s) (v s) (A s) (B s) (g s) (gNew s) (normInfF s)
    (normInfG s) (Q s) a (mu s) (nu s) (delta s) (calls s).

Definition set_mu (s : Impl) (a : float) : Impl :=
  Build_Impl (obj s) (ctrl s) (method s) (state s) (count s) (rank s) (x s) (xNew s) (f
    s) (fNew s) (J s) (JNew s) (h s) (y s) (v s) (A s) (B s) (g s) (gNew s) (normInfF s)
    (normInfG s) (Q s) (QNew s) a (nu s) (delta s) (calls s).

Definition set_nu (s : Impl) (a : float) : Impl :=
  Build_Impl (obj s) (ctrl s) (method s) (state s) (count s) (rank s) (x s) (xNew s) (f
    s) (fNew s) (J s) (JNew s) (h s) (y s) (v s) (A s) (B s) (g s) (gNew s) (normInfF s)
    (normInfG s) (Q s) (QNew s) (mu s) a (delta s) (calls s).

Definition set_delta (s : Impl) (a : float) : Impl :=
  Build_Impl (obj s) (ctrl s) (method s) (state s) (count s) (rank s) (x s) (xNew s) (f
    s) (fNew s) (J s) (JNew s) (h s) (y s) (v s) (A s) (B s) (g s) (gNew s) (normInfF s)
    (normInfG s) (Q s) (QNew s) (mu s) (nu s) a (calls s).

Definition set_calls (s : Impl) (a : list ObjCall) : Impl :=
  Build_Impl (obj s) (ctrl s) (method s) (state s) (count s) (rank s) (x s) (xNew s) (f
    s) (fNew s) (J s) (JNew s) (h s) (y s) (v s) (A s) (B s) (g s) (gNew s) (normInfF s)
    (normInfG s) (Q s) (QNew s) (mu s) (nu s) (delta s) a.

(** ** Control flow: the early [return] *)

(** A piece of [step] either ends the call, leaving the state [s]
    ([Return s]), or hands its locals on ([Next]). *)
Inductive Flow (T : Type) : Type :=
| Return (s : Impl)
| Next (t : T).
Arguments Return {T} s.
Arguments Next {T} t.

Definition bind {T U : Type} (m : Flow T) (k : T -> Flow U) : Flow U :=
  match m with
  | Return s => Return s
  | Next t => k t
  end.

Notation "' p <- m ;; k" := (bind m (fun p => k))
  (at level 61, p pattern, m at next level, right associativity).

Definition leave (m : Flow Impl) : Impl :=
  match m with
  | Return s => s
  | Next s => s
  end.

(** ** Scalars *)

Notation "a >? b" := (PrimFloat.ltb b a) (at level 70, no associativity) : float_scope.
Notation "a >=? b" := (PrimFloat.leb b a) (at level 70, no associativity) : float_scope.

(** [std::max(a, b)] is [(a < b) ? b : a]; [std::min(a, b)] is
    [(b < a) ? b : a]. *)
Definition std_max (a b : float) : float := if a <? b then b else a.
Definition std_min (a b : float) : float := if b <? a then b else a.

(** [std::numeric_limits<double>::epsilon()] and the static [sqrtEps]. *)
Definition epsilon : float := 0x1p-52.
Definition sqrtEps : float := sqrt epsilon.

(** [c * u] for a scalar [c]. *)
Definition smul (c : float) (u : Vector) : Vector := map (fun a => c * a) u.

(** [u[i]] with an [int] index. *)
Definition coeffZ (u : Vector) (i : Z) : float :=
  if (i <? 0)%Z then nan else coeff u (Z.to_nat i).

(** [state |= m], [state &= ~m], and the test [state & m]. *)
Definition set_bits (s : Impl) (m : Z) : Impl := set_state s (Z.lor (state s) m).
Definition clear_bits (s : Impl) (m : Z) : Impl := set_state s (Z.land (state s) (Z.lnot m)).
Definition any_bit (st m : Z) : bool := negb (Z.land st m =? 0)%Z.

(** [fNew.setZero(); obj->computeFunction(xNew, fNew)] and
    [JNew.setZero(); obj->computeDerivative(xNew, fNew, JNew)]. *)
Definition call_computeFunction (s : Impl) : Impl :=
  set_calls (set_fNew s (computeFunction (obj s) (xNew s)))
            (calls s ++ [CallComputeFunction]).

Definition call_computeDerivative (s : Impl) : Impl :=
  set_calls (set_JNew s (computeDerivative (obj s) (xNew s) (fNew s)))
            (calls s ++ [CallComputeDerivative]).

(** [obj->tryStep(x, xNew)], which may overwrite [xNew]. *)
Definition call_tryStep (s : Impl) : StepResult * Impl :=
  let '(doStep, xNew') := tryStep (obj s) (x s) (xNew s) in
  (doStep, set_calls (set_xNew s xNew') (calls s ++ [CallTryStep])).

(** [A.setZero(); A.selfadjointView<Lower>().rankUpdate(Jm.adjoint());
    A.diagonal().array() += mu]. *)
Definition rebuild_A (s : Impl) (Jm : Matrix) : Impl :=
  let n := getParameterSize (obj s) in
  let s := set_A s (setZero (A s)) in
  let s := set_A s (rankUpdateLower (A s) (adjoint n Jm) 1) in
  set_A s (addDiagonal (A s) (mu s)).

(** ** [HybridOptimizer::Impl::Impl] *)

Definition new_Impl (objective : Objective) (parameters : Vector)
    (control : HybridOptimizerControl) : Impl :=
  let n := getParameterSize objective in
  let m := getFunctionSize objective in
  let s := {| obj := objective; ctrl := control; method := LM; state := 0%Z;
              count := 0%Z; rank := Z.of_nat n;
              x := parameters; xNew := parameters;
              f := Zero m; fNew := Zero m; J := MZero m n; JNew := MZero m n;
              h := Zero n; y := Zero n; v := Zero n;
              A := MZero n n; B := Identity n; g := Zero n; gNew := Zero n;
              normInfF := 0; normInfG := 0; Q := 0; QNew := 0; mu := 0; nu := 2;
              delta := delta0 control; calls := [] |} in
  let s := call_computeFunction s in
  let s := set_f s (fNew s) in
  let s := set_normInfF s (lpNormInf (f s)) in
  let s := set_Q s (0.5 * squaredNorm (f s)) in
  let s := set_QNew s (Q s) in
  let s := call_computeDerivative s in
  let s := set_J s (JNew s) in
  let s := set_A s (rankUpdateLower (A s) (adjoint n (J s)) 1) in
  let s := set_g s (mulVec (adjoint n (J s)) (f s)) in
  let s := set_normInfG s (lpNormInf (g s)) in
  let s := set_mu s (tau (ctrl s) * lpNormInf (diagonal (A s))) in
  set_A s (addDiagonal (A s) (mu s)).

Section Engine.

Variable F : StateFlags.
Variable lib : NumLib.

(** ** [checkStep] *)

Definition checkStep (s : Impl) (stepNorm : float) (bad : Z) : bool * Impl :=
  if negb (stepNorm >? minStep (ctrl s) * (norm (x s) + minStep (ctrl s)))
  then (false, set_bits s bad)
  else (true, s).

(** ** [solve] *)

(** The loop [for (; i < rank && eigenvalues[i] < threshold; ++i);].  It
    leaves after at most [rank] rounds, which is the [fuel] it is given. *)
Fixpoint scan (eigenvalues : Vector) (threshold : float) (rank0 : Z)
    (fuel : nat) (i : Z) : Z :=
  match fuel with
  | O => i
  | S fuel' =>
      if (i <? rank0)%Z && (coeffZ eigenvalues i <? threshold)
      then scan eigenvalues threshold rank0 fuel' (i + 1)%Z
      else i
  end.

Definition solve (s : Impl) (m : Matrix) : Impl :=
  if useCholesky (ctrl s) then
    set_h s (ldlt_solve lib m (vneg (g s)))
  else
    let s := set_rank s (Z.of_nat (getParameterSize (obj s))) in
    let '(eigenvalues, eigenvectors) := eigh_compute lib m in
    let threshold := coeffZ eigenvalues (rank s - 1) * epsilon in
    let i := scan eigenvalues threshold (rank s) (Z.to_nat (rank s)) 0%Z in
    let s := set_rank s (rank s - i)%Z in
    let k := Z.to_nat (rank s) in
    let Vr := rightCols k eigenvectors in
    let inverse := map (fun l => 1 / l) (tail k eigenvalues) in
    set_h s (mulVec (mulAdjoint (mulDiag Vr inverse) Vr) (vneg (g s))).

(** ** [step], in the order of the source *)

(** Lines 131-143: the step direction, the minimum-step guard, the clipping
    to the trust radius, the proposal. *)
Definition solved (s : Impl) : Impl :=
  match method s with
  | LM => solve s (A s)
  | BFGS => solve s (B s)
  end.

Definition direction (s : Impl) : Flow (Impl * float) :=
  let s := solved s in
  let normH := norm (h s) in
  let '(ok, s) := checkStep s normH (FAILURE_MINSTEP F) in
  if negb ok then Return s else
  let s := if is_BFGS (method s) && (normH >? delta s)
           then set_h s (vscale (h s) (delta s / normH)) else s in
  Next (set_xNew s (vadd (x s) (h s)), normH).

(** Lines 147-166: the objective vets the proposal. *)
Definition vet (s : Impl) (normH : float) : Flow (Impl * float * StepResult) :=
  let '(doStep, s) := call_tryStep s in
  match doStep with
  | MODIFIED =>
      let s := set_bits s (STEP_MODIFIED F) in
      let s := set_h s (vsub (xNew s) (x s)) in
      let normH := norm (h s) in
      let '(ok, s) := checkStep s normH (FAILURE_MINSTEP F) in
      if negb ok then Return s else Next (s, normH, doStep)
  | INVALID =>
      let s := set_bits s (STEP_INVALID F) in
      Next (set_QNew s infinity, normH, doStep)
  | VALID =>
      Next (clear_bits s (Z.lor (STEP_MODIFIED F) (STEP_INVALID F)), normH, doStep)
  end.

(** Lines 167-179: evaluation of the objective at the proposal, and the
    trial gradient; the result carries the local [normInfGNew]. *)
Definition evaluate (s : Impl) (doStep : StepResult) : Impl * float :=
  let s := if evaluable doStep then
             let s := call_computeFunction s in
             let s := set_QNew s (0.5 * squaredNorm (fNew s)) in
             call_computeDerivative s
           else s in
  if evaluable doStep && (is_BFGS (method s) || (QNew s <? Q s)) then
    let s := set_gNew s (mulVec (adjoint (getParameterSize (obj s)) (JNew s)) (fNew s)) in
    (s, lpNormInf (gNew s))
  else (s, 0).

(** The gain ratios: [double rho = (Q - QNew) / -(h.dot(g) -
    0.5*(J*h).squaredNorm())] of the BFGS branch and [double rho = (Q - QNew)
    / (-0.5 * h.dot(g - mu * h))] of the LM branch. *)
Definition rho_BFGS (s : Impl) : float :=
  (Q s - QNew s) / - (dot (h s) (g s) - 0.5 * squaredNorm (mulVec (J s) (h s))).

(** The acceptance test of the BFGS branch: [isBetter = (QNew < Q) ||
    (QNew <= (1.0 + sqrtEps) * Q && normInfGNew < normInfG)]. *)
Definition isBetter_BFGS (s : Impl) (normInfGNew : float) : bool :=
  (QNew s <? Q s) || ((QNew s <=? (1 + sqrtEps) * Q s) && (normInfGNew <? normInfG s)).

Definition rho_LM (s : Impl) : float :=
  (Q s - QNew s) / (-0.5 * dot (h s) (vsub (g s) (smul (mu s) (h s)))).

(** Lines 181-218: acceptance, and the update of the trust region ([delta]
    for BFGS, [mu] and [nu] for LM); the result carries the locals [isBetter]
    and [shouldSwitchMethod]. *)
Definition halve_delta (s : Impl) (isBetter shouldSwitchMethod : bool)
    : Flow (Impl * bool * bool) :=
  let s := set_delta s (delta s / 2) in
  let '(ok, s) := checkStep s (delta s) (FAILURE_MINTRUST F) in
  if negb ok then Return s else Next (s, isBetter, shouldSwitchMethod).

Definition adjust (s : Impl) (normH normInfGNew : float) : Flow (Impl * bool * bool) :=
  match method s with
  | BFGS =>
      let isBetter := isBetter_BFGS s normInfGNew in
      let shouldSwitchMethod := (normInfGNew >=? normInfG s) in
      if QNew s <? Q s then
        let rho := rho_BFGS s in
        if rho >? 0.75 then
          Next (set_delta s (std_max (delta s) (3 * normH)), isBetter, shouldSwitchMethod)
        else if rho <? 0.25 then
          halve_delta s isBetter shouldSwitchMethod
        else Next (s, isBetter, shouldSwitchMethod)
      else
        halve_delta s isBetter shouldSwitchMethod
  | LM =>
      if QNew s <? Q s then
        let rho := rho_LM s in
        let s := set_mu s (mu s * std_max (1 / 3) (1 - std_pow lib (2 * rho - 1) 3)) in
        let s := set_nu s 2 in
        let near := std_min normInfGNew (Q s - QNew s) <? 0.02 * QNew s in
        let s := if near then set_count s (count s + 1)%Z else set_count s 0%Z in
        let shouldSwitchMethod := near && (count s =? 3)%Z in
        let s := if negb (count s =? 3)%Z then rebuild_A s (JNew s) else s in
        Next (s, true, shouldSwitchMethod)
      else
        let s := set_A s (addDiagonal (A s) (mu s * (nu s - 1))) in
        let s := set_mu s (mu s * nu s) in
        let s := set_nu s (nu s * 2) in
        Next (s, false, (nu s >=? 32))
  end.

(** Lines 219-262: the BFGS update of [B], the commit of an accepted step,
    the switch of method, the [STEP_ACCEPTED] flag. *)
Definition y_update (s : Impl) : Vector :=
  let n := getParameterSize (obj s) in
  vadd (mulVec (adjoint n (JNew s)) (mulVec (JNew s) (h s))) (vsub (gNew s) (g s)).

Definition update_B (s : Impl) : Impl :=
  let s := set_y s (y_update s) in
  let hy := dot (h s) (y s) in
  if hy >? 0 then
    let s := set_v s (mulVec (selfadjointLower (B s)) (h s)) in
    let hv := dot (h s) (v s) in
    let s := set_B s (rankUpdateLowerVec (B s) (v s) (-1 / hv)) in
    set_B s (rankUpdateLowerVec (B s) (y s) (1 / hy))
  else s.

Definition commit (s : Impl) (normInfGNew : float) : Impl :=
  let s := set_x s (xNew s) in
  let s := set_f s (fNew s) in
  let s := set_Q s (QNew s) in
  let s := set_J s (JNew s) in
  let s := set_g s (gNew s) in
  let s := set_normInfF s (lpNormInf (f s)) in
  let s := set_normInfG s normInfGNew in
  let s := if negb (normInfF s >? fTol (ctrl s)) then set_bits s (SUCCESS_FTOL F) else s in
  if negb (normInfG s >? gTol (ctrl s)) then set_bits s (SUCCESS_GTOL F) else s.

Definition switch_method (s : Impl) (normH : float) : Impl :=
  match method s with
  | BFGS => set_method (rebuild_A s (J s)) LM
  | LM =>
      let s := set_delta s (std_max (1.5 * minStep (ctrl s)
                                       * (squaredNorm (f s) + minStep (ctrl s)))
                                    (0.2 * normH)) in
      set_method s BFGS
  end.

Definition finish (s : Impl) (normH : float) (doStep : StepResult)
    (normInfGNew : float) (isBetter shouldSwitchMethod : bool) : Impl :=
  if negb (evaluable doStep) then s else
  let s := update_B s in
  let s := if isBetter then commit s normInfGNew else s in
  let s := if shouldSwitchMethod then switch_method s normH else s in
  if isBetter then set_bits s (STEP_ACCEPTED F) else clear_bits s (STEP_ACCEPTED F).

(** Lines 167-262 together: what [step] does once the proposal is vetted. *)
Definition conclude (s : Impl) (normH : float) (doStep : StepResult) : Flow Impl :=
  let '(s, normInfGNew) := evaluate s doStep in
  '(s, isBetter, shouldSwitchMethod) <- adjust s normH normInfGNew ;;
  Next (finish s normH doStep normInfGNew isBetter shouldSwitchMethod).

Definition step_flow (s : Impl) : Flow Impl :=
  '(s, normH) <- direction s ;;
  '(s, normH, doStep) <- vet s normH ;;
  conclude s normH doStep.

Definition step (s : Impl) : Impl := leave (step_flow s).

(** ** The driver: [HybridOptimizer::step], [getState], [run] *)

Definition HybridOptimizer_step (s : Impl) : Impl * Z :=
  let s := step s in (s, state s).

Definition getState (s : Impl) : Z := state s.

(** [for (int n = 0; n < maxIter; ++n)]: [todo] rounds are left. *)
Fixpoint run_loop (todo : nat) (s : Impl) : Impl * Z :=
  match todo with
  | O => let s := set_bits s (FAILURE_MAXITER F) in (s, state s)
  | S todo' =>
      let s := step s in
      if any_bit (state s) (FINISHED F) then (s, state s) else run_loop todo' s
  end.

Definition run (s : Impl) : Impl * Z :=
  run_loop (Z.to_nat (maxIter (ctrl s))) s.

End Engine.

(** ** The accessors and the constructor of [HybridOptimizer]

    [getParameters], [getTrialParameters], [getFunction] and
    [getTrialFunction] return views of the arrays of the [Impl]; here they
    return the values the arrays hold when they are called. *)

Definition getMethod (s : Impl) : MethodEnum := method s.
Definition getChiSq (s : Impl) : float := 2 * Q s.
Definition getTrialChiSq (s : Impl) : float := 2 * QNew s.
Definition getFunctionInfNorm (s : Impl) : float := normInfF s.
Definition getGradientInfNorm (s : Impl) : float := normInfG s.
Definition getMu (s : Impl) : float := mu s.
Definition getDelta (s : Impl) : float := delta s.
Definition getObjective (s : Impl) : Objective := obj s.
Definition getParameters (s : Impl) : Vector := x s.
Definition getTrialParameters (s : Impl) : Vector := xNew s.
Definition getFunction (s : Impl) : Vector := f s.
Definition getTrialFunction (s : Impl) : Vector := fNew s.
Definition getControl (s : Impl) : HybridOptimizerControl := ctrl s.

(** [HybridOptimizer::HybridOptimizer] makes the [Impl]. *)
Definition new_HybridOptimizer (objective : Objective) (parameters : Vector)
    (control : HybridOptimizerControl) : Impl :=
  new_Impl objective parameters control.

(** ** Vocabulary of the properties *)

(** The flag [m] is set in the bitmask [st]. *)
Definition has_flag (st m : Z) : Prop := Z.land st m = m.

(** The enumerators are non-empty bit masks, and no two of them share a
    bit. *)
Fixpoint apart (l : list Z) : Prop :=
  match l with
  | [] => True
  | a :: t => a <> 0%Z /\ fold_right (fun b P => Z.land a b = 0%Z /\ P) True t /\ apart t
  end.

Definition flags_wf (F : StateFlags) : Prop :=
  apart [STEP_ACCEPTED F; STEP_MODIFIED F; STEP_INVALID F; SUCCESS_FTOL F; SUCCESS_GTOL F;
         FAILURE_MINSTEP F; FAILURE_MINTRUST F; FAILURE_MAXITER F].

Definition terminal_flags (F : StateFlags) : list Z :=
  [SUCCESS_FTOL F; SUCCESS_GTOL F; FAILURE_MINSTEP F; FAILURE_MINTRUST F; FAILURE_MAXITER F].

Definition step_flags (F : StateFlags) : Z :=
  Z.lor (STEP_ACCEPTED F) (Z.lor (STEP_MODIFIED F) (STEP_INVALID F)).

(** A sequence of calls made on the optimizer. *)
Inductive DriverCall := DoStep | DoRun.

Definition exec_call (F : StateFlags) (lib : NumLib) (s : Impl) (c : DriverCall) : Impl :=
  match c with
  | DoStep => fst (HybridOptimizer_step F lib s)
  | DoRun => fst (run F lib s)
  end.

Definition exec (F : StateFlags) (lib : NumLib) (cs : list DriverCall) (s : Impl) : Impl :=
  fold_left (exec_call F lib) cs s.

Fixpoint steps (F : StateFlags) (lib : NumLib) (k : nat) (s : Impl) : Impl :=
  match k with
  | O => s
  | S k' => step F lib (steps F lib k' s)
  end.

(** The quantity tested by [checkStep] is [NaN] or at most the floor. *)
Definition below_floor (s : Impl) (stepNorm : float) : Prop :=
  is_nan stepNorm = true
  \/ (stepNorm <=? minStep (ctrl s) * (norm (x s) + minStep (ctrl s))) = true.

(** What [tryStep] answers to the proposal of the step taken from [s]
    ([None] when the step ends before the objective is asked). *)
Definition proposal_result (F : StateFlags) (lib : NumLib) (s : Impl) : option StepResult :=
  match direction F lib s with
  | Return _ => None
  | Next (s1, _) => Some (fst (tryStep (obj s1) (x s1) (xNew s1)))
  end.

(** The state in which the acceptance test of the step taken from [s] is
    made, with the locals [normH], [doStep] and [normInfGNew] ([None] when the
    step ends before). *)
Definition trial (F : StateFlags) (lib : NumLib) (s : Impl)
    : option (Impl * float * StepResult * float) :=
  match direction F lib s with
  | Return _ => None
  | Next (s1, normH) =>
      match vet F s1 normH with
      | Return _ => None
      | Next (s2, normH', doStep) =>
          let '(s3, normInfGNew) := evaluate s2 doStep in
          Some (s3, normH', doStep, normInfGNew)
      end
  end.

(** The step taken from [s] is an LM step whose candidate is evaluated and
    rejected. *)
Definition rejected_LM (F : StateFlags) (lib : NumLib) (s : Impl) : bool :=
  match trial F lib s with
  | Some (s3, _, doStep, _) =>
      evaluable doStep && negb (is_BFGS (method s3)) && negb (QNew s3 <? Q s3)
  | None => false
  end.

(** The BFGS branch halves [delta] in the state [s] of the acceptance test:
    the candidate is not better, or it is and the gain ratio is below 1/4. *)
Definition halves_delta (s : Impl) : bool :=
  is_BFGS (method s)
  && (if QNew s <? Q s
      then negb (rho_BFGS s >? 0.75) && (rho_BFGS s <? 0.25)
      else true).

(** The update vector of the BFGS formula at the proposal held in [s]:
    [JNew^T (JNew h) + (JNew^T fNew - g)]. *)
Definition y_at_proposal (s : Impl) : Vector :=
  let n := getParameterSize (obj s) in
  vadd (mulVec (adjoint n (JNew s)) (mulVec (JNew s) (h s)))
       (vsub (mulVec (adjoint n (JNew s)) (fNew s)) (g s)).

(** Stored entries, and the shape of a stored matrix. *)
Definition stored (M : Matrix) (i j : nat) : option float :=
  match nth_error M i with
  | Some r => nth_error r j
  | None => None
  end.

(** Every stored entry strictly above the diagonal is [+0]. *)
Definition upper_zero (M : Matrix) : Prop :=
  forall i j a, (i < j)%nat -> stored M i j = Some a -> a = 0.

Definition square (n : nat) (M : Matrix) : Prop :=
  length M = n /\ Forall (fun r => length r = n) M.

(** A number that is neither [NaN] nor infinite. *)
Definition finite (a : float) : Prop :=
  match Prim2SF a with
  | S754_zero _ | S754_finite _ _ _ => True
  | _ => False
  end.

(** The data members that [step] does not assign before its acceptance
    test. *)
Definition untouched (s s' : Impl) : Prop :=
  obj s' = obj s /\ ctrl s' = ctrl s /\ method s' = method s /\ count s' = count s
  /\ x s' = x s /\ f s' = f s /\ J s' = J s /\ g s' = g s /\ A s' = A s /\ B s' = B s
  /\ normInfF s' = normInfF s /\ normInfG s' = normInfG s /\ Q s' = Q s
  /\ mu s' = mu s /\ nu s' = nu s /\ delta s' = delta s.

(** The value of the local [isBetter] when the step taken from [s] returns:
    [false], its initial value, when the step ends before the acceptance test,
    the outcome of the test otherwise. *)
Definition isBetter_at_return (F : StateFlags) (lib : NumLib) (s : Impl) : bool :=
  match trial F lib s with
  | Some (s3, normH, doStep, normInfGNew) =>
      match adjust F lib s3 normH normInfGNew with
      | Next (_, isBetter, _) => isBetter
      | Return _ => isBetter_BFGS s3 normInfGNew
      end
  | None => false
  end.

(** The step taken from [s] runs to its last statement. *)
Definition completes (F : StateFlags) (lib : NumLib) (s : Impl) : bool :=
  match trial F lib s with
  | Some (s3, normH, doStep, normInfGNew) =>
      match adjust F lib s3 normH normInfGNew with
      | Next _ => evaluable doStep
      | Return _ => false
      end
  | None => false
  end.

(** The bits of [st] outside the three [STEP_*] flags are still set in
    [st']. *)
Definition sticky (F : StateFlags) (st st' : Z) : Prop :=
  forall i, Z.testbit st i = true -> Z.testbit (step_flags F) i = false ->
            Z.testbit st' i = true.

(** The flags that [step] sets or clears outside the vetting of the
    proposal. *)
Definition late_flags (F : StateFlags) : list Z :=
  [FAILURE_MINSTEP F; FAILURE_MINTRUST F; SUCCESS_FTOL F; SUCCESS_GTOL F; STEP_ACCEPTED F].

(** The bits of [m] are the same in [st] and [st']. *)
Definition keeps (m st st' : Z) : Prop :=
  forall i, Z.testbit m i = true -> Z.testbit st' i = Z.testbit st i.

(** A stored matrix is [n x n] and lower triangular. *)
Definition lower (n : nat) (M : Matrix) : Prop := square n M /\ upper_zero M.

(** [A] and [B] are stored as lower triangles of the size of the problem. *)
Definition stored_lower (s : Impl) : Prop :=
  lower (getParameterSize (obj s)) (A s) /\ lower (getParameterSize (obj s)) (B s).

(** A zero of either sign; two numbers that are equal or both zeros. *)
Definition zero_valued (a : float) : Prop :=
  match Prim2SF a with
  | S754_zero _ => True
  | _ => False
  end.

Definition same_value (a b : float) : Prop := a = b \/ (zero_valued a /\ zero_valued b).

(** Row [i] of the identity, from column [a] on. *)
Definition unit_row (i a m : nat) : Vector :=
  map (fun j => if Nat.eqb i j then 1 else 0) (seq a m).

(** Both proposal flags are kept from [st] to [st']. *)
Definition proposal_flags_kept (F : StateFlags) (st st' : Z) : Prop :=
  keeps (STEP_MODIFIED F) st st' /\ keeps (STEP_INVALID F) st st'.

(** The committed members describe one point: [f] and [J] are the objective
    at [x], and [Q], [g] and the two norms are computed from them. *)
Definition coherent (s : Impl) : Prop :=
  f s = computeFunction (obj s) (x s)
  /\ J s = computeDerivative (obj s) (x s) (f s)
  /\ Q s = 0.5 * squaredNorm (f s)
  /\ g s = mulVec (adjoint (getParameterSize (obj s)) (J s)) (f s)
  /\ normInfF s = lpNormInf (f s)
  /\ normInfG s = lpNormInf (g s).

(** The committed iterate of [s'] is that of [s]. *)
Definition same_iterate (s s' : Impl) : Prop :=
  x s' = x s /\ f s' = f s /\ J s' = J s /\ g s' = g s /\ Q s' = Q s
  /\ normInfF s' = normInfF s /\ normInfG s' = normInfG s.

(** The committed iterate of [s] is its trial point. *)
Definition trial_committed (s : Impl) : Prop :=
  x s = xNew s /\ f s = fNew s /\ J s = JNew s /\ g s = gNew s /\ Q s = QNew s.

(** The trial members describe the proposal [xNew]. *)
Definition evaluated (s : Impl) : Prop :=
  fNew s = computeFunction (obj s) (xNew s)
  /\ JNew s = computeDerivative (obj s) (xNew s) (fNew s)
  /\ QNew s = 0.5 * squaredNorm (fNew s).

(** The step taken from [s] evaluates its proposal. *)
Definition evaluates (F : StateFlags) (lib : NumLib) (s : Impl) : bool :=
  match trial F lib s with
  | Some (_, _, doStep, _) => evaluable doStep
  | None => false
  end.

(** The bitmask after the vetting of a proposal answered [d]. *)
Definition vetted_state (F : StateFlags) (d : StepResult) (st : Z) : Z :=
  match d with
  | MODIFIED => Z.lor st (STEP_MODIFIED F)
  | INVALID => Z.lor st (STEP_INVALID F)
  | VALID => Z.land st (Z.lnot (Z.lor (STEP_MODIFIED F) (STEP_INVALID F)))
  end.

(** The bitmask [st] after the two tolerance tests made on the committed
    norms of [s]. *)
Definition committed_state (F : StateFlags) (s : Impl) (st : Z) : Z :=
  let st := if normInfF s >? fTol (ctrl s) then st else Z.lor st (SUCCESS_FTOL F) in
  if normInfG s >? gTol (ctrl s) then st else Z.lor st (SUCCESS_GTOL F).

(** The bitmask with which the step taken from [s] returns, [s'] being the
    state it returns in. *)
Definition state_after (F : StateFlags) (lib : NumLib) (s s' : Impl) : Z :=
  match proposal_result F lib s with
  | None => Z.lor (state s) (FAILURE_MINSTEP F)
  | Some d =>
      match trial F lib s with
      | None => Z.lor (Z.lor (state s) (STEP_MODIFIED F)) (FAILURE_MINSTEP F)
      | Some (s3, normH, _, normInfGNew) =>
          match adjust F lib s3 normH normInfGNew with
          | Return _ => Z.lor (vetted_state F d (state s)) (FAILURE_MINTRUST F)
          | Next (_, isBetter, _) =>
              if evaluable d then
                if isBetter
                then Z.lor (committed_state F s' (vetted_state F d (state s)))
                           (STEP_ACCEPTED F)
                else Z.land (vetted_state F d (state s)) (Z.lnot (STEP_ACCEPTED F))
              else vetted_state F d (state s)
          end
      end
  end.

(** ** The update of [B] in exact arithmetic

    Lines 221-228 with real numbers in place of doubles.  [B] stands for the
    symmetric matrix that [B.selfadjointView<Eigen::Lower>()] denotes; on it
    the two rank updates add [alpha v v^T] and [beta y y^T] to every entry. *)

Module Exact.
Local Open Scope R_scope.

Definition Vector := list R.
Definition Matrix := list (list R).

Fixpoint dot (u w : Vector) : R :=
  match u, w with
  | a :: u', b :: w' => a * b + dot u' w'
  | _, _ => 0
  end.

Definition mulVec (M : Matrix) (u : Vector) : Vector := map (fun r => dot r u) M.

(** [r + c u]. *)
Fixpoint axpy (r u : Vector) (c : R) : Vector :=
  match r, u with
  | a :: r', b :: u' => (a + c * b) :: axpy r' u' c
  | _, _ => []
  end.

(** [rankUpdate(u, alpha)]: the entry [(i, j)] gains [(alpha u_i) u_j]. *)
Fixpoint rankUpdateRows (M : Matrix) (ui u : Vector) (alpha : R) : Matrix :=
  match M, ui with
  | r :: M', a :: ui' => axpy r u (alpha * a) :: rankUpdateRows M' ui' u alpha
  | _, _ => []
  end.

Definition rankUpdate (M : Matrix) (u : Vector) (alpha : R) : Matrix :=
  rankUpdateRows M u u alpha.

(** Lines 224-227, taken when [h^T y > 0]. *)
Definition update_B (B : Matrix) (h y : Vector) : Matrix :=
  let hy := dot h y in
  let v := mulVec B h in
  let hv := dot h v in
  let B := rankUpdate B v (-1 / hv) in
  rankUpdate B y (1 / hy).

Definition square (n : nat) (M : Matrix) : Prop :=
  length M = n /\ Forall (fun r => length r = n) M.

(** [M] is an [n x n] symmetric matrix ([u^T M w = w^T M u] for all [u],
    [w]) with [u^T M u > 0] for every [u] other than [0]. *)
Definition positive_definite (n : nat) (M : Matrix) : Prop :=
  square n M
  /\ (forall u w, length u = n -> length w = n -> dot u (mulVec M w) = dot w (mulVec M u))
  /\ (forall u, length u = n -> u <> repeat 0 n -> 0 < dot u (mulVec M u)).

(** [c u - b h]. *)
Definition combination (c : R) (u : Vector) (b : R) (h : Vector) : Vector :=
  axpy (map (Rmult c) u) h (- b).

End Exact.

(** ** Instances used to run the model *)

(** Flags numbered in the order of the spec's table. *)
Definition table_flags : StateFlags :=
  {| STEP_ACCEPTED := 1; STEP_MODIFIED := 2; STEP_INVALID := 4;
     SUCCESS_FTOL := 8; SUCCESS_GTOL := 16;
     FAILURE_MINSTEP := 32; FAILURE_MINTRUST := 64; FAILURE_MAXITER := 128 |}.

(** Factorizations for the small problems the model is run on.  The solve is
    the LDL^T elimination without pivoting, written out for two parameters
    (it reads the lower triangle only) and, for any other size, for a
    diagonal matrix.  The eigen-decomposition is that of a diagonal matrix
    whose diagonal increases (every 1 x 1 matrix, the identity): the
    eigenvalues are the diagonal, the eigenvectors the identity.  [pow] is
    for the exponent 3. *)
Definition ldlt_small (M : Matrix) (b : Vector) : Vector :=
  match M, b with
  | [[a; _]; [c; d]], [r0; r1] =>
      let l := c / a in
      let d1 := d - l * c in
      let h1 := (r1 - l * r0) / d1 in
      [r0 / a - l * h1; h1]
  | _, _ => zipWith div b (diagonal M)
  end.

Definition small_lib : NumLib :=
  {| ldlt_solve := ldlt_small;
     eigh_compute := fun M => (diagonal M, Identity (length M));
     std_pow := fun a _ => a * a * a |}.

Definition control (tau0 : float) (cholesky : bool) : HybridOptimizerControl :=
  {| fTol := 0x1p-30; gTol := 0x1p-30; minStep := 0x1p-30; delta0 := 1;
     tau := tau0; maxIter := 100; useCholesky := cholesky |}.

(** [f(x) = x] on the half line [x >= 1/4]: a proposal below is refused. *)
Definition halfline : Objective :=
  {| getFunctionSize := 1; getParameterSize := 1;
     computeFunction := fun x => x;
     computeDerivative := fun _ _ => [[1]];
     tryStep := fun _ xn => (if coeff xn 0 <? 0.25 then INVALID else VALID, xn) |}.

(** [f(x) = x] with proposals in [[1/4, 3/4)] moved to [3/4] and proposals
    below [1/4] refused. *)
Definition clamped : Objective :=
  {| getFunctionSize := 1; getParameterSize := 1;
     computeFunction := fun x => x;
     computeDerivative := fun _ _ => [[1]];
     tryStep := fun _ xn =>
       if coeff xn 0 <? 0.25 then (INVALID, xn)
       else if coeff xn 0 <? 0.75 then (MODIFIED, [0.75])
       else (VALID, xn) |}.

(** [f(x) = x / sqrt (1 + x^2)], whose Gauss-Newton step from [x = 2]
    overshoots the minimum at [0]. *)
Definition sigmoid : Objective :=
  {| getFunctionSize := 1; getParameterSize := 1;
     computeFunction := fun x => map (fun a => a / sqrt (1 + a * a)) x;
     computeDerivative := fun x _ => [map (fun a => 1 / ((1 + a * a) * sqrt (1 + a * a))) x];
     tryStep := fun _ xn => (VALID, xn) |}.

(** One residual in two parameters, [f(x) = x_0 + x_1]. *)
Definition plane : Objective :=
  {| getFunctionSize := 1; getParameterSize := 2;
     computeFunction := fun x => [coeff x 0 + coeff x 1];
     computeDerivative := fun _ _ => [[1; 1]];
     tryStep := fun _ xn => (VALID, xn) |}.

(** One residual that is [1] with slope [-2^-60] below [1/2] and [1/2] with
    slope [0] from there on; proposals above [0.7] are moved to [0.7]. *)
Definition plateau : Objective :=
  {| getFunctionSize := 1; getParameterSize := 1;
     computeFunction := fun x => [if coeff x 0 <? 0.5 then 1 else 0.5];
     computeDerivative := fun x _ => [[if coeff x 0 <? 0.5 then -0x1p-60 else 0]];
     tryStep := fun _ xn => if 0.7 <? coeff xn 0 then (MODIFIED, [0.7]) else (VALID, xn) |}.

(** A control whose minimum step is a quarter: the trust region of the BFGS
    branch falls below its floor after few halvings. *)
Definition coarse : HybridOptimizerControl :=
  {| fTol := 0x1p-30; gTol := 0x1p-30; minStep := 0.25; delta0 := 1;
     tau := 0x1p-10; maxIter := 100; useCholesky := true |}.

(** One residual [f = 1] in two parameters whose derivative in the first
    parameter has overflowed: [J = (inf, 1)]. *)
Definition steep : Objective :=
  {| getFunctionSize := 1; getParameterSize := 2;
     computeFunction := fun _ => [1];
     computeDerivative := fun _ _ => [[infinity; 1]];
     tryStep := fun _ xn => (VALID, xn) |}.

(** * Facts about binary64 numbers *)

Module FloatFacts.

Lemma Prim2SF_eq (a b : float) : Prim2SF a = Prim2SF b -> a = b.
Proof.
  intro H. rewrite <- (SF2Prim_Prim2SF a), <- (SF2Prim_Prim2SF b), H. reflexivity.
Qed.

Lemma compare_cont_swap (m1 m2 : positive) :
  PosDef.Pos.compare_cont Eq m2 m1 = CompOpp (PosDef.Pos.compare_cont Eq m1 m2).
Proof. exact (Pos.compare_antisym m1 m2). Qed.

Lemma SFcompare_swap (a b : spec_float) :
  SFcompare b a = match SFcompare a b with
                  | Some c => Some (CompOpp c)
                  | None => None
                  end.
Proof.
  destruct a as [sa|sa| |sa ma ea], b as [sb|sb| |sb mb eb]; simpl; try reflexivity;
    try (destruct sa; reflexivity); try (destruct sb; reflexivity);
    try (destruct sa, sb; reflexivity).
  destruct sa, sb; simpl; try reflexivity;
    rewrite (Z.compare_antisym ea eb); destruct (ea ?= eb)%Z; simpl; try reflexivity;
    rewrite compare_cont_swap; try rewrite CompOpp_involutive; reflexivity.
Qed.

Lemma SFcompare_refl (a : spec_float) : a <> S754_nan -> SFcompare a a = Some Eq.
Proof.
  destruct a as [s|s| |s m e]; simpl; intro H; try reflexivity; try congruence.
  - destruct s; reflexivity.
  - destruct s; rewrite Z.compare_refl; simpl; fold (Pos.compare m m);
      rewrite Pos.compare_refl; reflexivity.
Qed.

(** [a <= b] excludes [a > b]. *)
Lemma leb_not_gtb (a b : float) : (a <=? b) = true -> (a >? b) = false.
Proof.
  rewrite leb_spec, ltb_spec. unfold SFleb, SFltb.
  rewrite (SFcompare_swap (Prim2SF a)).
  destruct (SFcompare (Prim2SF a) (Prim2SF b)) as [[]|]; simpl; congruence.
Qed.

Lemma is_nan_Prim2SF (a : float) : is_nan a = true -> Prim2SF a = S754_nan.
Proof.
  unfold is_nan. rewrite eqb_spec. unfold SFeqb. intro H.
  destruct (Prim2SF a) as [s|s| |s m e] eqn:E; try reflexivity;
    rewrite SFcompare_refl in H by discriminate; discriminate.
Qed.

(** A [NaN] is not above anything. *)
Lemma nan_not_gtb (a b : float) : is_nan a = true -> (a >? b) = false.
Proof.
  intro H. rewrite ltb_spec, (is_nan_Prim2SF a H). unfold SFltb.
  destruct (Prim2SF b); reflexivity.
Qed.

(** [+infinity] is below nothing. *)
Lemma infinity_not_ltb (q : float) : (infinity <? q) = false.
Proof.
  rewrite ltb_spec. change (Prim2SF infinity) with (S754_infinity false).
  destruct (Prim2SF q) as [ | [] | | [] ]; reflexivity.
Qed.

End FloatFacts.
Import FloatFacts.

(** * Facts about bit masks *)

Lemma sticky_refl F st : sticky F st st.
Proof. intros i H _. exact H. Qed.

Lemma sticky_trans F a b c : sticky F a b -> sticky F b c -> sticky F a c.
Proof. intros H1 H2 i Ha Hm. apply H2; auto. Qed.

Lemma sticky_lor F st m : sticky F st (Z.lor st m).
Proof. intros i H _. rewrite Z.lor_spec, H. reflexivity. Qed.

Lemma step_flags_spec F i :
  Z.testbit (step_flags F) i = false ->
  Z.testbit (STEP_ACCEPTED F) i = false /\ Z.testbit (STEP_MODIFIED F) i = false
  /\ Z.testbit (STEP_INVALID F) i = false.
Proof.
  unfold step_flags. rewrite !Z.lor_spec.
  destruct (Z.testbit (STEP_ACCEPTED F) i), (Z.testbit (STEP_MODIFIED F) i),
    (Z.testbit (STEP_INVALID F) i); simpl; intuition discriminate.
Qed.

Lemma sticky_clear_accepted F st : sticky F st (Z.land st (Z.lnot (STEP_ACCEPTED F))).
Proof.
  intros i H Hm. destruct (step_flags_spec F i Hm) as [Ha _].
  destruct (Z.neg_nonneg_cases i) as [Hi|Hi].
  - rewrite Z.testbit_neg_r in H by assumption. discriminate.
  - rewrite Z.land_spec, Z.lnot_spec, H, Ha by assumption. reflexivity.
Qed.

Lemma sticky_clear_proposal F st :
  sticky F st (Z.land st (Z.lnot (Z.lor (STEP_MODIFIED F) (STEP_INVALID F)))).
Proof.
  intros i H Hm. destruct (step_flags_spec F i Hm) as [_ [Hb Hc]].
  destruct (Z.neg_nonneg_cases i) as [Hi|Hi].
  - rewrite Z.testbit_neg_r in H by assumption. discriminate.
  - rewrite Z.land_spec, Z.lnot_spec, Z.lor_spec, H, Hb, Hc by assumption. reflexivity.
Qed.

Create HintDb flags.
#[local] Hint Resolve sticky_refl sticky_lor sticky_clear_accepted sticky_clear_proposal
  : flags.

(** A flag that shares no bit with the [STEP_*] flags survives. *)
Lemma sticky_has_flag F st st' m :
  Z.land m (step_flags F) = 0%Z -> sticky F st st' -> has_flag st m -> has_flag st' m.
Proof.
  unfold has_flag. intros Hd Hs Hm. apply Z.bits_inj'. intros i Hi.
  rewrite Z.land_spec. destruct (Z.testbit m i) eqn:Em.
  - rewrite andb_true_r. apply Hs.
    + rewrite <- Hm, Z.land_spec in Em. apply andb_true_iff in Em. tauto.
    + apply (f_equal (fun z => Z.testbit z i)) in Hd.
      rewrite Z.land_spec, Em, Z.bits_0 in Hd. exact Hd.
  - apply andb_false_r.
Qed.

Lemma has_flag_lor_r st m : has_flag (Z.lor st m) m.
Proof.
  unfold has_flag. apply Z.bits_inj'. intros i _.
  rewrite Z.land_spec, Z.lor_spec. destruct (Z.testbit st i), (Z.testbit m i); reflexivity.
Qed.

Lemma has_flag_lor_l st m k : has_flag st m -> has_flag (Z.lor st k) m.
Proof.
  unfold has_flag. intro H. apply Z.bits_inj'. intros i _.
  apply (f_equal (fun z => Z.testbit z i)) in H. revert H.
  rewrite !Z.land_spec, Z.lor_spec.
  destruct (Z.testbit st i), (Z.testbit m i), (Z.testbit k i); simpl; congruence.
Qed.

(** After clearing [k], no bit of a part [m] of [k] is left. *)
Lemma land_clear st m k :
  Z.land m k = m -> Z.land (Z.land st (Z.lnot k)) m = 0%Z.
Proof.
  intro H. apply Z.bits_inj'. intros i Hi.
  apply (f_equal (fun z => Z.testbit z i)) in H. revert H.
  rewrite !Z.land_spec, Z.lnot_spec, Z.bits_0 by assumption.
  destruct (Z.testbit st i), (Z.testbit m i), (Z.testbit k i); simpl; congruence.
Qed.

(** * The pieces of [step], one by one *)

Section Pieces.

Variable F : StateFlags.
Variable lib : NumLib.

Lemma set_rank_same s : set_rank s (rank s) = s.
Proof. destruct s; reflexivity. Qed.

(** [solve] assigns [rank] and [h] only. *)
Lemma solve_shape s m : exists r hh, solve lib s m = set_h (set_rank s r) hh.
Proof.
  unfold solve. destruct (useCholesky (ctrl s)).
  - exists (rank s). eexists. rewrite set_rank_same. reflexivity.
  - cbv zeta. destruct (eigh_compute lib m) as [ev V]. eexists. eexists. reflexivity.
Qed.

Lemma solved_shape s : exists r hh, solved lib s = set_h (set_rank s r) hh.
Proof. unfold solved. destruct (method s); apply solve_shape. Qed.

Lemma checkStep_below s stepNorm bad :
  below_floor s stepNorm -> checkStep s stepNorm bad = (false, set_bits s bad).
Proof.
  unfold below_floor, checkStep. intros [H|H].
  - rewrite (nan_not_gtb _ _ H). reflexivity.
  - rewrite (leb_not_gtb _ _ H). reflexivity.
Qed.

Lemma checkStep_cases s stepNorm bad :
  checkStep s stepNorm bad = (true, s) \/ checkStep s stepNorm bad = (false, set_bits s bad).
Proof. unfold checkStep. destruct (negb _); auto. Qed.

(** [direction] ends the step at the guard, or proposes [xNew]. *)
Lemma direction_cases s :
  direction F lib s = Return (set_bits (solved lib s) (FAILURE_MINSTEP F))
  \/ exists hh, direction F lib s
                = Next (set_xNew (set_h (solved lib s) hh) (vadd (x s) hh),
                        norm (h (solved lib s))).
Proof.
  unfold direction.
  destruct (solved_shape s) as [r [h0 E]].
  destruct (checkStep_cases (solved lib s) (norm (h (solved lib s))) (FAILURE_MINSTEP F))
    as [-> | ->]; simpl; [right|left; reflexivity].
  destruct (is_BFGS (method (solved lib s)) && _).
  - eexists. rewrite E. reflexivity.
  - exists (h (solved lib s)). rewrite E. reflexivity.
Qed.

Lemma direction_below s :
  below_floor (solved lib s) (norm (h (solved lib s))) ->
  direction F lib s = Return (set_bits (solved lib s) (FAILURE_MINSTEP F)).
Proof.
  intro H. unfold direction. rewrite (checkStep_below _ _ _ H). reflexivity.
Qed.

(** What [direction] leaves untouched: all but [rank], [h] and [xNew]. *)
Lemma direction_Next s s1 nH :
  direction F lib s = Next (s1, nH) ->
  exists r hh xx, s1 = set_xNew (set_h (set_rank s r) hh) xx.
Proof.
  destruct (direction_cases s) as [E | [hh E]]; rewrite E; intro H; [discriminate|].
  injection H as <- _. destruct (solved_shape s) as [r [h0 ->]].
  exists r, hh. eexists. reflexivity.
Qed.

Lemma evaluate_state s d : state (fst (evaluate s d)) = state s.
Proof.
  unfold evaluate. destruct (evaluable d); simpl;
    try match goal with |- context [if ?c then _ else _] => destruct c end; reflexivity.
Qed.

Lemma halve_delta_cases s b1 b2 :
  halve_delta F s b1 b2 = Next (set_delta s (delta s / 2), b1, b2)
  \/ halve_delta F s b1 b2
     = Return (set_bits (set_delta s (delta s / 2)) (FAILURE_MINTRUST F)).
Proof.
  unfold halve_delta.
  match goal with |- context [checkStep ?a ?b ?c] =>
    destruct (checkStep_cases a b c) as [-> | ->] end; simpl; auto.
Qed.

Lemma state_update_B s : state (update_B s) = state s.
Proof.
  unfold update_B. cbv zeta.
  match goal with |- context [if ?c then _ else _] => destruct c end; reflexivity.
Qed.

Lemma state_switch_method s nH : state (switch_method s nH) = state s.
Proof. unfold switch_method. destruct (method s); reflexivity. Qed.

(** ** A relation on bitmasks that every assignment to [state] outside the
    vetting respects *)

Section Preserved.

Variable R : Z -> Z -> Prop.
Hypothesis R_refl : forall st, R st st.
Hypothesis R_trans : forall a b c, R a b -> R b c -> R a c.
Hypothesis R_set : forall st k, In k (late_flags F) -> R st (Z.lor st k).
Hypothesis R_clear : forall st, R st (Z.land st (Z.lnot (STEP_ACCEPTED F))).

Ltac R_chain :=
  simpl;
  repeat match goal with
    | |- R ?a ?a => apply R_refl
    | |- R _ (Z.lor _ _) => eapply R_trans; [ | apply R_set; simpl; tauto]
    | |- R _ (Z.land _ (Z.lnot (STEP_ACCEPTED _))) => eapply R_trans; [ | apply R_clear]
    end.

Lemma direction_preserved s :
  match direction F lib s with
  | Return s' => R (state s) (state s')
  | Next (s', _) => state s' = state s
  end.
Proof.
  destruct (solved_shape s) as [r [h0 E]].
  destruct (direction_cases s) as [-> | [hh ->]]; rewrite E; [R_chain | reflexivity].
Qed.

Lemma adjust_preserved s nH nG :
  match adjust F lib s nH nG with
  | Return s' => R (state s) (state s')
  | Next (s', _, _) => state s' = state s
  end.
Proof.
  unfold adjust. destruct (method s).
  - destruct (QNew s <? Q s); [|reflexivity].
    cbv zeta. match goal with |- context [if ?c then _ else _] => destruct c end;
    match goal with |- context [if ?c then _ else _] => destruct c end; reflexivity.
  - destruct (QNew s <? Q s).
    + destruct (rho_BFGS s >? 0.75); [reflexivity|].
      destruct (rho_BFGS s <? 0.25); [|reflexivity].
      cbv zeta. match goal with |- context [halve_delta F s ?a ?b] =>
        destruct (halve_delta_cases s a b) as [-> | ->] end; [reflexivity | R_chain].
    + cbv zeta. match goal with |- context [halve_delta F s ?a ?b] =>
        destruct (halve_delta_cases s a b) as [-> | ->] end; [reflexivity | R_chain].
Qed.

Lemma commit_preserved s nG : R (state s) (state (commit F s nG)).
Proof.
  unfold commit. cbv zeta.
  repeat match goal with |- context [if ?c then _ else _] => destruct c end; R_chain.
Qed.

Lemma finish_preserved s nH d nG b1 b2 :
  R (state s) (state (finish F s nH d nG b1 b2)).
Proof.
  unfold finish. destruct (evaluable d); simpl; [|apply R_refl].
  assert (H : R (state s)
                (state (if b2
                        then switch_method (if b1 then commit F (update_B s) nG
                                            else update_B s) nH
                        else (if b1 then commit F (update_B s) nG else update_B s)))).
  { destruct b2; rewrite ?state_switch_method; destruct b1;
      try (eapply R_trans; [|apply commit_preserved]); rewrite state_update_B;
      apply R_refl. }
  destruct b1; R_chain; exact H.
Qed.

Lemma conclude_preserved s nH d :
  R (state s) (state (leave (conclude F lib s nH d))).
Proof.
  unfold conclude.
  pose proof (evaluate_state s d) as H3.
  destruct (evaluate s d) as [s3 nG]; simpl in H3.
  pose proof (adjust_preserved s3 nH nG) as H4. rewrite <- H3.
  destruct (adjust F lib s3 nH nG) as [r | [[s4 b1] b2]]; simpl; [exact H4|].
  rewrite <- H4. apply finish_preserved.
Qed.

(** With the vetting respecting [R] too, so does [step]. *)
Hypothesis R_vet : forall s nH,
  match vet F s nH with
  | Return s' => R (state s) (state s')
  | Next (s', _, _) => R (state s) (state s')
  end.

Lemma step_preserved s : R (state s) (state (step F lib s)).
Proof.
  unfold step, step_flow.
  pose proof (direction_preserved s) as H1.
  destruct (direction F lib s) as [r | [s1 nH]]; simpl; [exact H1|]. rewrite <- H1.
  pose proof (R_vet s1 nH) as H2.
  destruct (vet F s1 nH) as [r | [[s2 nH2] d]]; simpl; [exact H2|].
  eapply R_trans; [exact H2 | apply conclude_preserved].
Qed.

End Preserved.

(** ** Stickiness *)

Ltac sticky_chain :=
  simpl;
  repeat match goal with
    | |- sticky _ ?a ?a => apply sticky_refl
    | |- sticky _ _ (Z.lor _ _) => eapply sticky_trans; [ | apply sticky_lor]
    | |- sticky _ _ (Z.land _ (Z.lnot (STEP_ACCEPTED _))) =>
        eapply sticky_trans; [ | apply sticky_clear_accepted]
    | |- sticky _ _ (Z.land _ (Z.lnot (Z.lor _ _))) =>
        eapply sticky_trans; [ | apply sticky_clear_proposal]
    end.

Lemma vet_sticky s nH :
  match vet F s nH with
  | Return s' => sticky F (state s) (state s')
  | Next (s', _, _) => sticky F (state s) (state s')
  end.
Proof.
  unfold vet, call_tryStep. destruct (tryStep (obj s) (x s) (xNew s)) as [d xn].
  destruct d; try sticky_chain.
  match goal with |- context [checkStep ?a ?b ?c] =>
    destruct (checkStep_cases a b c) as [-> | ->] end; sticky_chain.
Qed.

(** [step] clears no bit outside the [STEP_*] flags. *)
Lemma step_sticky s : sticky F (state s) (state (step F lib s)).
Proof.
  apply (step_preserved (sticky F)); intros; auto with flags.
  - eapply sticky_trans; eassumption.
  - apply vet_sticky.
Qed.

Lemma run_loop_sticky todo s :
  sticky F (state s) (state (fst (run_loop F lib todo s)))
  /\ snd (run_loop F lib todo s) = state (fst (run_loop F lib todo s)).
Proof.
  revert s. induction todo as [|todo IH]; intro s; simpl.
  - split; [sticky_chain | reflexivity].
  - destruct (any_bit (state (step F lib s)) (FINISHED F)); simpl.
    + split; [apply step_sticky | reflexivity].
    + destruct (IH (step F lib s)) as [H1 H2]. split; [|exact H2].
      eapply sticky_trans; [apply step_sticky | exact H1].
Qed.

Lemma exec_sticky cs s : sticky F (state s) (state (exec F lib cs s)).
Proof.
  revert s. induction cs as [|c cs IH]; intro s; simpl; [apply sticky_refl|].
  eapply sticky_trans; [|apply IH].
  destruct c; simpl; [apply step_sticky | apply run_loop_sticky].
Qed.

End Pieces.

(** * Terminal flags are sticky (C3) *)

Lemma apart_terminal F T :
  flags_wf F -> In T (terminal_flags F) -> Z.land T (step_flags F) = 0%Z.
Proof.
  unfold flags_wf, terminal_flags, step_flags. simpl. intros H HT.
  rewrite !Z.land_lor_distr_r.
  repeat match goal with H : _ /\ _ |- _ => destruct H end.
  repeat match goal with H : _ \/ _ |- _ => destruct H end;
    try contradiction; subst T;
    rewrite !(Z.land_comm _ (STEP_ACCEPTED F)), !(Z.land_comm _ (STEP_MODIFIED F)),
      !(Z.land_comm _ (STEP_INVALID F));
    repeat match goal with H : Z.land _ _ = 0%Z |- _ => rewrite H; clear H end;
    reflexivity.
Qed.

Lemma table_flags_wf : flags_wf table_flags.
Proof. unfold flags_wf. simpl. repeat split; discriminate. Qed.

(** C3.  Whatever sequence of [step()] and [run()] calls is made from a state
    [s]: a terminal flag ([SUCCESS_FTOL], [SUCCESS_GTOL], [FAILURE_MINSTEP],
    [FAILURE_MINTRUST], [FAILURE_MAXITER]) that is set in [s] is still set
    afterwards, and a bit that was set and no longer is belongs to
    [STEP_ACCEPTED], [STEP_MODIFIED] or [STEP_INVALID]. *)
Theorem sticky_terminals (F : StateFlags) (lib : NumLib) (cs : list DriverCall) (s : Impl) :
  flags_wf F ->
  (forall T, In T (terminal_flags F) ->
     has_flag (state s) T -> has_flag (state (exec F lib cs s)) T)
  /\ (forall i, Z.testbit (state s) i = true ->
        Z.testbit (state (exec F lib cs s)) i = false ->
        Z.testbit (STEP_ACCEPTED F) i = true \/ Z.testbit (STEP_MODIFIED F) i = true
        \/ Z.testbit (STEP_INVALID F) i = true).
Proof.
  intro Hwf. pose proof (exec_sticky F lib cs s) as Hs. split.
  - intros T HT Hset. eapply sticky_has_flag; eauto using apart_terminal.
  - intros i Hi Hclr.
    destruct (Z.testbit (step_flags F) i) eqn:E.
    + unfold step_flags in E. rewrite !Z.lor_spec in E.
      destruct (Z.testbit (STEP_ACCEPTED F) i), (Z.testbit (STEP_MODIFIED F) i),
        (Z.testbit (STEP_INVALID F) i); simpl in E; auto; discriminate.
    + rewrite (Hs i Hi E) in Hclr. discriminate.
Qed.

Lemma sticky_terminals_witness :
  let s := fst (run table_flags small_lib (new_Impl sigmoid [2] (control 0x1p-10 true))) in
  has_flag (state s) (SUCCESS_GTOL table_flags)
  /\ has_flag (state (exec table_flags small_lib [DoStep; DoRun] s))
       (SUCCESS_GTOL table_flags).
Proof.
  split; [vm_compute; reflexivity|].
  apply (proj1 (sticky_terminals table_flags small_lib [DoStep; DoRun] _ table_flags_wf)).
  - simpl. auto.
  - vm_compute. reflexivity.
Defined.

(** * The guards are NaN-safe (C9) *)

Section Guards.

Variable F : StateFlags.
Variable lib : NumLib.

Lemma step_direction_Return s r : direction F lib s = Return r -> step F lib s = r.
Proof. unfold step, step_flow. intros ->. reflexivity. Qed.

Lemma trial_Some s s3 nH d nG :
  trial F lib s = Some (s3, nH, d, nG) ->
  step F lib s
  = leave ('(s4, isBetter, shouldSwitchMethod) <- adjust F lib s3 nH nG ;;
           Next (finish F s4 nH d nG isBetter shouldSwitchMethod)).
Proof.
  unfold trial, step, step_flow.
  destruct (direction F lib s) as [r | [s1 n1]]; [discriminate|]. simpl.
  destruct (vet F s1 n1) as [r | [[s2 n2] d2]]; [discriminate|]. simpl.
  unfold conclude.
  destruct (evaluate s2 d2) as [s3' nG']. intro H. injection H as -> -> -> ->.
  reflexivity.
Qed.

Lemma halve_delta_below s b1 b2 :
  below_floor (set_delta s (delta s / 2)) (delta s / 2) ->
  halve_delta F s b1 b2
  = Return (set_bits (set_delta s (delta s / 2)) (FAILURE_MINTRUST F)).
Proof.
  intro H. unfold halve_delta. cbv zeta.
  change (delta (set_delta s (delta s / 2))) with (delta s / 2).
  rewrite (checkStep_below _ _ _ H). reflexivity.
Qed.

Lemma adjust_halves s nH nG :
  halves_delta s = true ->
  exists b1 b2, adjust F lib s nH nG = halve_delta F s b1 b2.
Proof.
  unfold halves_delta, adjust. destruct (method s); [discriminate|]. simpl.
  destruct (QNew s <? Q s).
  - intro H. apply andb_true_iff in H. destruct H as [H1 H2].
    apply negb_true_iff in H1. cbv zeta. rewrite H1, H2. eauto.
  - intros _. eauto.
Qed.

End Guards.

(** C9.  [checkStep] fails whenever the tested quantity is [NaN] or at most
    [minStep * (|x| + minStep)]: it sets the failure bit it is given.  At each
    of its three uses in [step] (the norm of the step, the norm of a MODIFIED
    step, the halved [delta] of the BFGS branch) the call then returns at
    once, in the state of the test with [FAILURE_MINSTEP], respectively
    [FAILURE_MINTRUST], set. *)
Theorem guards_are_NaN_safe (F : StateFlags) (lib : NumLib) :
  (forall s stepNorm bad,
     below_floor s stepNorm ->
     checkStep s stepNorm bad = (false, set_bits s bad)
     /\ has_flag (state (set_bits s bad)) bad)
  /\ (forall s,
        below_floor (solved lib s) (norm (h (solved lib s))) ->
        step F lib s = set_bits (solved lib s) (FAILURE_MINSTEP F))
  /\ (forall s s1 nH s2,
        direction F lib s = Next (s1, nH) ->
        call_tryStep s1 = (MODIFIED, s2) ->
        let s3 := set_h (set_bits s2 (STEP_MODIFIED F)) (vsub (xNew s2) (x s2)) in
        below_floor s3 (norm (h s3)) ->
        step F lib s = set_bits s3 (FAILURE_MINSTEP F))
  /\ (forall s s3 nH d nG,
        trial F lib s = Some (s3, nH, d, nG) ->
        halves_delta s3 = true ->
        let s4 := set_delta s3 (delta s3 / 2) in
        below_floor s4 (delta s4) ->
        step F lib s = set_bits s4 (FAILURE_MINTRUST F)).
Proof.
  repeat split.
  - apply checkStep_below; assumption.
  - apply has_flag_lor_r.
  - intros s H. apply step_direction_Return, direction_below, H.
  - intros s s1 nH s2 Hd Ht s3 Hb. unfold step, step_flow. rewrite Hd. simpl.
    unfold vet. rewrite Ht. cbv zeta. fold s3.
    rewrite (checkStep_below _ _ _ Hb). reflexivity.
  - intros s s3 nH d nG Ht Hh s4 Hb. rewrite (trial_Some F lib _ _ _ _ _ Ht).
    destruct (adjust_halves F lib s3 nH nG Hh) as [b1 [b2 ->]].
    rewrite (halve_delta_below F s3 b1 b2 Hb). reflexivity.
Qed.

Lemma guards_are_NaN_safe_witness :
  let s := new_Impl halfline [nan] (control 1 true) in
  is_nan (norm (h (solved small_lib s))) = true
  /\ step table_flags small_lib s
     = set_bits (solved small_lib s) (FAILURE_MINSTEP table_flags).
Proof.
  split; [reflexivity|].
  apply (proj1 (proj2 (guards_are_NaN_safe table_flags small_lib))).
  left. reflexivity.
Defined.

(** * What a step leaves untouched up to its acceptance test *)

Section Trial.
Variable F : StateFlags.
Variable lib : NumLib.

Lemma untouched_refl s : untouched s s.
Proof. repeat split. Qed.

Lemma untouched_trans a b c : untouched a b -> untouched b c -> untouched a c.
Proof.
  unfold untouched. intros H1 H2.
  repeat match goal with H : _ /\ _ |- _ => destruct H end.
  repeat split; congruence.
Qed.

Lemma direction_untouched s s1 nH : direction F lib s = Next (s1, nH) -> untouched s s1.
Proof.
  intro H. destruct (direction_Next F lib s s1 nH H) as [r [hh [xx ->]]].
  repeat split.
Qed.

Lemma vet_untouched s nH s2 nH2 d : vet F s nH = Next (s2, nH2, d) -> untouched s s2.
Proof.
  unfold vet, call_tryStep. destruct (tryStep (obj s) (x s) (xNew s)) as [d0 xn].
  destruct d0.
  - intro H. injection H as <- _ _. repeat split.
  - intro H. injection H as <- _ _. repeat split.
  - match goal with |- context [checkStep ?a ?b ?c] =>
      destruct (checkStep_cases a b c) as [-> | ->] end; simpl; intro H; [|discriminate].
    injection H as <- _ _. repeat split.
Qed.

Lemma evaluate_untouched s d : untouched s (fst (evaluate s d)).
Proof.
  unfold evaluate. destruct (evaluable d); simpl;
    try match goal with |- context [if ?c then _ else _] => destruct c end; repeat split.
Qed.

Lemma trial_untouched s s3 nH d nG :
  trial F lib s = Some (s3, nH, d, nG) -> untouched s s3.
Proof.
  unfold trial.
  destruct (direction F lib s) as [r | [s1 n1]] eqn:E1; [discriminate|].
  destruct (vet F s1 n1) as [r | [[s2 n2] d2]] eqn:E2; [discriminate|].
  pose proof (evaluate_untouched s2 d2) as H3.
  destruct (evaluate s2 d2) as [s3' nG']. intro H. injection H as <- _ _ _.
  eauto using untouched_trans, direction_untouched, vet_untouched.
Qed.

(** The calls made up to the acceptance test, when the proposal is INVALID. *)
Lemma update_B_shape s :
  exists vv BB, update_B s = set_B (set_v (set_y s (y_update s)) vv) BB.
Proof.
  unfold update_B. cbv zeta.
  match goal with |- context [if ?c then _ else _] => destruct c end.
  - do 2 eexists. reflexivity.
  - exists (v s), (B s). destruct s; reflexivity.
Qed.

End Trial.

(** * An INVALID first proposal (C4) *)

Section Invalid.
Variable F : StateFlags.
Variable lib : NumLib.

(** The step whose proposal is refused, written out: the state of the
    proposal [s1], then what [step] assigns. *)
Lemma step_INVALID_LM s :
  proposal_result F lib s = Some INVALID ->
  method s = LM ->
  exists s1 rr hh xx xn,
    s1 = set_xNew (set_h (set_rank s rr) hh) xx
    /\ step F lib s
       = set_nu (set_mu (set_A (set_QNew (set_bits (set_calls (set_xNew s1 xn)
                                                       (calls s1 ++ [CallTryStep]))
                                             (STEP_INVALID F)) infinity)
                         (addDiagonal (A s1) (mu s1 * (nu s1 - 1))))
                  (mu s1 * nu s1)) (nu s1 * 2).
Proof.
  unfold proposal_result. intros Hp Hm.
  destruct (direction F lib s) as [r | [s1 nH]] eqn:Ed; [discriminate|].
  destruct (direction_Next F lib s s1 nH Ed) as [rr [hh [xx E1]]].
  exists s1, rr, hh, xx.
  assert (Hm1 : method s1 = LM) by (rewrite E1; exact Hm).
  unfold step, step_flow. rewrite Ed. cbn [bind].
  unfold vet, call_tryStep.
  destruct (tryStep (obj s1) (x s1) (xNew s1)) as [d xn]. simpl in Hp.
  injection Hp as ->. exists xn. split; [exact E1|].
  cbn [bind]. unfold conclude, evaluate. cbn [evaluable andb].
  unfold adjust.
  cbn [method QNew set_QNew set_bits set_state set_calls set_xNew].
  rewrite Hm1, infinity_not_ltb. reflexivity.
Qed.

End Invalid.

(** A disequality of two binary64 numbers is read off their IEEE form. *)
Ltac float_neq :=
  let H := fresh in
  intro H; apply (f_equal Prim2SF) in H; vm_compute in H; discriminate H.

Ltac vector_neq :=
  let H := fresh in
  intro H; apply (f_equal (map Prim2SF)) in H; vm_compute in H; discriminate H.

Ltac matrix_neq :=
  let H := fresh in
  intro H; apply (f_equal (map (map Prim2SF))) in H; vm_compute in H; discriminate H.

Lemma new_Impl_fresh objective parameters ctl :
  let s0 := new_Impl objective parameters ctl in
  method s0 = LM /\ state s0 = 0%Z /\ nu s0 = 2 /\ delta s0 = delta0 ctl.
Proof. vm_compute. repeat split. Qed.

(** C4, as the code has it.  When [tryStep] answers INVALID to the first
    proposal of a freshly constructed optimizer (whose method is LM), the
    step sets [STEP_INVALID], calls the objective for [tryStep] only (neither
    [computeFunction] nor [computeDerivative]), and leaves the trust radius
    [delta] at [delta0]: what shrinks the trust region of the LM branch is the
    damping, [mu] is multiplied by [nu = 2], [nu] becomes [4] and the diagonal
    of [A] receives [mu * (nu - 1)].  The iterate and [Q] are unchanged and
    [QNew] is [+infinity]. *)
Theorem invalid_first_proposal (F : StateFlags) (lib : NumLib)
    (objective : Objective) (parameters : Vector) (ctl : HybridOptimizerControl) :
  let s0 := new_Impl objective parameters ctl in
  proposal_result F lib s0 = Some INVALID ->
  let s' := step F lib s0 in
  has_flag (state s') (STEP_INVALID F)
  /\ calls s' = calls s0 ++ [CallTryStep]
  /\ delta s' = delta0 ctl
  /\ method s' = LM
  /\ mu s' = mu s0 * 2 /\ nu s' = 4
  /\ A s' = addDiagonal (A s0) (mu s0 * (2 - 1))
  /\ x s' = x s0 /\ Q s' = Q s0 /\ QNew s' = infinity.
Proof.
  pose proof (new_Impl_fresh objective parameters ctl) as H0.
  generalize dependent (new_Impl objective parameters ctl).
  intros s [Hm [Hs [Hn Hd]]] s0 Hp s'. subst s0.
  destruct (step_INVALID_LM F lib s Hp Hm) as [s1 [rr [hh [xx [xn [E1 E]]]]]].
  unfold s'. rewrite E, E1.
  cbn [state calls delta method mu nu A x Q QNew
       set_nu set_mu set_A set_QNew set_bits set_state set_calls set_xNew set_h set_rank].
  rewrite Hn, Hm, Hd.
  split; [apply has_flag_lor_r|].
  repeat (split; [reflexivity|]). reflexivity.
Qed.

Lemma invalid_first_proposal_witness :
  let s0 := new_Impl halfline [0.25] (control 1 true) in
  proposal_result table_flags small_lib s0 = Some INVALID
  /\ delta (step table_flags small_lib s0) = 1
  /\ nu (step table_flags small_lib s0) = 4.
Proof.
  split; [vm_compute; reflexivity|].
  pose proof (invalid_first_proposal table_flags small_lib halfline [0.25]
                (control 1 true) eq_refl) as H.
  split; [exact (proj1 (proj2 (proj2 H))) | exact (proj1 (proj2 (proj2 (proj2 (proj2 (proj2 H))))))].
Defined.

(** C4, as stated, fails: on the half line started at [x = 1/4] the first
    proposal [x = 1/8] is refused; the optimizer is fresh, its method is LM,
    and after the step [delta] is still [delta0 = 1], not [1/2]. *)
Lemma delta_is_not_halved_by_LM :
  let s0 := new_Impl halfline [0.25] (control 1 true) in
  let s' := step table_flags small_lib s0 in
  proposal_result table_flags small_lib s0 = Some INVALID
  /\ method s0 = LM
  /\ has_flag (state s') (STEP_INVALID table_flags)
  /\ delta s' = delta s0
  /\ delta s' <> delta s0 / 2.
Proof.
  vm_compute. repeat split. float_neq.
Qed.

(** * Rejected LM steps and the switch to BFGS (C5) *)

Section Rejected.
Variable F : StateFlags.
Variable lib : NumLib.

Lemma adjust_LM_rejected s nH nG :
  method s = LM -> (QNew s <? Q s) = false ->
  adjust F lib s nH nG
  = Next (set_nu (set_mu (set_A s (addDiagonal (A s) (mu s * (nu s - 1)))) (mu s * nu s))
                 (nu s * 2),
          false, (nu s * 2 >=? 32)).
Proof. intros Hm Hq. unfold adjust. rewrite Hm, Hq. reflexivity. Qed.

(** An LM step that is rejected, from the state [s3] of its acceptance
    test. *)
Lemma step_LM_rejected s s3 nH d nG :
  trial F lib s = Some (s3, nH, d, nG) ->
  method s = LM -> (QNew s3 <? Q s3) = false ->
  let s' := step F lib s in
  mu s' = mu s * nu s
  /\ nu s' = nu s * 2
  /\ A s' = addDiagonal (A s) (mu s * (nu s - 1))
  /\ x s' = x s /\ f s' = f s /\ Q s' = Q s
  /\ (evaluable d = true -> (nu s * 2 >=? 32) = true ->
        method s' = BFGS
        /\ delta s' = std_max (1.5 * minStep (ctrl s) * (squaredNorm (f s) + minStep (ctrl s)))
                              (0.2 * nH))
  /\ (evaluable d = true -> (nu s * 2 >=? 32) = false ->
        method s' = LM /\ delta s' = delta s).
Proof.
  intros Ht Hm Hq s'. unfold s'. rewrite (trial_Some F lib _ _ _ _ _ Ht).
  pose proof (trial_untouched F lib _ _ _ _ _ Ht) as U. unfold untouched in U.
  repeat match goal with H : _ /\ _ |- _ => destruct H end.
  assert (Hm3 : method s3 = LM) by congruence.
  rewrite (adjust_LM_rejected s3 nH nG Hm3 Hq). simpl.
  unfold finish. destruct (evaluable d); simpl.
  - destruct (update_B_shape
                (set_nu (set_mu (set_A s3 (addDiagonal (A s3) (mu s3 * (nu s3 - 1))))
                                (mu s3 * nu s3)) (nu s3 * 2)))
      as [vv [BB ->]].
    destruct (nu s3 * 2 >=? 32) eqn:E; unfold switch_method; simpl; rewrite ?Hm3; simpl;
      repeat split; try congruence; intros; congruence.
  - repeat split; try congruence; intros; discriminate.
Qed.

Lemma rejected_LM_trial s :
  rejected_LM F lib s = true ->
  exists s3 nH d nG,
    trial F lib s = Some (s3, nH, d, nG) /\ evaluable d = true
    /\ method s = LM /\ (QNew s3 <? Q s3) = false.
Proof.
  unfold rejected_LM. destruct (trial F lib s) as [[[[s3 nH] d] nG]|] eqn:Et; [|discriminate].
  intro H. apply andb_true_iff in H. destruct H as [H H3].
  apply andb_true_iff in H. destruct H as [H1 H2].
  exists s3, nH, d, nG. repeat split; auto.
  - pose proof (trial_untouched F lib _ _ _ _ _ Et) as U. unfold untouched in U.
    repeat match goal with H : _ /\ _ |- _ => destruct H end.
    destruct (method s3) eqn:E; [congruence | discriminate].
  - apply negb_true_iff. exact H3.
Qed.

(** One evaluated and rejected LM step doubles [nu]; the method stays LM
    as long as the doubled [nu] is below 32. *)
Lemma rejected_LM_step s :
  rejected_LM F lib s = true ->
  nu (step F lib s) = nu s * 2
  /\ mu (step F lib s) = mu s * nu s
  /\ method (step F lib s) = (if nu s * 2 >=? 32 then BFGS else LM).
Proof.
  intro H. destruct (rejected_LM_trial s H) as [s3 [nH [d [nG [Ht [Hd [Hm Hq]]]]]]].
  destruct (step_LM_rejected s s3 nH d nG Ht Hm Hq) as [H1 [H2 [_ [_ [_ [_ [H3 H4]]]]]]].
  repeat split; auto.
  destruct (nu s * 2 >=? 32); [apply H3 | apply H4]; auto.
Qed.

End Rejected.

(** C5, as the code has it.  An LM step whose candidate is evaluated
    ([tryStep] did not answer INVALID) and rejected ([QNew < Q] does not hold)
    multiplies [mu] by [nu] and then doubles [nu]; when the doubled [nu] is at
    least 32 the method is BFGS when [step] returns, with [delta = max(1.5 *
    minStep * (|f|^2 + minStep), 0.2 * normH)], and otherwise the method stays
    LM.  Starting from [nu = 2], this happens at the fourth of four
    consecutive such steps. *)
Theorem switch_after_rejected_LM_steps (F : StateFlags) (lib : NumLib) :
  (forall s s3 normH doStep normInfGNew,
     trial F lib s = Some (s3, normH, doStep, normInfGNew) ->
     method s = LM -> evaluable doStep = true -> (QNew s3 <? Q s3) = false ->
     let s' := step F lib s in
     mu s' = mu s * nu s
     /\ nu s' = nu s * 2
     /\ ((nu s * 2 >=? 32) = true ->
           method s' = BFGS
           /\ delta s' = std_max (1.5 * minStep (ctrl s)
                                    * (squaredNorm (f s) + minStep (ctrl s)))
                                 (0.2 * normH))
     /\ ((nu s * 2 >=? 32) = false -> method s' = LM /\ delta s' = delta s))
  /\ (forall s,
        nu s = 2 ->
        rejected_LM F lib s = true ->
        rejected_LM F lib (steps F lib 1 s) = true ->
        rejected_LM F lib (steps F lib 2 s) = true ->
        rejected_LM F lib (steps F lib 3 s) = true ->
        method (steps F lib 3 s) = LM
        /\ method (steps F lib 4 s) = BFGS
        /\ nu (steps F lib 4 s) = 32).
Proof.
  split.
  - intros s s3 nH d nG Ht Hm Hd Hq s'.
    destruct (step_LM_rejected F lib s s3 nH d nG Ht Hm Hq)
      as [H1 [H2 [_ [_ [_ [_ [H3 H4]]]]]]].
    split; [exact H1|]. split; [exact H2|].
    split; intro E; [apply (H3 Hd E) | apply (H4 Hd E)].
  - intros s Hn R0 R1 R2 R3. cbn [steps] in *.
    destruct (rejected_LM_step F lib _ R0) as [N0 [_ M0]].
    destruct (rejected_LM_step F lib _ R1) as [N1 [_ M1]].
    destruct (rejected_LM_step F lib _ R2) as [N2 [_ M2]].
    destruct (rejected_LM_step F lib _ R3) as [N3 [_ M3]].
    rewrite Hn in N0, M0. rewrite N0 in N1, M1. rewrite N1 in N2, M2.
    rewrite N2 in N3, M3. repeat split; assumption.
Qed.

Lemma switch_after_rejected_LM_steps_witness :
  let s := new_Impl sigmoid [2] (control 0x1p-10 true) in
  rejected_LM table_flags small_lib s = true
  /\ method (steps table_flags small_lib 4 s) = BFGS.
Proof.
  split; [vm_compute; reflexivity|].
  apply (proj2 (switch_after_rejected_LM_steps table_flags small_lib)
           (new_Impl sigmoid [2] (control 0x1p-10 true)));
    vm_compute; reflexivity.
Defined.

(** C5, as stated, fails twice.  On the sigmoid started at [x = 2] the LM
    steps overshoot: the first four candidates are evaluated and rejected,
    and the method is BFGS after the fourth, so no fifth rejected LM step
    takes place.  On the half line started at [x = 1/4] every proposal is
    refused: the fourth step is an LM step whose candidate is rejected with
    [QNew = +infinity >= Q], it doubles [nu] to 32, and it returns with the
    method still LM. *)
Lemma switch_is_not_after_five_steps :
  (let s := new_Impl sigmoid [2] (control 0x1p-10 true) in
   nu s = 2
   /\ rejected_LM table_flags small_lib s = true
   /\ rejected_LM table_flags small_lib (steps table_flags small_lib 1 s) = true
   /\ rejected_LM table_flags small_lib (steps table_flags small_lib 2 s) = true
   /\ rejected_LM table_flags small_lib (steps table_flags small_lib 3 s) = true
   /\ method (steps table_flags small_lib 3 s) = LM
   /\ method (steps table_flags small_lib 4 s) = BFGS)
  /\ (let s := steps table_flags small_lib 3 (new_Impl halfline [0.25] (control 1 true)) in
      let s' := step table_flags small_lib s in
      method s = LM
      /\ proposal_result table_flags small_lib s = Some INVALID
      /\ (QNew s' >=? Q s) = true
      /\ nu s' = nu s * 2
      /\ (nu s' >=? 32) = true
      /\ method s' = LM).
Proof. vm_compute. repeat split. Qed.

(** * Steps that run to their last statement (C1, C2) *)

Section Completed.
Variable F : StateFlags.
Variable lib : NumLib.

(** The acceptance test, and what [adjust] leaves of [Q] and [QNew]. *)
Lemma adjust_Next s nH nG s' b1 b2 :
  adjust F lib s nH nG = Next (s', b1, b2) ->
  Q s' = Q s /\ QNew s' = QNew s
  /\ b1 = match method s with
          | LM => QNew s <? Q s
          | BFGS => isBetter_BFGS s nG
          end.
Proof.
  unfold adjust. destruct (method s).
  - destruct (QNew s <? Q s); cbv zeta.
    + repeat match goal with |- context [if ?c then _ else _] => destruct c end;
        intro H; injection H as <- <- _; repeat split.
    + intro H. injection H as <- <- _. repeat split.
  - assert (K : forall c1 c2, halve_delta F s c1 c2 = Next (s', b1, b2) ->
                              Q s' = Q s /\ QNew s' = QNew s /\ b1 = c1).
    { intros c1 c2. destruct (halve_delta_cases F s c1 c2) as [-> | ->]; intro H;
        [|discriminate]. injection H as <- <- _. repeat split. }
    destruct (QNew s <? Q s) eqn:E; cbv zeta; [|apply K].
    destruct (rho_BFGS s >? 0.75).
    { intro H. injection H as <- <- _. repeat split. }
    destruct (rho_BFGS s <? 0.25); [apply K|].
    intro H. injection H as <- <- _. repeat split.
Qed.

Lemma Q_update_B s : Q (update_B s) = Q s /\ QNew (update_B s) = QNew s.
Proof. destruct (update_B_shape s) as [vv [BB ->]]. split; reflexivity. Qed.

Lemma Q_commit s nG : Q (commit F s nG) = QNew s.
Proof.
  unfold commit. cbv zeta.
  repeat match goal with |- context [if ?c then _ else _] => destruct c end; reflexivity.
Qed.

Lemma Q_switch_method s nH : Q (switch_method s nH) = Q s.
Proof. unfold switch_method. destruct (method s); reflexivity. Qed.

Lemma finish_evaluated s nH d nG b1 b2 :
  evaluable d = true ->
  finish F s nH d nG b1 b2
  = (let s1 := update_B s in
     let s2 := if b1 then commit F s1 nG else s1 in
     let s3 := if b2 then switch_method s2 nH else s2 in
     if b1 then set_bits s3 (STEP_ACCEPTED F) else clear_bits s3 (STEP_ACCEPTED F)).
Proof. intro Hd. unfold finish. rewrite Hd. reflexivity. Qed.

Lemma Q_set_bits s m : Q (set_bits s m) = Q s.
Proof. reflexivity. Qed.

Lemma Q_clear_bits s m : Q (clear_bits s m) = Q s.
Proof. reflexivity. Qed.

Lemma Q_finish s nH d nG b1 b2 :
  evaluable d = true ->
  Q (finish F s nH d nG b1 b2) = (if b1 then QNew s else Q s).
Proof.
  intro Hd. rewrite (finish_evaluated s nH d nG b1 b2 Hd). cbv zeta.
  destruct (Q_update_B s) as [E1 E2].
  destruct b1, b2; rewrite ?Q_set_bits, ?Q_clear_bits, ?Q_switch_method, ?Q_commit;
    assumption.
Qed.

Lemma flag_finish s nH d nG b1 b2 :
  evaluable d = true -> STEP_ACCEPTED F <> 0%Z ->
  has_flag (state (finish F s nH d nG b1 b2)) (STEP_ACCEPTED F) <-> b1 = true.
Proof.
  intros Hd Hne. rewrite (finish_evaluated s nH d nG b1 b2 Hd). cbv zeta.
  destruct b1.
  - split; [reflexivity|]. intros _. unfold set_bits.
    match goal with |- has_flag (state (set_state _ ?z)) _ => change (has_flag z (STEP_ACCEPTED F)) end.
    apply has_flag_lor_r.
  - split; [|discriminate]. unfold clear_bits.
    match goal with |- has_flag (state (set_state _ ?z)) _ -> _ =>
      change (has_flag z (STEP_ACCEPTED F) -> false = true) end.
    unfold has_flag. rewrite land_clear by apply Z.land_diag. intro H. congruence.
Qed.

(** A step that runs to its last statement sets [STEP_ACCEPTED] exactly when
    its acceptance test holds, and then [Q] has decreased: strictly in the LM
    branch, up to the tolerance of the test in the BFGS branch. *)
Lemma completed_step_acceptance s :
  STEP_ACCEPTED F <> 0%Z ->
  completes F lib s = true ->
  (has_flag (state (step F lib s)) (STEP_ACCEPTED F) <-> isBetter_at_return F lib s = true)
  /\ (isBetter_at_return F lib s = true ->
      match method s with
      | LM => (Q (step F lib s) <? Q s) = true
      | BFGS => (Q (step F lib s) <? Q s) = true
                \/ (Q (step F lib s) <=? (1 + sqrtEps) * Q s) = true
      end).
Proof.
  intros Hne. unfold completes, isBetter_at_return.
  destruct (trial F lib s) as [[[[s3 nH] d] nG]|] eqn:Et; [|discriminate].
  pose proof (trial_untouched F lib _ _ _ _ _ Et) as U. unfold untouched in U.
  assert (EQ : Q s3 = Q s) by tauto. assert (EM : method s3 = method s) by tauto. clear U.
  rewrite (trial_Some F lib _ _ _ _ _ Et).
  destruct (adjust F lib s3 nH nG) as [r | [[s4 b1] b2]] eqn:Ea; [discriminate|].
  intro Hd. cbn [bind leave].
  destruct (adjust_Next _ _ _ _ _ _ Ea) as [E1 [E2 E3]].
  split; [apply flag_finish; assumption|].
  intro Hb. rewrite (Q_finish s4 nH d nG b1 b2 Hd), Hb, E2, <- EQ.
  rewrite EM in E3. destruct (method s).
  - congruence.
  - rewrite Hb in E3. unfold isBetter_BFGS in E3. symmetry in E3.
    apply orb_true_iff in E3. destruct E3 as [E3|E3]; [left; exact E3|].
    apply andb_true_iff in E3. right. tauto.
Qed.

End Completed.

(** * The stale [STEP_ACCEPTED] flag (C1, C2) *)

(** C2 at a failing input.  On the half line started at [x = 1] the first
    step is accepted and sets [STEP_ACCEPTED].  The proposal of the second
    step is refused (INVALID): its acceptance test does not hold, the iterate
    does not move, and the step returns with [STEP_ACCEPTED] still set. *)
Theorem accepted_flag_survives_refused_step :
  let s1 := step table_flags small_lib (new_Impl halfline [1] (control 1 true)) in
  let s2 := step table_flags small_lib s1 in
  has_flag (state s1) (STEP_ACCEPTED table_flags)
  /\ proposal_result table_flags small_lib s1 = Some INVALID
  /\ isBetter_at_return table_flags small_lib s1 = false
  /\ x s2 = x s1
  /\ has_flag (state s2) (STEP_ACCEPTED table_flags).
Proof. vm_compute. repeat split. Qed.

(** C1 at a failing input.  In the same run the second step is taken with
    the method LM and returns with [STEP_ACCEPTED] set, but [Q] is what it was
    before the call: it has not strictly decreased. *)
Theorem accepted_flag_without_decrease :
  let s1 := step table_flags small_lib (new_Impl halfline [1] (control 1 true)) in
  let s2 := step table_flags small_lib s1 in
  method s1 = LM
  /\ has_flag (state s2) (STEP_ACCEPTED table_flags)
  /\ Q s2 = Q s1
  /\ (Q s2 <? Q s1) = false.
Proof. vm_compute. repeat split. Qed.

(** * The stale gradient of a rejected LM step (C6) *)

Section Stale.
Variable F : StateFlags.
Variable lib : NumLib.

Lemma direction_gNew s s1 nH : direction F lib s = Next (s1, nH) -> gNew s1 = gNew s.
Proof.
  intro H. destruct (direction_Next F lib s s1 nH H) as [r [hh [xx ->]]]. reflexivity.
Qed.

Lemma vet_gNew s nH s2 nH2 d : vet F s nH = Next (s2, nH2, d) -> gNew s2 = gNew s.
Proof.
  unfold vet, call_tryStep. destruct (tryStep (obj s) (x s) (xNew s)) as [d0 xn].
  destruct d0.
  - intro H. injection H as <- _ _. reflexivity.
  - intro H. injection H as <- _ _. reflexivity.
  - match goal with |- context [checkStep ?a ?b ?c] =>
      destruct (checkStep_cases a b c) as [-> | ->] end; cbn [negb]; intro H; [|discriminate].
    injection H as <- _ _. reflexivity.
Qed.

(** The trial gradient is computed only when the method is BFGS or the
    candidate is better. *)
Lemma evaluate_gNew s d s3 nG :
  evaluate s d = (s3, nG) ->
  method s = LM -> (QNew s3 <? Q s3) = false -> gNew s3 = gNew s.
Proof.
  unfold evaluate. intros H Hm Hq.
  destruct (evaluable d); cbv zeta in H; cbn [andb] in H.
  - cbn [method call_computeDerivative call_computeFunction set_calls set_JNew set_QNew
         set_fNew] in H. rewrite Hm in H. cbn [is_BFGS orb] in H.
    match type of H with (if ?c then _ else _) = _ => destruct c eqn:E end.
    + injection H as <- _. cbn [QNew Q set_gNew] in Hq.
      assert (C : true = false) by (rewrite <- E; exact Hq). discriminate C.
    + injection H as <- _. reflexivity.
  - injection H as <- _. reflexivity.
Qed.

(** An evaluated and rejected LM step leaves [gNew] as it found it, and
    builds [y] from it. *)
Lemma rejected_LM_gNew s :
  rejected_LM F lib s = true ->
  gNew (step F lib s) = gNew s
  /\ g (step F lib s) = g s
  /\ y (step F lib s)
     = vadd (mulVec (adjoint (getParameterSize (obj s)) (JNew (step F lib s)))
                    (mulVec (JNew (step F lib s)) (h (step F lib s))))
            (vsub (gNew s) (g s)).
Proof.
  intro R. destruct (rejected_LM_trial F lib s R) as [s3 [nH [d [nG [Ht [Hd [Hm Hq]]]]]]].
  pose proof (trial_untouched F lib _ _ _ _ _ Ht) as U. unfold untouched in U.
  assert (Eo : obj s3 = obj s) by tauto. assert (Eg : g s3 = g s) by tauto.
  assert (Em : method s3 = LM) by (rewrite <- Hm; tauto). clear U.
  assert (EgN : gNew s3 = gNew s).
  { unfold trial in Ht.
    destruct (direction F lib s) as [r | [s1 n1]] eqn:E1; [discriminate|].
    destruct (vet F s1 n1) as [r | [[s2 n2] d2]] eqn:E2; [discriminate|].
    destruct (evaluate s2 d2) as [s3' nG'] eqn:E3. injection Ht as -> -> -> ->.
    rewrite (evaluate_gNew s2 d s3 nG E3); [| |exact Hq].
    - rewrite (vet_gNew _ _ _ _ _ E2). apply (direction_gNew _ _ _ E1).
    - pose proof (vet_untouched F _ _ _ _ _ E2) as U2.
      pose proof (direction_untouched F lib _ _ _ E1) as U1.
      unfold untouched in U1, U2. rewrite <- Hm.
      transitivity (method s1); tauto. }
  rewrite (trial_Some F lib _ _ _ _ _ Ht).
  rewrite (adjust_LM_rejected F lib s3 nH nG Em Hq). cbn [bind leave].
  rewrite (finish_evaluated F _ nH d nG false _ Hd). cbv zeta.
  set (s4 := set_nu _ _).
  assert (K : gNew (update_B s4) = gNew s /\ g (update_B s4) = g s
              /\ y (update_B s4)
                 = vadd (mulVec (adjoint (getParameterSize (obj s)) (JNew (update_B s4)))
                                (mulVec (JNew (update_B s4)) (h (update_B s4))))
                        (vsub (gNew s) (g s))).
  { destruct (update_B_shape s4) as [vv [BB ->]].
    cbn [gNew g y JNew h set_B set_v set_y]. unfold y_update.
    change (obj s4) with (obj s3). change (JNew s4) with (JNew s3).
    change (h s4) with (h s3). change (gNew s4) with (gNew s3). change (g s4) with (g s3).
    rewrite Eo, EgN, Eg. repeat split. }
  destruct K as [K1 [K2 K3]].
  match goal with |- context [if ?c then _ else _] => destruct c end.
  - unfold switch_method.
    replace (method (update_B s4)) with LM
      by (destruct (update_B_shape s4) as [vv [BB ->]]; symmetry; exact Em).
    repeat split; assumption.
  - repeat split; assumption.
Qed.

End Stale.

(** C6 at a failing input.  The first step on the sigmoid from [x = 2] is an
    LM step whose candidate is evaluated and rejected.  The trial gradient is
    not computed on it: [gNew] is still the zero vector of the constructor,
    not [JNew^T fNew], so the vector [y] that enters the update of [B] is
    [JNew^T (JNew h) + (0 - g)] and differs from [JNew^T (JNew h) + (JNew^T
    fNew - g)]; the update of [B] is applied with it. *)
Theorem stale_gradient_in_rejected_LM_step :
  let s := new_Impl sigmoid [2] (control 0x1p-10 true) in
  let s' := step table_flags small_lib s in
  method s = LM
  /\ proposal_result table_flags small_lib s = Some VALID
  /\ rejected_LM table_flags small_lib s = true
  /\ gNew s' = [0]
  /\ mulVec (adjoint 1 (JNew s')) (fNew s') <> gNew s'
  /\ g s' = g s
  /\ y s' = vadd (mulVec (adjoint 1 (JNew s')) (mulVec (JNew s') (h s')))
                 (vsub [0] (g s))
  /\ y s' <> y_at_proposal s'
  /\ B s' <> B s.
Proof.
  vm_compute. repeat split; try vector_neq. matrix_neq.
Qed.

(** * [STEP_MODIFIED] and [STEP_INVALID] accumulate (C10) *)

Lemma keeps_refl m st : keeps m st st.
Proof. intros i _. reflexivity. Qed.

Lemma keeps_trans m a b c : keeps m a b -> keeps m b c -> keeps m a c.
Proof. intros H1 H2 i Hi. rewrite (H2 i Hi). apply H1, Hi. Qed.

Lemma apart_testbit k m i : Z.land k m = 0%Z -> Z.testbit m i = true -> Z.testbit k i = false.
Proof.
  intros H Hm. apply (f_equal (fun z => Z.testbit z i)) in H.
  rewrite Z.land_spec, Hm, Z.bits_0, andb_true_r in H. exact H.
Qed.

Lemma keeps_lor m st k : Z.land k m = 0%Z -> keeps m st (Z.lor st k).
Proof.
  intros H i Hi. rewrite Z.lor_spec, (apart_testbit k m i H Hi). apply orb_false_r.
Qed.

Lemma keeps_clear m st k : Z.land k m = 0%Z -> keeps m st (Z.land st (Z.lnot k)).
Proof.
  intros H i Hi. destruct (Z.neg_nonneg_cases i) as [Hn|Hn].
  - rewrite Z.testbit_neg_r in Hi by assumption. discriminate.
  - rewrite Z.land_spec, Z.lnot_spec, (apart_testbit k m i H Hi) by assumption.
    apply andb_true_r.
Qed.

Lemma keeps_has_flag m st st' : keeps m st st' -> has_flag st m -> has_flag st' m.
Proof.
  unfold has_flag. intros Hk H. apply Z.bits_inj'. intros i _.
  apply (f_equal (fun z => Z.testbit z i)) in H. revert H.
  rewrite !Z.land_spec. destruct (Z.testbit m i) eqn:E.
  - rewrite (Hk i E). auto.
  - rewrite !andb_false_r. auto.
Qed.

Lemma keeps_no_flag m st st' : keeps m st st' -> Z.land st m = 0%Z -> Z.land st' m = 0%Z.
Proof.
  intros Hk H. apply Z.bits_inj'. intros i _.
  apply (f_equal (fun z => Z.testbit z i)) in H. revert H.
  rewrite !Z.land_spec, Z.bits_0. destruct (Z.testbit m i) eqn:E.
  - rewrite (Hk i E). auto.
  - rewrite !andb_false_r. auto.
Qed.

Section Accumulate.

Variable F : StateFlags.
Variable lib : NumLib.
Hypothesis wf : flags_wf F.

Local Abbreviation kept := (proposal_flags_kept F).

Lemma late_flags_apart k :
  In k (late_flags F) ->
  Z.land k (STEP_MODIFIED F) = 0%Z /\ Z.land k (STEP_INVALID F) = 0%Z.
Proof.
  pose proof wf as H. unfold flags_wf in H. simpl in H. unfold late_flags. simpl.
  repeat match goal with H : _ /\ _ |- _ => destruct H end.
  intro Hk. repeat match goal with H : _ \/ _ |- _ => destruct H end;
    try contradiction; subst k; split;
    first [assumption | rewrite Z.land_comm; assumption].
Qed.

Lemma proposal_flags_apart :
  Z.land (STEP_MODIFIED F) (STEP_INVALID F) = 0%Z
  /\ Z.land (STEP_INVALID F) (STEP_MODIFIED F) = 0%Z
  /\ Z.land (STEP_ACCEPTED F) (STEP_MODIFIED F) = 0%Z
  /\ Z.land (STEP_ACCEPTED F) (STEP_INVALID F) = 0%Z.
Proof.
  pose proof wf as H. unfold flags_wf in H. simpl in H.
  repeat match goal with H : _ /\ _ |- _ => destruct H end.
  repeat split; first [assumption | rewrite Z.land_comm; assumption].
Qed.

Lemma kept_refl st : kept st st.
Proof. split; apply keeps_refl. Qed.

Lemma kept_trans a b c : kept a b -> kept b c -> kept a c.
Proof. intros [H1 H2] [H3 H4]. split; eapply keeps_trans; eassumption. Qed.

Lemma kept_set st k : In k (late_flags F) -> kept st (Z.lor st k).
Proof. intro H. destruct (late_flags_apart k H). split; apply keeps_lor; assumption. Qed.

Lemma kept_clear st : kept st (Z.land st (Z.lnot (STEP_ACCEPTED F))).
Proof.
  destruct proposal_flags_apart as [_ [_ [H1 H2]]]. split; apply keeps_clear; assumption.
Qed.

Lemma conclude_kept s nH d : kept (state s) (state (leave (conclude F lib s nH d))).
Proof.
  apply (conclude_preserved F lib kept);
    auto using kept_refl, kept_set, kept_clear. exact kept_trans.
Qed.

(** The flags after a step, by the answer of [tryStep]. *)
Lemma step_proposal_flags s :
  match proposal_result F lib s with
  | Some MODIFIED =>
      has_flag (state (step F lib s)) (STEP_MODIFIED F)
      /\ keeps (STEP_INVALID F) (state s) (state (step F lib s))
  | Some INVALID =>
      has_flag (state (step F lib s)) (STEP_INVALID F)
      /\ keeps (STEP_MODIFIED F) (state s) (state (step F lib s))
  | Some VALID =>
      Z.land (state (step F lib s)) (STEP_MODIFIED F) = 0%Z
      /\ Z.land (state (step F lib s)) (STEP_INVALID F) = 0%Z
  | None => kept (state s) (state (step F lib s))
  end.
Proof.
  destruct proposal_flags_apart as [HMI [HIM [HAM HAI]]].
  unfold proposal_result, step, step_flow.
  pose proof (direction_preserved F lib kept kept_refl kept_trans kept_set s) as H1.
  destruct (direction F lib s) as [r | [s1 nH]]; simpl; [exact H1|].
  unfold vet, call_tryStep.
  destruct (tryStep (obj s1) (x s1) (xNew s1)) as [d xn]. simpl. rewrite <- H1.
  destruct d; cbn [bind].
  - (* INVALID *)
    match goal with |- context [conclude F lib ?t ?a ?b] =>
      destruct (conclude_kept t a b) as [K1 K2]; simpl in K1, K2 end.
    simpl. split.
    + eapply keeps_has_flag; [exact K2 | apply has_flag_lor_r].
    + eapply keeps_trans; [|exact K1]. apply keeps_lor. exact HIM.
  - (* VALID *)
    match goal with |- context [conclude F lib ?t ?a ?b] =>
      destruct (conclude_kept t a b) as [K1 K2]; simpl in K1, K2 end.
    simpl. split.
    + eapply keeps_no_flag; [exact K1|]. apply land_clear.
      rewrite Z.land_lor_distr_r, Z.land_diag, HMI, Z.lor_0_r. reflexivity.
    + eapply keeps_no_flag; [exact K2|]. apply land_clear.
      rewrite Z.land_lor_distr_r, Z.land_diag, HIM, Z.lor_0_l. reflexivity.
  - (* MODIFIED *)
    destruct (late_flags_apart (FAILURE_MINSTEP F)) as [HSM HSI]; [simpl; auto|].
    match goal with |- context [checkStep ?a ?b ?c] =>
      destruct (checkStep_cases a b c) as [-> | ->] end; cbn [negb bind leave].
    + match goal with |- context [conclude F lib ?t ?a ?b] =>
        destruct (conclude_kept t a b) as [K1 K2]; simpl in K1, K2 end.
      split.
      * eapply keeps_has_flag; [exact K1 | apply has_flag_lor_r].
      * eapply keeps_trans; [|exact K2]. apply keeps_lor. exact HMI.
    + split.
      * apply has_flag_lor_l, has_flag_lor_r.
      * eapply keeps_trans; apply keeps_lor; assumption.
Qed.

End Accumulate.

(** C10.  A step whose proposal is MODIFIED sets [STEP_MODIFIED] and leaves a
    [STEP_INVALID] bit of an earlier step set; a step whose proposal is
    INVALID sets [STEP_INVALID] and leaves a [STEP_MODIFIED] bit of an earlier
    step set; a step whose proposal is VALID clears both; a step that ends
    before the objective is asked leaves both as they were.  On the objective
    [clamped] started at [x = 1] the first proposal is MODIFIED and the second
    INVALID, and after the second step both flags are set. *)
Theorem proposal_flags_accumulate (F : StateFlags) (lib : NumLib) :
  flags_wf F ->
  (forall s,
     proposal_result F lib s = Some MODIFIED ->
     has_flag (state (step F lib s)) (STEP_MODIFIED F)
     /\ (has_flag (state s) (STEP_INVALID F) ->
         has_flag (state (step F lib s)) (STEP_INVALID F)))
  /\ (forall s,
        proposal_result F lib s = Some INVALID ->
        has_flag (state (step F lib s)) (STEP_INVALID F)
        /\ (has_flag (state s) (STEP_MODIFIED F) ->
            has_flag (state (step F lib s)) (STEP_MODIFIED F)))
  /\ (forall s,
        proposal_result F lib s = Some VALID ->
        Z.land (state (step F lib s)) (STEP_MODIFIED F) = 0%Z
        /\ Z.land (state (step F lib s)) (STEP_INVALID F) = 0%Z)
  /\ (forall s,
        proposal_result F lib s = None ->
        (has_flag (state s) (STEP_MODIFIED F) ->
         has_flag (state (step F lib s)) (STEP_MODIFIED F))
        /\ (has_flag (state s) (STEP_INVALID F) ->
            has_flag (state (step F lib s)) (STEP_INVALID F)))
  /\ (let s2 := steps F small_lib 2 (new_Impl clamped [1] (control 1 true)) in
      has_flag (state s2) (STEP_MODIFIED F) /\ has_flag (state s2) (STEP_INVALID F)).
Proof.
  intro wf. split; [|split; [|split; [|split]]].
  - intros s Hp. pose proof (step_proposal_flags F lib wf s) as H. rewrite Hp in H.
    destruct H as [H1 H2]. split; [exact H1 | apply keeps_has_flag, H2].
  - intros s Hp. pose proof (step_proposal_flags F lib wf s) as H. rewrite Hp in H.
    destruct H as [H1 H2]. split; [exact H1 | apply keeps_has_flag, H2].
  - intros s Hp. pose proof (step_proposal_flags F lib wf s) as H. rewrite Hp in H.
    exact H.
  - intros s Hp. pose proof (step_proposal_flags F lib wf s) as H. rewrite Hp in H.
    destruct H as [H1 H2]. split; apply keeps_has_flag; assumption.
  - cbn [steps].
    assert (P1 : proposal_result F small_lib (new_Impl clamped [1] (control 1 true))
                 = Some MODIFIED) by (vm_compute; reflexivity).
    assert (P2 : proposal_result F small_lib
                   (step F small_lib (new_Impl clamped [1] (control 1 true)))
                 = Some INVALID) by (vm_compute; reflexivity).
    generalize dependent (new_Impl clamped [1] (control 1 true)). intros s0 P1 P2.
    pose proof (step_proposal_flags F small_lib wf s0) as H1. rewrite P1 in H1.
    pose proof (step_proposal_flags F small_lib wf (step F small_lib s0)) as H2.
    rewrite P2 in H2. destruct H1 as [H1 _]. destruct H2 as [H2 H3].
    split; [|exact H2]. apply (keeps_has_flag _ _ _ H3 H1).
Qed.

Lemma proposal_flags_accumulate_witness :
  let s := new_Impl clamped [1] (control 1 true) in
  proposal_result table_flags small_lib s = Some MODIFIED
  /\ has_flag (state (step table_flags small_lib s)) (STEP_MODIFIED table_flags).
Proof.
  split; [vm_compute; reflexivity|].
  apply (proj1 (proposal_flags_accumulate table_flags small_lib table_flags_wf)).
  vm_compute. reflexivity.
Defined.

(** * Lower-triangular storage (C7) *)

Module Storage.

Lemma Some_eq {X : Type} (a b : X) : Some a = Some b -> a = b.
Proof. intro H. injection H. auto. Qed.

Lemma length_imap_from {X Y : Type} (fn : nat -> X -> Y) (l : list X) (i : nat) :
  length (imap_from i fn l) = length l.
Proof. revert i. induction l as [|a l IH]; intro i; simpl; [reflexivity|]. rewrite IH. reflexivity. Qed.

Lemma nth_error_imap_from {X Y : Type} (fn : nat -> X -> Y) (l : list X) (i k : nat) :
  nth_error (imap_from i fn l) k = option_map (fn (i + k)%nat) (nth_error l k).
Proof.
  revert i k. induction l as [|a l IH]; intros i k; destruct k; simpl; try reflexivity.
  - rewrite Nat.add_0_r. reflexivity.
  - rewrite IH. replace (S i + k)%nat with (i + S k)%nat by lia. reflexivity.
Qed.

Lemma stored_mapij fn M i j :
  stored (mapij fn M) i j = option_map (fn i j) (stored M i j).
Proof.
  unfold stored, mapij, imap. rewrite nth_error_imap_from. simpl.
  destruct (nth_error M i) as [r|]; simpl; [|reflexivity].
  rewrite nth_error_imap_from. reflexivity.
Qed.

Lemma Forall_imap_from {X Y : Type} (P : Y -> Prop) (fn : nat -> X -> Y) (l : list X) i :
  (forall k a, In a l -> P (fn k a)) -> Forall P (imap_from i fn l).
Proof.
  revert i. induction l as [|a l IH]; intros i H; simpl; constructor.
  - apply H. left. reflexivity.
  - apply IH. intros k b Hb. apply H. right. exact Hb.
Qed.

Lemma square_mapij n fn M : square n M -> square n (mapij fn M).
Proof.
  unfold square, mapij, imap. intros [H1 H2]. split.
  - rewrite length_imap_from. exact H1.
  - apply Forall_imap_from. intros k r Hr. rewrite length_imap_from.
    rewrite Forall_forall in H2. apply H2, Hr.
Qed.

(** An entry-wise update that leaves the entries above the diagonal alone
    keeps them zero. *)
Lemma upper_zero_mapij fn M :
  (forall i j a, (i < j)%nat -> fn i j a = a) -> upper_zero M -> upper_zero (mapij fn M).
Proof.
  intros Hfn HM i j a Hij. rewrite stored_mapij.
  destruct (stored M i j) as [b|] eqn:E; simpl; [|discriminate].
  intro H. apply Some_eq in H. subst a. rewrite (Hfn i j b Hij). apply (HM i j b Hij E).
Qed.

Lemma leb_above i j : (i < j)%nat -> Nat.leb j i = false.
Proof. intro H. apply Nat.leb_gt. exact H. Qed.

Lemma eqb_above i j : (i < j)%nat -> Nat.eqb i j = false.
Proof. intro H. apply Nat.eqb_neq. lia. Qed.

Lemma lower_rankUpdateLower n M U alpha : lower n M -> lower n (rankUpdateLower M U alpha).
Proof.
  intros [H1 H2]. split; [apply square_mapij, H1|].
  apply upper_zero_mapij; [|exact H2]. intros i j a Hij. rewrite (leb_above i j Hij). reflexivity.
Qed.

Lemma lower_rankUpdateLowerVec n M u alpha :
  lower n M -> lower n (rankUpdateLowerVec M u alpha).
Proof.
  intros [H1 H2]. split; [apply square_mapij, H1|].
  apply upper_zero_mapij; [|exact H2]. intros i j a Hij. rewrite (leb_above i j Hij). reflexivity.
Qed.

Lemma lower_addDiagonal n M mu : lower n M -> lower n (addDiagonal M mu).
Proof.
  intros [H1 H2]. split; [apply square_mapij, H1|].
  apply upper_zero_mapij; [|exact H2]. intros i j a Hij. rewrite (eqb_above i j Hij). reflexivity.
Qed.

Lemma lower_setZero n M : square n M -> lower n (setZero M).
Proof.
  intros [H1 H2]. unfold setZero. split; [split|].
  - rewrite length_map. exact H1.
  - rewrite Forall_forall in *. intros r Hr. apply in_map_iff in Hr.
    destruct Hr as [r0 [<- Hr0]]. rewrite length_map. apply H2, Hr0.
  - intros i j a _. unfold stored. rewrite nth_error_map.
    destruct (nth_error M i) as [r|]; simpl; [|discriminate].
    rewrite nth_error_map. destruct (nth_error r j); simpl; [|discriminate].
    intro H. apply Some_eq in H. subst a. reflexivity.
Qed.

Lemma nth_error_repeat2 {X : Type} (z : X) (n m i j : nat) (a : X) :
  match nth_error (repeat (repeat z n) m) i with
  | Some r => nth_error r j
  | None => None
  end = Some a -> a = z.
Proof.
  destruct (nth_error (repeat (repeat z n) m) i) as [r|] eqn:E; [|discriminate].
  apply nth_error_In, repeat_spec in E. subst r. intro H.
  apply nth_error_In, repeat_spec in H. exact H.
Qed.

Lemma lower_MZero n : lower n (MZero n n).
Proof.
  unfold MZero, Zero. split; [split|].
  - apply repeat_length.
  - apply Forall_forall. intros r Hr. apply repeat_spec in Hr. subst r. apply repeat_length.
  - intros i j a _. unfold stored. apply nth_error_repeat2.
Qed.

Lemma lower_Identity n : lower n (Identity n).
Proof.
  unfold Identity. split; [split|].
  - rewrite length_map, length_seq. reflexivity.
  - apply Forall_forall. intros r Hr. apply in_map_iff in Hr. destruct Hr as [i [<- _]].
    rewrite length_map, length_seq. reflexivity.
  - intros i j a Hij. unfold stored. rewrite nth_error_map.
    destruct (nth_error (seq 0 n) i) as [i'|] eqn:Ei; simpl; [|discriminate].
    rewrite nth_error_map.
    destruct (nth_error (seq 0 n) j) as [j'|] eqn:Ej; simpl; [|discriminate].
    assert (Hi : (i < n)%nat) by (rewrite <- (length_seq n 0); apply nth_error_Some; congruence).
    assert (Hj : (j < n)%nat) by (rewrite <- (length_seq n 0); apply nth_error_Some; congruence).
    apply (nth_error_nth _ _ 0%nat) in Ei. apply (nth_error_nth _ _ 0%nat) in Ej.
    rewrite seq_nth in Ei, Ej by assumption. subst i' j'. simpl. rewrite (eqb_above i j Hij). intro H. apply Some_eq in H. subst a. reflexivity.
Qed.

(** A stored entry is the entry read by [entry]. *)
Lemma stored_entry M i j a : stored M i j = Some a -> entry M i j = a.
Proof.
  unfold stored, entry, row, coeff. intro H.
  destruct (nth_error M i) as [r|] eqn:E; [|discriminate].
  rewrite (nth_error_nth _ _ _ E). apply nth_error_nth, H.
Qed.

Lemma square_stored n M i j :
  square n M -> (i < n)%nat -> (j < n)%nat -> exists a, stored M i j = Some a.
Proof.
  intros [H1 H2] Hi Hj. unfold stored.
  destruct (nth_error M i) as [r|] eqn:E.
  - rewrite Forall_forall in H2. pose proof (H2 r (nth_error_In _ _ E)) as Hr.
    destruct (nth_error r j) as [a|] eqn:E2; [eauto|].
    apply nth_error_None in E2. lia.
  - apply nth_error_None in E. lia.
Qed.

(** The self-adjoint view of the lower triangle is symmetric. *)
Lemma selfadjointLower_symmetric n M i j :
  square n M -> (i < n)%nat -> (j < n)%nat ->
  entry (selfadjointLower M) i j = entry (selfadjointLower M) j i.
Proof.
  intros HM Hi Hj.
  destruct (square_stored n M i j HM Hi Hj) as [a Ha].
  destruct (square_stored n M j i HM Hj Hi) as [b Hb].
  assert (E1 : stored (selfadjointLower M) i j
               = Some (if Nat.leb j i then a else entry M j i))
    by (unfold selfadjointLower; rewrite stored_mapij, Ha; reflexivity).
  assert (E2 : stored (selfadjointLower M) j i
               = Some (if Nat.leb i j then b else entry M i j))
    by (unfold selfadjointLower; rewrite stored_mapij, Hb; reflexivity).
  rewrite (stored_entry _ _ _ _ E1), (stored_entry _ _ _ _ E2).
  rewrite <- (stored_entry _ _ _ _ Ha), <- (stored_entry _ _ _ _ Hb).
  destruct (Nat.leb j i) eqn:L1, (Nat.leb i j) eqn:L2; try reflexivity.
  - apply Nat.leb_le in L1, L2. assert (i = j) by lia. subst. reflexivity.
  - apply Nat.leb_gt in L1, L2. lia.
Qed.

End Storage.
Import Storage.

(** ** The storage of [A] and [B] along a run *)


Lemma new_Impl_stored objective parameters ctl :
  let n := getParameterSize objective in
  let s := new_Impl objective parameters ctl in
  obj s = objective
  /\ B s = Identity n
  /\ exists U mu0, A s = addDiagonal (rankUpdateLower (MZero n n) U 1) mu0.
Proof.
  intros n s. split; [reflexivity|]. split; [reflexivity|].
  eexists. eexists. vm_compute. reflexivity.
Qed.

Section Lower.
Variable F : StateFlags.
Variable lib : NumLib.

Lemma direction_frame s :
  match direction F lib s with
  | Return s' => untouched s s'
  | Next (s', _) => untouched s s'
  end.
Proof.
  destruct (solved_shape lib s) as [r [h0 E]].
  destruct (direction_cases F lib s) as [-> | [hh ->]]; rewrite E; repeat split.
Qed.

Lemma vet_frame s nH :
  match vet F s nH with
  | Return s' => untouched s s'
  | Next (s', _, _) => untouched s s'
  end.
Proof.
  unfold vet, call_tryStep. destruct (tryStep (obj s) (x s) (xNew s)) as [d xn].
  destruct d; try (repeat split; fail).
  match goal with |- context [checkStep ?a ?b ?c] =>
    destruct (checkStep_cases a b c) as [-> | ->] end; simpl; repeat split.
Qed.

Lemma lower_rebuild_A s Jm :
  lower (getParameterSize (obj s)) (A s) ->
  lower (getParameterSize (obj s)) (A (rebuild_A s Jm)).
Proof.
  intros [H _]. unfold rebuild_A. simpl.
  apply lower_addDiagonal, lower_rankUpdateLower, lower_setZero, H.
Qed.

Lemma adjust_lower s nH nG :
  stored_lower s ->
  match adjust F lib s nH nG with
  | Return s' => obj s' = obj s /\ stored_lower s'
  | Next (s', _, _) => obj s' = obj s /\ stored_lower s'
  end.
Proof.
  intros [HA HB]. unfold adjust. destruct (method s).
  - destruct (QNew s <? Q s); cbv zeta.
    + destruct HA as [HA1 HA2].
      repeat match goal with |- context [if ?c then _ else _] => destruct c end;
        simpl; (split; [reflexivity|]); split; simpl; auto;
        try (split; assumption);
        apply lower_addDiagonal, lower_rankUpdateLower, lower_setZero, HA1.
    + split; [reflexivity|]. split; simpl; [apply lower_addDiagonal, HA | exact HB].
  - assert (K : forall b1 b2,
               match halve_delta F s b1 b2 with
               | Return s' => obj s' = obj s /\ stored_lower s'
               | Next (s', _, _) => obj s' = obj s /\ stored_lower s'
               end).
    { intros b1 b2. destruct (halve_delta_cases F s b1 b2) as [-> | ->];
        (split; [reflexivity | split; assumption]). }
    destruct (QNew s <? Q s); cbv zeta; [|apply K].
    destruct (rho_BFGS s >? 0.75); [split; [reflexivity | split; assumption]|].
    destruct (rho_BFGS s <? 0.25); [apply K | split; [reflexivity | split; assumption]].
Qed.

Lemma adjust_lower_B s nH nG :
  match adjust F lib s nH nG with
  | Return s' => B s' = B s
  | Next (s', _, _) => B s' = B s
  end.
Proof.
  unfold adjust. destruct (method s).
  - destruct (QNew s <? Q s); cbv zeta; [|reflexivity].
    repeat match goal with |- context [if ?c then _ else _] => destruct c end; reflexivity.
  - assert (K : forall b1 b2,
               match halve_delta F s b1 b2 with
               | Return s' => B s' = B s
               | Next (s', _, _) => B s' = B s
               end).
    { intros b1 b2. destruct (halve_delta_cases F s b1 b2) as [-> | ->]; reflexivity. }
    destruct (QNew s <? Q s); cbv zeta; [|apply K].
    destruct (rho_BFGS s >? 0.75); [reflexivity|].
    destruct (rho_BFGS s <? 0.25); [apply K | reflexivity].
Qed.

Lemma update_B_lower s : stored_lower s -> obj (update_B s) = obj s /\ stored_lower (update_B s).
Proof.
  intros [HA HB]. unfold update_B. cbv zeta.
  match goal with |- context [if ?c then _ else _] => destruct c end.
  - split; [reflexivity|]. split; simpl; [exact HA|].
    apply lower_rankUpdateLowerVec, lower_rankUpdateLowerVec, HB.
  - split; [reflexivity|]. split; assumption.
Qed.

Lemma commit_lower s nG : stored_lower s -> obj (commit F s nG) = obj s /\ stored_lower (commit F s nG).
Proof.
  intros [HA HB]. unfold commit. cbv zeta.
  repeat match goal with |- context [if ?c then _ else _] => destruct c end;
    (split; [reflexivity | split; assumption]).
Qed.

Lemma switch_method_lower s nH :
  stored_lower s -> obj (switch_method s nH) = obj s /\ stored_lower (switch_method s nH).
Proof.
  intros [HA HB]. unfold switch_method. destruct (method s).
  - split; [reflexivity | split; assumption].
  - split; [reflexivity|]. split; simpl; [|exact HB].
    apply (lower_rebuild_A s (J s) HA).
Qed.

Lemma finish_lower s nH d nG b1 b2 :
  stored_lower s ->
  obj (finish F s nH d nG b1 b2) = obj s /\ stored_lower (finish F s nH d nG b1 b2).
Proof.
  intro H. unfold finish. destruct (evaluable d); simpl; [|auto].
  destruct (update_B_lower s H) as [E1 H1].
  assert (H2 : obj (if b1 then commit F (update_B s) nG else update_B s) = obj s
               /\ stored_lower (if b1 then commit F (update_B s) nG else update_B s)).
  { destruct b1; [|auto]. destruct (commit_lower (update_B s) nG H1) as [E2 H2].
    split; [congruence | exact H2]. }
  destruct H2 as [E2 H2].
  set (s2 := if b1 then commit F (update_B s) nG else update_B s) in *.
  assert (H3 : obj (if b2 then switch_method s2 nH else s2) = obj s
               /\ stored_lower (if b2 then switch_method s2 nH else s2)).
  { destruct b2; [|auto]. destruct (switch_method_lower s2 nH H2) as [E3 H3].
    split; [congruence | exact H3]. }
  destruct H3 as [E3 H3].
  set (s3 := if b2 then switch_method s2 nH else s2) in *.
  destruct b1; (split; [exact E3 | exact H3]).
Qed.

Lemma untouched_lower s s' : untouched s s' -> stored_lower s -> obj s' = obj s /\ stored_lower s'.
Proof.
  unfold untouched, stored_lower. intros U [HA HB].
  repeat match goal with H : _ /\ _ |- _ => destruct H end.
  split; [assumption|]. split; congruence.
Qed.

Lemma step_lower s : stored_lower s -> obj (step F lib s) = obj s /\ stored_lower (step F lib s).
Proof.
  intro H. unfold step, step_flow.
  pose proof (direction_frame s) as H1.
  destruct (direction F lib s) as [r | [s1 nH]]; simpl; [apply untouched_lower; assumption|].
  destruct (untouched_lower _ _ H1 H) as [E1 L1].
  pose proof (vet_frame s1 nH) as H2.
  destruct (vet F s1 nH) as [r | [[s2 nH2] d]]; simpl.
  { destruct (untouched_lower _ _ H2 L1) as [E2 L2]. split; [congruence | exact L2]. }
  destruct (untouched_lower _ _ H2 L1) as [E2 L2].
  unfold conclude.
  pose proof (evaluate_untouched s2 d) as H3.
  destruct (evaluate s2 d) as [s3 nG]; simpl in H3.
  destruct (untouched_lower _ _ H3 L2) as [E3 L3].
  pose proof (adjust_lower s3 nH2 nG L3) as H4.
  destruct (adjust F lib s3 nH2 nG) as [r | [[s4 b1] b2]]; simpl.
  { destruct H4 as [E4 L4]. split; [congruence | exact L4]. }
  destruct H4 as [E4 L4].
  destruct (finish_lower s4 nH2 d nG b1 b2 L4) as [E5 L5].
  split; [congruence | exact L5].
Qed.

Lemma steps_lower k s :
  stored_lower s -> obj (steps F lib k s) = obj s /\ stored_lower (steps F lib k s).
Proof.
  intro H. induction k as [|k [E IH]]; simpl; [auto|].
  destruct (step_lower _ IH) as [E' H']. split; [congruence | exact H'].
Qed.

End Lower.

(** ** Tactics

    On a state given by its members, assignments and reads compute. *)

Ltac members :=
  cbv beta iota zeta delta
    [set_method set_state set_count set_rank set_x set_xNew set_f set_fNew set_J set_JNew
     set_h set_y set_v set_A set_B set_g set_gNew set_normInfF set_normInfG set_Q set_QNew
     set_mu set_nu set_delta set_calls set_bits clear_bits
     obj ctrl method state count rank x xNew f fNew J JNew h y v A B g gNew normInfF
     normInfG Q QNew mu nu delta calls fst snd].

Ltac members_in H :=
  cbv beta iota zeta delta
    [set_method set_state set_count set_rank set_x set_xNew set_f set_fNew set_J set_JNew
     set_h set_y set_v set_A set_B set_g set_gNew set_normInfF set_normInfG set_Q set_QNew
     set_mu set_nu set_delta set_calls set_bits clear_bits
     obj ctrl method state count rank x xNew f fNew J JNew h y v A B g gNew normInfF
     normInfG Q QNew mu nu delta calls fst snd] in H.

(** Case analysis on the tests of the code, innermost first. *)
Ltac split_test c :=
  lazymatch c with
  | negb ?a => split_test a
  | andb ?a _ => split_test a
  | orb ?a _ => split_test a
  | (if ?a then _ else _) => split_test a
  | _ => destruct c eqn:?
  end.

Ltac split_tests :=
  repeat (match goal with
          | |- context [if ?c then _ else _] =>
              lazymatch c with
              | context [if _ then _ else _] => fail
              | _ => split_test c
              end
          end;
          cbv beta iota delta [negb andb orb]; members).

(** ** What the pieces of [step] assign *)

Section Shapes.
Variable F : StateFlags.
Variable lib : NumLib.

(** What [evaluate] assigns: [fNew], [QNew], [JNew], [gNew], [calls]. *)
Lemma evaluate_shape s d :
  exists fn q jn gn cl,
    fst (evaluate s d) = set_calls (set_gNew (set_JNew (set_QNew (set_fNew s fn) q) jn) gn) cl.
Proof.
  destruct s.
  cbv beta iota zeta delta [evaluate call_computeFunction call_computeDerivative]. members.
  destruct (evaluable d); cbv beta iota delta [andb]; split_tests; do 5 eexists; reflexivity.
Qed.

(** What [adjust] assigns: [A], [count], [mu], [nu], [delta], [state]. *)
Local Abbreviation adjusted s r :=
  (exists a c m n d st,
     r = set_state (set_delta (set_nu (set_mu (set_count (set_A s a) c) m) n) d) st).

Lemma adjust_shape s nH nG :
  match adjust F lib s nH nG with
  | Return r => adjusted s r
  | Next (r, _, _) => adjusted s r
  end.
Proof.
  destruct s.
  cbv beta iota zeta delta [adjust halve_delta checkStep rebuild_A]. members.
  match goal with |- context [match ?m with LM => _ | BFGS => _ end] => destruct m end;
    split_tests; cbv beta iota delta [negb]; do 6 eexists; reflexivity.
Qed.

(** What [commit] assigns. *)
Lemma commit_shape s nG :
  exists st,
    commit F s nG
    = set_state (set_normInfG (set_normInfF (set_g (set_J (set_Q (set_f (set_x s (xNew s))
        (fNew s)) (QNew s)) (JNew s)) (gNew s)) (lpNormInf (fNew s))) nG) st.
Proof.
  destruct s. cbv beta iota zeta delta [commit]. members.
  split_tests; eexists; reflexivity.
Qed.

Lemma switch_method_shape s nH :
  exists a d m, switch_method s nH = set_method (set_delta (set_A s a) d) m.
Proof.
  destruct s. cbv beta iota zeta delta [switch_method rebuild_A]. members.
  match goal with |- context [match ?m with LM => _ | BFGS => _ end] => destruct m end;
    do 3 eexists; reflexivity.
Qed.

End Shapes.

Section Evaluation.
Variable F : StateFlags.
Variable lib : NumLib.

Lemma coherent_untouched s s' : untouched s s' -> coherent s -> coherent s'.
Proof.
  unfold untouched, coherent. intros U C.
  repeat match goal with H : _ /\ _ |- _ => destruct H end.
  repeat match goal with H : _ s' = _ s |- _ => rewrite H; clear H end.
  repeat split; assumption.
Qed.

(** The evaluation of an evaluable proposal. *)
Lemma evaluate_evaluated s d :
  evaluable d = true ->
  evaluated (fst (evaluate s d))
  /\ (is_BFGS (method s) || (QNew (fst (evaluate s d)) <? Q s) = true ->
      gNew (fst (evaluate s d))
      = mulVec (adjoint (getParameterSize (obj s)) (JNew (fst (evaluate s d))))
               (fNew (fst (evaluate s d)))
      /\ snd (evaluate s d) = lpNormInf (gNew (fst (evaluate s d)))).
Proof.
  intro Hd. unfold evaluated. destruct s.
  cbv beta iota zeta delta [evaluate call_computeFunction call_computeDerivative].
  rewrite Hd. members. cbv beta iota delta [andb].
  match goal with |- context [if ?c then _ else _] => destruct c eqn:E end; members.
  - repeat split.
  - split; [repeat split|]. intro H. rewrite H in E. discriminate E.
Qed.

Lemma step_no_trial s : trial F lib s = None -> untouched s (step F lib s).
Proof.
  unfold trial, step, step_flow.
  pose proof (direction_frame F lib s) as H1.
  destruct (direction F lib s) as [r | [s1 nH]]; cbn [bind leave]; [intros _; exact H1|].
  pose proof (vet_frame F s1 nH) as H2.
  destruct (vet F s1 nH) as [r | [[s2 nH2] d]]; cbn [bind leave].
  - intros _. eapply untouched_trans; eassumption.
  - destruct (evaluate s2 d). discriminate.
Qed.

End Evaluation.

(** ** What a step does to [B] *)

Section UpdateOfB.
Variable F : StateFlags.
Variable lib : NumLib.

(** [B] is assigned by the rank-2 update only, and only when [h^T y > 0]. *)
Lemma update_B_cases s :
  let hy := dot (h s) (y_update s) in
  let vv := mulVec (selfadjointLower (B s)) (h s) in
  let hv := dot (h s) vv in
  B (update_B s)
  = if hy >? 0
    then rankUpdateLowerVec (rankUpdateLowerVec (B s) vv (-1 / hv)) (y_update s) (1 / hy)
    else B s.
Proof.
  unfold update_B. cbv zeta.
  change (h (set_y s (y_update s))) with (h s).
  change (y (set_y s (y_update s))) with (y_update s).
  destruct (dot (h s) (y_update s) >? 0); reflexivity.
Qed.

Lemma step_INVALID_B s :
  proposal_result F lib s = Some INVALID -> B (step F lib s) = B s.
Proof.
  unfold proposal_result, step, step_flow. intro Hp.
  pose proof (direction_frame F lib s) as H1.
  destruct (direction F lib s) as [r | [s1 nH]]; [discriminate|]. simpl.
  assert (E1 : B s1 = B s) by (unfold untouched in H1; tauto). rewrite <- E1.
  unfold vet, call_tryStep.
  destruct (tryStep (obj s1) (x s1) (xNew s1)) as [d xn]. simpl in Hp.
  injection Hp as ->. cbn [bind]. unfold conclude, evaluate. simpl.
  match goal with |- context [adjust F lib ?t ?a ?b] =>
    pose proof (adjust_lower_B F lib t a b) as H4; destruct (adjust F lib t a b) as [r | [[s4 b1] b2]]
  end; simpl in *; exact H4.
Qed.

(** After [update_B] the step assigns none of [B], [h], [y], and nowhere the
    trial members. *)
Lemma finish_B s nH d nG b1 b2 :
  evaluable d = true ->
  let r := finish F s nH d nG b1 b2 in
  B r = B (update_B s) /\ h r = h s /\ y r = y_update s
  /\ obj r = obj s /\ JNew r = JNew s /\ gNew r = gNew s.
Proof.
  intros Hd. unfold finish. rewrite Hd. cbn [negb]. cbv zeta.
  assert (E : h (update_B s) = h s /\ y (update_B s) = y_update s
              /\ obj (update_B s) = obj s /\ JNew (update_B s) = JNew s
              /\ gNew (update_B s) = gNew s).
  { destruct (update_B_shape s) as (vv & BB & ->). repeat split. }
  destruct E as (<- & <- & <- & <- & <-).
  generalize (update_B s). intro t.
  assert (C : forall (b : bool) (u : Impl),
              B u = B t /\ h u = h t /\ y u = y t
              /\ obj u = obj t /\ JNew u = JNew t /\ gNew u = gNew t ->
              let u' := if b then commit F u nG else u in
              B u' = B t /\ h u' = h t /\ y u' = y t
              /\ obj u' = obj t /\ JNew u' = JNew t /\ gNew u' = gNew t).
  { intros [] u Hu; cbv zeta; [|exact Hu].
    destruct (commit_shape F u nG) as (st & ->). exact Hu. }
  assert (S : forall (b : bool) (u : Impl),
              B u = B t /\ h u = h t /\ y u = y t
              /\ obj u = obj t /\ JNew u = JNew t /\ gNew u = gNew t ->
              let u' := if b then switch_method u nH else u in
              B u' = B t /\ h u' = h t /\ y u' = y t
              /\ obj u' = obj t /\ JNew u' = JNew t /\ gNew u' = gNew t).
  { intros [] u Hu; cbv zeta; [|exact Hu].
    destruct (switch_method_shape u nH) as (a & dl & m & ->). exact Hu. }
  specialize (C b1 t (conj eq_refl (conj eq_refl (conj eq_refl
                        (conj eq_refl (conj eq_refl eq_refl)))))).
  cbv zeta in C. specialize (S b2 _ C). cbv zeta in S.
  destruct b1; exact S.
Qed.

(** [adjust] assigns none of the members that the update of [B] reads. *)
Lemma adjust_update s nH nG :
  match adjust F lib s nH nG with
  | Return r => B r = B s
  | Next (r, _, _) =>
      B r = B s /\ h r = h s /\ obj r = obj s /\ JNew r = JNew s /\ gNew r = gNew s
      /\ g r = g s
  end.
Proof.
  pose proof (adjust_shape F lib s nH nG) as Ha.
  destruct (adjust F lib s nH nG) as [r | [[r b1] b2]];
    destruct Ha as (a & c & m & n & dl & st & ->); repeat split.
Qed.

(** What a step does to [B]: nothing unless it runs to its last statement
    and finds [h^T y > 0] for its [h] and the [y] of line 221. *)
Lemma step_B s :
  let s' := step F lib s in
  let n := getParameterSize (obj s) in
  let hy := dot (h s') (y s') in
  let vv := mulVec (selfadjointLower (B s)) (h s') in
  (completes F lib s = true ->
   y s' = vadd (mulVec (adjoint n (JNew s')) (mulVec (JNew s') (h s')))
               (vsub (gNew s') (g s)))
  /\ B s' = if completes F lib s && (hy >? 0)
            then rankUpdateLowerVec (rankUpdateLowerVec (B s) vv (-1 / dot (h s') vv))
                                    (y s') (1 / hy)
            else B s.
Proof.
  intros s' n hy vv. subst s' n hy vv. unfold completes.
  destruct (trial F lib s) as [[[[s3 nH] d] nG]|] eqn:Et.
  - rewrite (trial_Some F lib _ _ _ _ _ Et).
    pose proof (trial_untouched F lib _ _ _ _ _ Et) as U. unfold untouched in U.
    destruct U as (Uo & _ & _ & _ & _ & _ & _ & Ug & _ & UB & _).
    rewrite <- Uo, <- Ug, <- UB.
    pose proof (adjust_update s3 nH nG) as Ha.
    destruct (adjust F lib s3 nH nG) as [r | [[s4 b1] b2]]; cbn [bind leave andb].
    + split; [discriminate | exact Ha].
    + destruct Ha as (EB & Eh & Eo & EJ & Eg & Egg).
      destruct (evaluable d) eqn:Hd; cbn [andb].
      * destruct (finish_B s4 nH d nG b1 b2 Hd) as (-> & -> & -> & _ & -> & ->).
        split.
        -- intros _. unfold y_update. cbv zeta. rewrite Eo, EJ, Eh, Eg, Egg. reflexivity.
        -- rewrite update_B_cases. cbv zeta. rewrite EB, Eh. reflexivity.
      * split; [discriminate|]. unfold finish. rewrite Hd. exact EB.
  - cbn [andb]. split; [discriminate|].
    pose proof (step_no_trial F lib s Et) as U. unfold untouched in U. tauto.
Qed.

End UpdateOfB.

(** ** The update of [B] over the real numbers *)

Module ExactFacts.
Import Exact.
Local Open Scope R_scope.

Lemma dot_comm u w : dot u w = dot w u.
Proof.
  revert w. induction u as [|a u IH]; intros [|b w]; cbn [dot]; try reflexivity.
  rewrite IH. ring.
Qed.

Lemma dot_zero n w : dot (repeat 0 n) w = 0.
Proof.
  revert w. induction n as [|n IH]; intros [|b w]; cbn [repeat dot]; try reflexivity.
  rewrite IH. ring.
Qed.

Lemma length_axpy r u c : length r = length u -> length (axpy r u c) = length r.
Proof.
  revert u. induction r as [|a r IH]; intros [|b u] H; cbn [axpy length] in *;
    try reflexivity; try discriminate.
  rewrite IH by congruence. reflexivity.
Qed.

Lemma dot_axpy r u c w :
  length r = length u -> dot (axpy r u c) w = dot r w + c * dot u w.
Proof.
  revert u w. induction r as [|a r IH]; intros [|b u] [|e w] H; cbn [axpy dot length] in *;
    try discriminate; try ring.
  rewrite IH by congruence. ring.
Qed.

Lemma dot_scale c u w : dot (map (Rmult c) u) w = c * dot u w.
Proof.
  revert w. induction u as [|a u IH]; intros [|b w]; cbn [map dot]; try ring.
  rewrite IH. ring.
Qed.

Lemma length_mulVec M u : length (mulVec M u) = length M.
Proof. apply length_map. Qed.

Lemma square_rankUpdateRows n M ui u alpha :
  Forall (fun r => length r = n) M -> length ui = length M -> length u = n ->
  length (rankUpdateRows M ui u alpha) = length M
  /\ Forall (fun r => length r = n) (rankUpdateRows M ui u alpha).
Proof.
  intros HM Hi Hu. revert ui Hi.
  induction HM as [|r M Hr HM IH]; intros [|a ui] Hi; cbn [rankUpdateRows length] in *;
    try discriminate; [split; [reflexivity | constructor]|].
  destruct (IH ui) as [E1 E2]; [congruence|]. split; [congruence|].
  constructor; [|exact E2]. rewrite length_axpy; congruence.
Qed.

Lemma square_rankUpdate n M u alpha :
  square n M -> length u = n -> square n (rankUpdate M u alpha).
Proof.
  intros [E HM] Hu. unfold square, rankUpdate.
  destruct (square_rankUpdateRows n M u u alpha HM) as [E1 E2]; [congruence | exact Hu|].
  split; [congruence | exact E2].
Qed.

(** The bilinear form of [M + alpha u u^T]. *)
Lemma form_rankUpdateRows n M ui u alpha w z :
  Forall (fun r => length r = n) M -> length ui = length M -> length w = length M ->
  length u = n ->
  dot w (mulVec (rankUpdateRows M ui u alpha) z)
  = dot w (mulVec M z) + alpha * dot u z * dot w ui.
Proof.
  intros HM Hi Hw Hu. revert ui w Hi Hw.
  induction HM as [|r M Hr HM IH]; intros [|a ui] [|b w] Hi Hw;
    cbn [rankUpdateRows mulVec map dot length] in *; try discriminate; try ring.
  fold (mulVec (rankUpdateRows M ui u alpha) z). fold (mulVec M z).
  rewrite IH by congruence. rewrite dot_axpy by congruence. ring.
Qed.

Lemma form_rankUpdate n M u alpha w z :
  square n M -> length u = n -> length w = n ->
  dot w (mulVec (rankUpdate M u alpha) z)
  = dot w (mulVec M z) + alpha * dot u z * dot w u.
Proof.
  intros [E HM] Hu Hw. unfold rankUpdate.
  apply (form_rankUpdateRows n); congruence.
Qed.

(** The bilinear form of the updated [B]. *)
Lemma form_update_B n B h y w z :
  square n B -> length h = n -> length y = n -> length w = n ->
  dot w (mulVec (update_B B h y) z)
  = dot w (mulVec B z)
    + -1 / dot h (mulVec B h) * dot (mulVec B h) z * dot w (mulVec B h)
    + 1 / dot h y * dot y z * dot w y.
Proof.
  intros HB Hh Hy Hw. unfold update_B. cbv zeta.
  assert (Hv : length (mulVec B h) = n) by (rewrite length_mulVec; apply HB).
  rewrite (form_rankUpdate n); auto using square_rankUpdate.
  rewrite (form_rankUpdate n); auto.
Qed.

Lemma length_combination c u b h :
  length u = length h -> length (combination c u b h) = length u.
Proof.
  intro H. unfold combination. rewrite length_axpy; rewrite length_map; auto.
Qed.

Lemma dot_combination c u b h w :
  length u = length h -> dot (combination c u b h) w = c * dot u w - b * dot h w.
Proof.
  intro H. unfold combination. rewrite dot_axpy by (rewrite length_map; exact H).
  rewrite dot_scale. ring.
Qed.

Section Form.
Variable n : nat.
Variable B : Matrix.
Hypothesis PD : positive_definite n B.

Lemma form_combination c u b h :
  length u = n -> length h = n ->
  let z := combination c u b h in
  dot z (mulVec B z)
  = c * c * dot u (mulVec B u) - 2 * c * b * dot u (mulVec B h)
    + b * b * dot h (mulVec B h).
Proof.
  intros Hu Hh z. destruct PD as (_ & Sym & _).
  assert (Hz : length z = n) by (unfold z; rewrite length_combination; congruence).
  unfold z at 1. rewrite dot_combination by congruence.
  rewrite (Sym u z), (Sym h z) by assumption.
  unfold z. rewrite !dot_combination by congruence.
  rewrite (Sym h u) by assumption. ring.
Qed.

(** The Cauchy-Schwarz inequality of the form of [B], with its case of
    equality. *)
Lemma form_Cauchy_Schwarz u h :
  length u = n -> length h = n ->
  let a := dot u (mulVec B u) in
  let b := dot u (mulVec B h) in
  let c := dot h (mulVec B h) in
  b * b < a * c
  \/ (b * b = a * c /\ forall w, c * dot u w = b * dot h w).
Proof.
  intros Hu Hh a b c.
  pose proof (form_combination c u b h Hu Hh) as E. cbv zeta in E. fold a b c in E.
  set (z := combination c u b h) in *.
  assert (Hz : length z = n) by (unfold z; rewrite length_combination; congruence).
  assert (Hc : forall w, dot z w = c * dot u w - b * dot h w)
    by (intro w; apply dot_combination; congruence).
  destruct PD as (_ & _ & Pos).
  destruct (list_eq_dec Req_dec_T h (repeat 0 n)) as [Zh | Nh].
  - right.
    assert (Eb : b = 0).
    { unfold b. destruct PD as (_ & Sym & _). rewrite (Sym u h) by assumption.
      rewrite Zh. apply dot_zero. }
    assert (Ec : c = 0) by (unfold c; rewrite Zh at 1; apply dot_zero).
    rewrite Eb, Ec. split; [ring|]. intro w. ring.
  - assert (Pc : 0 < c) by (apply Pos; assumption).
    destruct (list_eq_dec Req_dec_T z (repeat 0 n)) as [Zz | Nz].
    + right. rewrite Zz, dot_zero in E.
      split.
      * assert (E' : c * (a * c - b * b) = 0) by (rewrite E; ring).
        apply Rmult_integral in E'. destruct E' as [E' | E']; lra.
      * intro w. specialize (Hc w). rewrite Zz, dot_zero in Hc. lra.
    + left. specialize (Pos z Hz Nz). rewrite E in Pos.
      assert (P' : 0 < c * (a * c - b * b)).
      { replace (c * (a * c - b * b)) with (c * c * a - 2 * c * b * b + b * b * c) by ring.
        exact Pos. }
      apply Rmult_lt_reg_l with (r := c); [exact Pc|]. lra.
Qed.

End Form.

(** In exact arithmetic the update keeps [B] positive definite when
    [h^T y > 0]. *)
Lemma update_B_positive_definite n B h y :
  positive_definite n B -> length h = n -> length y = n -> 0 < dot h y ->
  positive_definite n (update_B B h y).
Proof.
  intros PD Hh Hy Hhy.
  pose proof PD as (Sq & Sym & Pos).
  assert (Hv : length (mulVec B h) = n) by (rewrite length_mulVec; apply Sq).
  split; [|split].
  - unfold update_B. cbv zeta. auto using square_rankUpdate.
  - intros u w Hu Hw. rewrite !(form_update_B n) by assumption.
    rewrite (Sym u w) by assumption.
    rewrite (dot_comm (mulVec B h) w), (dot_comm (mulVec B h) u).
    rewrite (dot_comm y w), (dot_comm y u). ring.
  - intros u Hu Nu. rewrite (form_update_B n) by assumption.
    rewrite (dot_comm (mulVec B h) u), (dot_comm y u).
    assert (Nh : h <> repeat 0 n).
    { intro Z. rewrite Z, dot_zero in Hhy. lra. }
    pose proof (Pos h Hh Nh) as Pc. pose proof (Pos u Hu Nu) as Pa.
    pose proof (form_Cauchy_Schwarz n B PD u h Hu Hh) as CS. cbv zeta in CS.
    set (a := dot u (mulVec B u)) in *.
    set (b := dot u (mulVec B h)) in *.
    set (c := dot h (mulVec B h)) in *.
    set (t := dot u y) in *. set (e := dot h y) in *.
    replace (a + -1 / c * b * b + 1 / e * t * t) with ((a * c - b * b) / c + t * t / e)
      by (field; lra).
    assert (T : 0 <= t * t) by apply Rle_0_sqr.
    destruct CS as [Lt | [Eq Par]].
    + assert (0 < (a * c - b * b) / c) by (apply Rdiv_lt_0_compat; lra).
      assert (0 <= t * t / e)
        by (apply Rmult_le_pos; [exact T | left; apply Rinv_0_lt_compat; exact Hhy]).
      lra.
    + specialize (Par y). fold t e in Par.
      assert (Nb : b <> 0).
      { intro Z. rewrite Z in Eq. assert (a * c = 0) by lra.
        apply Rmult_integral in H. lra. }
      assert (Nt : t <> 0).
      { intro Z. rewrite Z in Par. assert (b * e = 0) by lra.
        apply Rmult_integral in H. lra. }
      replace (a * c - b * b) with 0 by lra.
      assert (0 < t * t) by (destruct (Rtotal_order t 0) as [|[|]]; [nra|lra|nra]).
      assert (0 < t * t / e) by (apply Rdiv_lt_0_compat; assumption).
      unfold Rdiv at 1. lra.
Qed.

(** The identity of size two is positive definite. *)
Lemma identity_positive_definite : positive_definite 2 [[1; 0]; [0; 1]].
Proof.
  split; [|split].
  - split; [reflexivity | repeat constructor].
  - intros [|a [|b [|? ?]]] [|c [|d [|? ?]]]; try discriminate. intros _ _.
    cbn [mulVec map dot]. ring.
  - intros [|a [|b [|? ?]]]; try discriminate. intros _ N.
    cbn [mulVec map dot].
    destruct (Req_dec a 0) as [Za | Na]; [destruct (Req_dec b 0) as [Zb | Nb]|].
    + subst. contradiction N. reflexivity.
    + assert (0 < b * b) by (destruct (Rtotal_order b 0) as [|[|]]; [nra|lra|nra]). nra.
    + assert (0 < a * a) by (destruct (Rtotal_order a 0) as [|[|]]; [nra|lra|nra]). nra.
Qed.

End ExactFacts.




(** * The eigen-mode solver: rank, and the identity (C8) *)

Module FiniteFacts.

Lemma iter_shr_52 (m : positive) :
  iter_pos shr_1 52 {| shr_m := Z.pos (4503599627370496 * m); shr_r := false; shr_s := false |}
  = {| shr_m := Z.pos m; shr_r := false; shr_s := false |}.
Proof. reflexivity. Qed.

Lemma digits_shift_52 (m : positive) :
  Z.pos (digits2_pos (4503599627370496 * m)) = (Z.pos (digits2_pos m) + 52)%Z.
Proof. cbn. lia. Qed.

(** The product of [1] and a finite number is that number, exactly. *)
Lemma SFmul_1_l (s : bool) (m : positive) (e : Z) :
  bounded prec emax m e = true ->
  SFmul prec emax (Prim2SF 1) (S754_finite s m e) = S754_finite s m e.
Proof.
  intro Hb. change (Prim2SF 1) with (S754_finite false 4503599627370496 (-52)).
  unfold bounded, canonical_mantissa in Hb.
  apply andb_true_iff in Hb. destruct Hb as [Hc He].
  apply Z.eqb_eq in Hc.
  unfold SFmul, binary_round_aux, shr_fexp.
  unfold Zdigits2. rewrite digits_shift_52.
  replace (Z.pos (digits2_pos m) + 52 + (-52 + e))%Z with (Z.pos (digits2_pos m) + e)%Z by lia.
  rewrite Hc.
  replace (e - (-52 + e))%Z with 52%Z by lia.
  unfold shr_record_of_loc. cbv beta iota. unfold shr at 1. rewrite iter_shr_52.
  cbv beta iota.
  replace (-52 + e + 52)%Z with e by lia.
  cbn [shr_m loc_of_shr_record shr_r shr_s round_nearest_even].
  rewrite Hc. rewrite Z.sub_diag. cbn [shr shr_m].
  rewrite He. destruct s; reflexivity.
Qed.

Lemma mul_1_l (a : float) : finite a -> 1 * a = a.
Proof.
  unfold finite. intro H. apply Prim2SF_eq. rewrite mul_spec. unfold SF64mul.
  pose proof (Prim2SF_valid a) as V.
  destruct (Prim2SF a) as [s|s| |s m e]; try contradiction.
  - destruct s; reflexivity.
  - apply SFmul_1_l. exact V.
Qed.

Lemma mul_0_l (a : float) : finite a -> zero_valued (0 * a).
Proof.
  unfold finite, zero_valued. intro H. rewrite mul_spec. unfold SF64mul.
  change (Prim2SF 0) with (S754_zero false).
  destruct (Prim2SF a); try contradiction; exact I.
Qed.

Lemma same_value_refl a : same_value a a.
Proof. left. reflexivity. Qed.

(** Adding a zero does not change the value. *)
Lemma add_zero_r (a b z : float) : same_value a b -> zero_valued z -> same_value (a + z) b.
Proof.
  unfold same_value, zero_valued. intros H Hz.
  assert (K : a + z = a \/ (zero_valued (a + z) /\ zero_valued a)).
  { unfold zero_valued. rewrite add_spec. unfold SF64add.
    destruct (Prim2SF z) as [sz| | | ] eqn:Ez; try contradiction.
    destruct (Prim2SF a) as [sa|sa| |sa ma ea] eqn:Ea.
    - right. simpl. destruct sa, sz; auto.
    - left. apply Prim2SF_eq. rewrite add_spec, Ea, Ez. reflexivity.
    - left. apply Prim2SF_eq. rewrite add_spec, Ea, Ez. reflexivity.
    - left. apply Prim2SF_eq. rewrite add_spec, Ea, Ez. reflexivity. }
  destruct K as [K | [K1 K2]].
  - rewrite K. exact H.
  - destruct H as [H | [H1 H2]]; [subst b; right; auto | right; auto].
Qed.

(** Adding to a zero gives the value added. *)
Lemma add_zero_l (z a : float) : zero_valued z -> same_value (z + a) a.
Proof.
  unfold same_value, zero_valued. intro Hz. rewrite add_spec. unfold SF64add.
  destruct (Prim2SF z) as [sz| | | ] eqn:Ez; try contradiction.
  destruct (Prim2SF a) as [sa|sa| |sa ma ea] eqn:Ea.
  - right. destruct sz, sa; auto.
  - left. apply Prim2SF_eq. rewrite add_spec, Ea, Ez. reflexivity.
  - left. apply Prim2SF_eq. rewrite add_spec, Ea, Ez. reflexivity.
  - left. apply Prim2SF_eq. rewrite add_spec, Ea, Ez. reflexivity.
Qed.

Lemma same_value_eqb (a b : float) : finite b -> same_value a b -> (a =? b) = true.
Proof.
  unfold finite, same_value, zero_valued. intros Hb [H | [H1 H2]]; rewrite eqb_spec; unfold SFeqb.
  - subst a. rewrite SFcompare_refl; [reflexivity|].
    destruct (Prim2SF b); try contradiction; discriminate.
  - destruct (Prim2SF a); try contradiction. destruct (Prim2SF b); try contradiction.
    reflexivity.
Qed.

Lemma finite_opp (a : float) : finite a -> finite (- a).
Proof.
  unfold finite. rewrite opp_spec. destruct (Prim2SF a); simpl; auto.
Qed.

End FiniteFacts.
Import FiniteFacts.

Module IdentityFacts.

Lemma Identity_rows n : Identity n = map (fun i => unit_row i 0 n) (seq 0 n).
Proof. reflexivity. Qed.

Lemma length_unit_row i a m : length (unit_row i a m) = m.
Proof. unfold unit_row. rewrite length_map, length_seq. reflexivity. Qed.

Lemma tail_full (u : Vector) : tail (length u) u = u.
Proof. unfold tail. rewrite Nat.sub_diag. reflexivity. Qed.

Lemma rightCols_Identity n : rightCols n (Identity n) = Identity n.
Proof.
  rewrite Identity_rows. unfold rightCols. rewrite map_map. apply map_ext.
  intro i. rewrite <- (length_unit_row i 0 n) at 1. apply tail_full.
Qed.

Lemma ones_inverse n : map (fun l => 1 / l) (tail n (repeat 1 n)) = repeat 1 n.
Proof.
  rewrite <- (repeat_length 1 n) at 1. rewrite tail_full.
  induction n as [|n IH]; simpl; [reflexivity|]. rewrite IH. reflexivity.
Qed.

Lemma unit_row_scaled i a m : zipWith mul (unit_row i a m) (repeat 1 m) = unit_row i a m.
Proof.
  unfold unit_row. revert a. induction m as [|m IH]; intro a; simpl; [reflexivity|].
  rewrite IH. destruct (Nat.eqb i a); reflexivity.
Qed.

Lemma mulDiag_Identity n : mulDiag (Identity n) (repeat 1 n) = Identity n.
Proof.
  rewrite Identity_rows. unfold mulDiag. rewrite map_map. apply map_ext.
  intro i. apply unit_row_scaled.
Qed.

(** Sums of products of zeros and ones. *)
Lemma fold_unit_products i j a m acc :
  (acc = 0 \/ acc = 1) ->
  (acc = 1 -> forall k, In k (seq a m) -> (Nat.eqb i k && Nat.eqb j k) = false) ->
  (forall k k', In k (seq a m) -> In k' (seq a m) ->
                (Nat.eqb i k && Nat.eqb j k) = true -> (Nat.eqb i k' && Nat.eqb j k') = true ->
                k = k') ->
  fold_left add (zipWith mul (unit_row i a m) (unit_row j a m)) acc
  = if existsb (fun k => Nat.eqb i k && Nat.eqb j k) (seq a m) then 1 else acc.
Proof.
  unfold unit_row. revert a acc. induction m as [|m IH]; intros a acc Hacc H1 Huniq; simpl.
  - reflexivity.
  - destruct (Nat.eqb i a && Nat.eqb j a) eqn:E.
    + assert (Hacc0 : acc = 0).
      { destruct Hacc as [->| ->]; [reflexivity|].
        rewrite (H1 eq_refl a) in E by (left; reflexivity). discriminate. }
      subst acc. apply andb_true_iff in E. destruct E as [E1 E2]. rewrite E1, E2. simpl.
      change (0 + 1 * 1) with 1.
      rewrite IH; [destruct (existsb _ _); reflexivity | right; reflexivity | |].
      * intros _ k Hk. destruct (Nat.eqb i k && Nat.eqb j k) eqn:Ek; [|reflexivity].
        assert (k = a).
        { apply Huniq; [right; exact Hk | left; reflexivity | exact Ek |].
          rewrite E1, E2. reflexivity. }
        subst k. apply in_seq in Hk. lia.
      * intros k k' Hk Hk'. apply Huniq; right; assumption.
    + simpl.
      assert (Ez : (acc + (if Nat.eqb i a then 1 else 0) * (if Nat.eqb j a then 1 else 0)) = acc).
      { destruct (Nat.eqb i a), (Nat.eqb j a); try discriminate;
          destruct Hacc as [->| ->]; reflexivity. }
      rewrite Ez. apply IH; [exact Hacc | |].
      * intros Ha k Hk. apply (H1 Ha). right. exact Hk.
      * intros k k' Hk Hk'. apply Huniq; right; assumption.
Qed.

Lemma dot_unit_rows i j n :
  (i < n)%nat -> (j < n)%nat ->
  dot (unit_row i 0 n) (unit_row j 0 n) = if Nat.eqb i j then 1 else 0.
Proof.
  intros Hi Hj. unfold dot, vsum.
  destruct n as [|n]; [lia|].
  change (unit_row i 0 (S n)) with ((if Nat.eqb i 0 then 1 else 0) :: unit_row i 1 n).
  change (unit_row j 0 (S n)) with ((if Nat.eqb j 0 then 1 else 0) :: unit_row j 1 n).
  cbn [zipWith].
  assert (U : forall k k', (Nat.eqb i k && Nat.eqb j k) = true ->
                           (Nat.eqb i k' && Nat.eqb j k') = true -> k = k').
  { intros k k' H H'. apply andb_true_iff in H, H'. destruct H as [H _], H' as [H' _].
    apply Nat.eqb_eq in H, H'. congruence. }
  rewrite fold_unit_products.
  - destruct (existsb _ (seq 1 n)) eqn:Ex.
    + apply existsb_exists in Ex. destruct Ex as [k [Hk E]].
      apply andb_true_iff in E. destruct E as [E1 E2]. apply Nat.eqb_eq in E1, E2.
      subst. rewrite Nat.eqb_refl. reflexivity.
    + destruct (Nat.eqb i j) eqn:Eij.
      * apply Nat.eqb_eq in Eij. subst j. destruct i as [|i]; [reflexivity|].
        exfalso. assert (Hin : In (S i) (seq 1 n)) by (apply in_seq; lia).
        assert (C : existsb (fun k => Nat.eqb (S i) k && Nat.eqb (S i) k) (seq 1 n) = true).
        { apply existsb_exists. exists (S i). rewrite Nat.eqb_refl. auto. }
        rewrite C in Ex. discriminate Ex.
      * destruct i, j; try reflexivity. discriminate.
  - destruct (Nat.eqb i 0), (Nat.eqb j 0); auto.
  - intros Hone k Hk. destruct (Nat.eqb i 0) eqn:Ei, (Nat.eqb j 0) eqn:Ej;
      try (exfalso; apply (f_equal Prim2SF) in Hone; discriminate Hone).
    apply Nat.eqb_eq in Ei. subst i. apply in_seq in Hk.
    destruct k; [lia | reflexivity].
  - intros k k' _ _. apply U.
Qed.

Lemma mulAdjoint_Identity n : mulAdjoint (Identity n) (Identity n) = Identity n.
Proof.
  rewrite Identity_rows. unfold mulAdjoint. rewrite map_map. apply map_ext_in.
  intros i Hi. rewrite map_map. unfold unit_row at 3. apply map_ext_in. intros j Hj.
  apply in_seq in Hi, Hj. apply dot_unit_rows; lia.
Qed.

End IdentityFacts.

Module IdentityProduct.
Import IdentityFacts.

Lemma zero_add_zero (a b : float) : zero_valued a -> zero_valued b -> zero_valued (a + b).
Proof.
  unfold zero_valued. rewrite add_spec. unfold SF64add.
  destruct (Prim2SF a) as [sa| | | ]; try contradiction.
  destruct (Prim2SF b) as [sb| | | ]; try contradiction.
  destruct sa, sb; auto.
Qed.

Lemma unit_row_cons i a m :
  unit_row i a (S m) = (if Nat.eqb i a then 1 else 0) :: unit_row i (S a) m.
Proof. reflexivity. Qed.

(** Past column [i], the products with row [i] of the identity are zeros. *)
Lemma fold_no_hit i (w : Vector) : forall a acc b,
  Forall finite w -> (i < a)%nat -> same_value acc b ->
  same_value (fold_left add (zipWith mul (unit_row i a (length w)) w) acc) b.
Proof.
  induction w as [|c w IH]; intros a acc b Hw Hi Hacc; [simpl; exact Hacc|].
  cbn [length]. rewrite unit_row_cons. cbn [zipWith fold_left].
  inversion Hw as [|c' w' Hc Hw']; subst.
  replace (Nat.eqb i a) with false by (symmetry; apply Nat.eqb_neq; lia).
  apply IH; [exact Hw' | lia |]. apply add_zero_r; [exact Hacc | apply mul_0_l, Hc].
Qed.

Lemma fold_hit i (w : Vector) : forall a acc,
  Forall finite w -> (a <= i < a + length w)%nat -> zero_valued acc ->
  same_value (fold_left add (zipWith mul (unit_row i a (length w)) w) acc) (nth (i - a) w 0).
Proof.
  induction w as [|c w IH]; intros a acc Hw Hi Hacc; simpl in Hi; [lia|].
  cbn [length]. rewrite unit_row_cons. cbn [zipWith fold_left].
  inversion Hw as [|c' w' Hc Hw']; subst.
  destruct (Nat.eqb i a) eqn:E.
  - apply Nat.eqb_eq in E. subst a. rewrite Nat.sub_diag. cbn [nth].
    rewrite (mul_1_l c Hc). apply fold_no_hit; [exact Hw' | lia |].
    apply add_zero_l, Hacc.
  - apply Nat.eqb_neq in E. replace (i - a)%nat with (S (i - S a)) by lia. cbn [nth].
    apply IH; [exact Hw' | lia |]. apply zero_add_zero; [exact Hacc | apply mul_0_l, Hc].
Qed.

(** Row [i] of the identity picks the entry [i]. *)
Lemma dot_unit_row i (w : Vector) :
  Forall finite w -> (i < length w)%nat ->
  same_value (dot (unit_row i 0 (length w)) w) (nth i w 0).
Proof.
  intros Hw Hi. destruct w as [|c w]; [simpl in Hi; lia|].
  unfold dot. cbn [length]. rewrite unit_row_cons. cbn [zipWith vsum].
  inversion Hw as [|c' w' Hc Hw']; subst.
  destruct i as [|i].
  - cbn [Nat.eqb nth]. rewrite (mul_1_l c Hc).
    apply fold_no_hit; [exact Hw' | lia | apply same_value_refl].
  - cbn [Nat.eqb nth]. replace i with (S i - 1)%nat at 2 by lia.
    apply fold_hit; [exact Hw' | simpl in Hi; lia | apply mul_0_l, Hc].
Qed.

Lemma Forall2_map_seq (R : float -> float -> Prop) (fn : nat -> float) (w : Vector) : forall a,
  (forall k, (k < length w)%nat -> R (fn (a + k)%nat) (nth k w 0)) ->
  Forall2 R (map fn (seq a (length w))) w.
Proof.
  induction w as [|c w IH]; intros a H; simpl; constructor.
  - specialize (H 0%nat). rewrite Nat.add_0_r in H. apply H. simpl. lia.
  - apply IH. intros k Hk. replace (S a + k)%nat with (a + S k)%nat by lia.
    apply (H (S k)). simpl. lia.
Qed.

Lemma Forall_nth_finite (w : Vector) k : Forall finite w -> (k < length w)%nat -> finite (nth k w 0).
Proof.
  intros Hw Hk. rewrite Forall_forall in Hw. apply Hw, nth_In, Hk.
Qed.

(** The identity times a vector of finite numbers is that vector. *)
Lemma mulVec_Identity (w : Vector) :
  Forall finite w ->
  Forall2 (fun a b => (a =? b) = true) (mulVec (Identity (length w)) w) w.
Proof.
  intro Hw. rewrite Identity_rows. unfold mulVec. rewrite map_map.
  apply Forall2_map_seq. intros k Hk. simpl.
  apply same_value_eqb; [apply Forall_nth_finite; assumption|].
  apply dot_unit_row; assumption.
Qed.

End IdentityProduct.

Section Rank.
Variable lib : NumLib.

Lemma scan_bounds ev thr r : forall fuel i,
  (0 <= i <= r)%Z -> (i <= scan ev thr r fuel i <= r)%Z.
Proof.
  induction fuel as [|fuel IH]; intros i Hi; simpl; [lia|].
  destruct ((i <? r)%Z && (coeffZ ev i <? thr)) eqn:E; [|lia].
  apply andb_true_iff in E. destruct E as [E _]. apply Z.ltb_lt in E.
  specialize (IH (i + 1)%Z). lia.
Qed.

Lemma rank_solve s m :
  useCholesky (ctrl s) = false ->
  (0 <= rank (solve lib s m) <= Z.of_nat (getParameterSize (obj s)))%Z.
Proof.
  intro Hc. unfold solve. rewrite Hc. cbv zeta.
  destruct (eigh_compute lib m) as [ev V]. simpl.
  match goal with |- context [scan ?e ?t ?r ?fu ?i] =>
    pose proof (scan_bounds e t r fu i) as H end.
  lia.
Qed.

Lemma coeffZ_ones n k : (0 <= k < Z.of_nat n)%Z -> coeffZ (repeat 1 n) k = 1.
Proof.
  intro Hk. unfold coeffZ, coeff.
  replace (k <? 0)%Z with false by (symmetry; apply Z.ltb_ge; lia).
  apply nth_error_nth. rewrite nth_error_repeat by lia. reflexivity.
Qed.

Lemma scan_ones n :
  scan (repeat 1 n) (coeffZ (repeat 1 n) (Z.of_nat n - 1) * epsilon) (Z.of_nat n)
       (Z.to_nat (Z.of_nat n)) 0 = 0%Z.
Proof.
  destruct n as [|n]; [reflexivity|].
  rewrite Nat2Z.id. cbn [scan].
  rewrite !coeffZ_ones by lia.
  replace (1 <? 1 * epsilon) with false by reflexivity.
  rewrite andb_false_r. reflexivity.
Qed.

End Rank.

(** C8, as the code has it.  In eigen mode ([useCholesky] false) the rank
    that [solve] reports lies between [0] and the number [n] of parameters,
    whatever matrix it is given.  For the identity, whose decomposition is
    the eigenvalues [1] and the identity as eigenvectors, the rank is [n]
    and, when [g] is a vector of [n] finite numbers, every entry of [h]
    equals ([==]) that of [-g]. *)
Theorem eigen_solver_rank (lib : NumLib) :
  (forall s m,
     useCholesky (ctrl s) = false ->
     (0 <= rank (solve lib s m) <= Z.of_nat (getParameterSize (obj s)))%Z)
  /\ (forall s,
        let n := getParameterSize (obj s) in
        useCholesky (ctrl s) = false ->
        eigh_compute lib (Identity n) = (repeat 1 n, Identity n) ->
        length (g s) = n -> Forall finite (g s) ->
        rank (solve lib s (Identity n)) = Z.of_nat n
        /\ Forall2 (fun a b => (a =? b) = true) (h (solve lib s (Identity n))) (vneg (g s))).
Proof.
  split; [apply rank_solve|].
  intros s n Hc He Hl Hg. unfold solve. rewrite Hc. cbv zeta. fold n. rewrite He.
  cbn [rank set_rank set_h h g obj].
  fold n. rewrite scan_ones, Z.sub_0_r, Nat2Z.id.
  split; [reflexivity|].
  rewrite IdentityFacts.rightCols_Identity, IdentityFacts.ones_inverse,
    IdentityFacts.mulDiag_Identity, IdentityFacts.mulAdjoint_Identity.
  assert (Hn : n = length (vneg (g s))) by (unfold vneg; rewrite length_map; auto).
  rewrite Hn. apply IdentityProduct.mulVec_Identity.
  unfold vneg. rewrite Forall_forall in *. intros a Ha. apply in_map_iff in Ha.
  destruct Ha as [b [<- Hb]]. apply finite_opp, Hg, Hb.
Qed.

Lemma eigen_solver_rank_witness :
  let s := new_Impl plane [1; 1] (control 1 false) in
  rank (solve small_lib s (Identity 2)) = 2%Z
  /\ Forall2 (fun a b => (a =? b) = true) (h (solve small_lib s (Identity 2))) (vneg (g s)).
Proof.
  assert (Hg : Forall finite (g (new_Impl plane [1; 1] (control 1 false)))).
  { assert (E : g (new_Impl plane [1; 1] (control 1 false)) = [2; 2])
      by (vm_compute; reflexivity).
    rewrite E. repeat (constructor; [exact I|]). constructor. }
  exact (proj2 (eigen_solver_rank small_lib) (new_Impl plane [1; 1] (control 1 false))
           eq_refl eq_refl eq_refl Hg).
Defined.

(** C8, as stated, fails when an entry of [g] is infinite.  On the objective
    [steep] the constructor leaves [g = (inf, 1)].  Given the identity, the
    eigen-mode solver reports rank [2], but the product of the identity with
    [-g] adds [0 * -inf] to [1 * -1]: the second entry of [h] is NaN, that
    of [-g] is [-1]. *)
Lemma identity_and_infinite_gradient :
  let s := new_Impl steep [1; 1] (control 1 false) in
  let r := solve small_lib s (Identity 2) in
  useCholesky (ctrl s) = false
  /\ eigh_compute small_lib (Identity 2) = (repeat 1 2, Identity 2)
  /\ g s = [infinity; 1]
  /\ rank r = 2%Z
  /\ coeff (vneg (g s)) 1 = -1
  /\ is_nan (coeff (h r) 1) = true
  /\ (coeff (h r) 1 =? coeff (vneg (g s)) 1) = false.
Proof. vm_compute. repeat split. Qed.

(** * Further properties: the whole of [step], [run] and the accessors

    What follows describes the rest of the engine: what each call leaves
    unchanged, when the iterate moves, which flags a call can raise, how
    often the objective is asked, and what the driver [run] adds to
    [step]. *)

(** ** What [step] assigns once the proposal is evaluated *)

Section Conclusion.
Variable F : StateFlags.
Variable lib : NumLib.

(** What [step] assigns once the proposal is evaluated: everything but
    [obj], [ctrl], [rank], [h], the trial members and the record of calls. *)
Local Abbreviation concluded s r :=
  (exists xx ff qq jj gg nf ng yy vv BB a c m n dl me st,
     r = set_state (set_method (set_delta (set_nu (set_mu (set_count (set_A (set_B (set_v
           (set_y (set_normInfG (set_normInfF (set_g (set_J (set_Q (set_f (set_x s xx) ff)
           qq) jj) gg) nf) ng) yy) vv) BB) a) c) m) n) dl) me) st).

Lemma finish_shape s nH d nG b1 b2 : concluded s (finish F s nH d nG b1 b2).
Proof.
  unfold finish. destruct (evaluable d); cbn [negb]; cbv zeta.
  - destruct (update_B_shape s) as (vv & BB & ->).
    destruct b1.
    + match goal with |- context [commit F ?t nG] =>
        destruct (commit_shape F t nG) as (st' & ->) end.
      destruct b2.
      * match goal with |- context [switch_method ?t nH] =>
          destruct (switch_method_shape t nH) as (a' & d' & m' & ->) end.
        destruct s. members. do 17 eexists. reflexivity.
      * destruct s. members. do 17 eexists. reflexivity.
    + destruct b2.
      * match goal with |- context [switch_method ?t nH] =>
          destruct (switch_method_shape t nH) as (a' & d' & m' & ->) end.
        destruct s. members. do 17 eexists. reflexivity.
      * destruct s. members. do 17 eexists. reflexivity.
  - destruct s. members. do 17 eexists. reflexivity.
Qed.

Lemma tail_shape s nH d nG :
  concluded s (leave ('(s4, isBetter, shouldSwitchMethod) <- adjust F lib s nH nG ;;
                      Next (finish F s4 nH d nG isBetter shouldSwitchMethod))).
Proof.
  pose proof (adjust_shape F lib s nH nG) as Ha.
  destruct (adjust F lib s nH nG) as [r | [[s4 b1] b2]]; cbn [bind leave];
    destruct Ha as (a & c & m & n & dl & st & ->).
  - destruct s. members. do 17 eexists. reflexivity.
  - match goal with |- context [finish F ?t nH d nG b1 b2] =>
      destruct (finish_shape t nH d nG b1 b2)
        as (xx & ff & qq & jj & gg & nf & ng & yy & vv & BB & a' & c' & m' & n' & dl' & me
            & st' & ->) end.
    destruct s. members. do 17 eexists. reflexivity.
Qed.

(** [step] never assigns the objective or the control. *)
Lemma step_static s : obj (step F lib s) = obj s /\ ctrl (step F lib s) = ctrl s.
Proof.
  destruct (trial F lib s) as [[[[s3 nH] d] nG]|] eqn:Et.
  - rewrite (trial_Some F lib _ _ _ _ _ Et).
    pose proof (trial_untouched F lib _ _ _ _ _ Et) as U. unfold untouched in U.
    destruct U as (U1 & U2 & _). rewrite <- U1, <- U2.
    destruct (tail_shape s3 nH d nG)
      as (xx & ff & qq & jj & gg & nf & ng & yy & vv & BB & a' & c' & m' & n' & dl' & me
          & st' & ->).
    split; reflexivity.
  - pose proof (step_no_trial F lib s Et) as U. unfold untouched in U. tauto.
Qed.

Lemma run_loop_static todo s :
  obj (fst (run_loop F lib todo s)) = obj s /\ ctrl (fst (run_loop F lib todo s)) = ctrl s.
Proof.
  revert s. induction todo as [|todo IH]; intro s; cbn [run_loop].
  - split; reflexivity.
  - destruct (step_static s) as [E1 E2].
    destruct (any_bit (state (step F lib s)) (FINISHED F)); cbn [fst]; [tauto|].
    destruct (IH (step F lib s)) as [H1 H2]. split; congruence.
Qed.

Lemma exec_static cs s : obj (exec F lib cs s) = obj s /\ ctrl (exec F lib cs s) = ctrl s.
Proof.
  revert s. induction cs as [|c cs IH]; intro s; [split; reflexivity|].
  unfold exec. cbn [fold_left]. fold (exec F lib cs (exec_call F lib s c)).
  destruct (IH (exec_call F lib s c)) as [H1 H2]. rewrite H1, H2.
  destruct c; cbn [exec_call].
  - unfold HybridOptimizer_step. cbn [fst]. apply step_static.
  - unfold run. apply run_loop_static.
Qed.

End Conclusion.

(** X2.  No call assigns the objective or the control: after any sequence of
    [step()] and [run()] calls [getObjective] and [getControl] return what the
    constructor was given.  (So the bound [maxIter] that [run] reads at each
    round is one number.) *)
Theorem objective_and_control_are_fixed (F : StateFlags) (lib : NumLib)
    (objective : Objective) (parameters : Vector) (control : HybridOptimizerControl)
    (cs : list DriverCall) :
  let s := exec F lib cs (new_HybridOptimizer objective parameters control) in
  getObjective s = objective /\ getControl s = control.
Proof.
  intro s. subst s. unfold new_HybridOptimizer, getObjective, getControl.
  destruct (exec_static F lib cs (new_Impl objective parameters control)) as [-> ->].
  split; reflexivity.
Qed.

(** ** The committed iterate is consistent *)

Lemma coherent_new objective parameters ctl : coherent (new_Impl objective parameters ctl).
Proof. vm_compute. repeat split. Qed.

Section Consistency.
Variable F : StateFlags.
Variable lib : NumLib.

Lemma trial_evaluated s s3 nH d nG :
  trial F lib s = Some (s3, nH, d, nG) ->
  evaluable d = true ->
  evaluated s3
  /\ (is_BFGS (method s3) || (QNew s3 <? Q s3) = true ->
      gNew s3 = mulVec (adjoint (getParameterSize (obj s3)) (JNew s3)) (fNew s3)
      /\ nG = lpNormInf (gNew s3)).
Proof.
  unfold trial.
  destruct (direction F lib s) as [r | [s1 n1]]; [discriminate|].
  destruct (vet F s1 n1) as [r | [[s2 n2] d2]]; [discriminate|].
  pose proof (evaluate_evaluated s2 d2) as H.
  pose proof (evaluate_untouched s2 d2) as U. unfold untouched in U.
  destruct (evaluate s2 d2) as [s3' nG']. cbn [fst snd] in H, U.
  intro E. injection E as -> -> -> ->. intro Hd. destruct (H Hd) as [H1 H2].
  split; [exact H1|].
  assert (Em : method s3 = method s2) by tauto. assert (EQ : Q s3 = Q s2) by tauto.
  assert (Eo : obj s3 = obj s2) by tauto.
  rewrite Em, EQ, Eo. exact H2.
Qed.

(** The part of [step] that follows the evaluation keeps the committed
    iterate consistent. *)
Lemma tail_coherent s3 nH d nG :
  coherent s3 ->
  (evaluable d = true ->
   evaluated s3
   /\ (is_BFGS (method s3) || (QNew s3 <? Q s3) = true ->
       gNew s3 = mulVec (adjoint (getParameterSize (obj s3)) (JNew s3)) (fNew s3)
       /\ nG = lpNormInf (gNew s3))) ->
  coherent (leave ('(s4, isBetter, shouldSwitchMethod) <- adjust F lib s3 nH nG ;;
                   Next (finish F s4 nH d nG isBetter shouldSwitchMethod))).
Proof.
  intros C He.
  pose proof (adjust_shape F lib s3 nH nG) as Ha.
  destruct (adjust F lib s3 nH nG) as [r | [[s4 b1] b2]] eqn:Ea; cbn [bind leave].
  - destruct Ha as (a & c & m & n & dl & st & ->).
    unfold coherent in *. destruct s3. members. members_in C. exact C.
  - destruct (adjust_Next F lib _ _ _ _ _ _ Ea) as [_ [_ Eb]].
    destruct Ha as (a & c & m & n & dl & st & ->).
    destruct (evaluable d) eqn:Hd.
    + rewrite (finish_evaluated F _ nH d nG b1 b2 Hd). cbv zeta.
      specialize (He eq_refl). destruct He as [Ev Eg].
      match goal with |- context [update_B ?t] =>
        destruct (update_B_shape t) as (vv & BB & ->) end.
      destruct b1.
      * assert (K : is_BFGS (method s3) || (QNew s3 <? Q s3) = true).
        { destruct (method s3); [simpl; symmetry; exact Eb | reflexivity]. }
        destruct (Eg K) as [G1 G2]. clear Eg K Eb.
        match goal with |- context [commit F ?t nG] =>
          destruct (commit_shape F t nG) as (st' & ->) end.
        destruct b2.
        -- match goal with |- context [switch_method ?t nH] =>
             destruct (switch_method_shape t nH) as (a' & d' & m' & ->) end.
           unfold coherent, evaluated in *. destruct s3. members.
           members_in Ev. members_in G1. members_in G2.
           destruct Ev as [E1 [E2 E3]]. rewrite <- G2, <- G1, <- E3, <- E2, <- E1.
           repeat split.
        -- unfold coherent, evaluated in *. destruct s3. members.
           members_in Ev. members_in G1. members_in G2.
           destruct Ev as [E1 [E2 E3]]. rewrite <- G2, <- G1, <- E3, <- E2, <- E1.
           repeat split.
      * destruct b2.
        -- match goal with |- context [switch_method ?t nH] =>
             destruct (switch_method_shape t nH) as (a' & d' & m' & ->) end.
           unfold coherent in *. destruct s3. members. members_in C. exact C.
        -- unfold coherent in *. destruct s3. members. members_in C. exact C.
    + unfold finish. rewrite Hd. cbn [negb].
      unfold coherent in *. destruct s3. members. members_in C. exact C.
Qed.

Lemma step_coherent s : coherent s -> coherent (step F lib s).
Proof.
  intro C. destruct (trial F lib s) as [[[[s3 nH] d] nG]|] eqn:Et.
  - rewrite (trial_Some F lib _ _ _ _ _ Et). apply tail_coherent.
    + exact (coherent_untouched _ _ (trial_untouched F lib _ _ _ _ _ Et) C).
    + exact (trial_evaluated _ _ _ _ _ Et).
  - exact (coherent_untouched _ _ (step_no_trial F lib s Et) C).
Qed.

Lemma run_loop_coherent todo s : coherent s -> coherent (fst (run_loop F lib todo s)).
Proof.
  revert s. induction todo as [|todo IH]; intros s C; cbn [run_loop].
  - cbn [fst]. unfold coherent in *. destruct s. members. members_in C. exact C.
  - destruct (any_bit (state (step F lib s)) (FINISHED F)); cbn [fst];
      [|apply IH]; apply step_coherent, C.
Qed.

Lemma exec_coherent cs s : coherent s -> coherent (exec F lib cs s).
Proof.
  revert s. induction cs as [|c cs IH]; intros s C; [exact C|].
  unfold exec. cbn [fold_left]. apply IH. destruct c; cbn [exec_call].
  - unfold HybridOptimizer_step. cbn [fst]. apply step_coherent, C.
  - unfold run. apply run_loop_coherent, C.
Qed.

End Consistency.

(** X3.  After the constructor and after any sequence of [step()] and [run()]
    calls, the committed members describe one point: [f] and [J] are the
    residuals and the Jacobian of the objective at [x], [Q] is half the
    squared norm of [f] (so [getChiSq] is twice that), [g] is [J^T f], and the
    two norms are the infinity norms of [f] and [g].  A rejected or
    interrupted step never leaves them half updated. *)
Theorem committed_iterate_is_consistent (F : StateFlags) (lib : NumLib)
    (objective : Objective) (parameters : Vector) (control : HybridOptimizerControl)
    (cs : list DriverCall) :
  let s := exec F lib cs (new_HybridOptimizer objective parameters control) in
  getFunction s = computeFunction objective (getParameters s)
  /\ J s = computeDerivative objective (getParameters s) (getFunction s)
  /\ getChiSq s = 2 * (0.5 * squaredNorm (getFunction s))
  /\ g s = mulVec (adjoint (getParameterSize objective) (J s)) (getFunction s)
  /\ getFunctionInfNorm s = lpNormInf (getFunction s)
  /\ getGradientInfNorm s = lpNormInf (g s).
Proof.
  intro s. subst s. unfold new_HybridOptimizer.
  pose proof (exec_coherent F lib cs _ (coherent_new objective parameters control)) as C.
  destruct (exec_static F lib cs (new_Impl objective parameters control)) as [Eo _].
  unfold coherent in C. rewrite Eo in C.
  change (obj (new_Impl objective parameters control)) with objective in C.
  unfold getFunction, getParameters, getChiSq, getFunctionInfNorm, getGradientInfNorm.
  destruct C as (C1 & C2 & C3 & C4 & C5 & C6).
  rewrite <- C3. repeat split; assumption.
Qed.

(** X4.  When the proposal of a step is evaluated, the trial accessors
    describe it when the step returns, accepted or not: [getTrialFunction] is
    the objective at [getTrialParameters], [JNew] its Jacobian there, and
    [getTrialChiSq] twice half the squared norm of the trial residuals. *)
Theorem trial_accessors_describe_the_evaluated_proposal
    (F : StateFlags) (lib : NumLib) (s : Impl) :
  evaluates F lib s = true ->
  let s' := step F lib s in
  getTrialFunction s' = computeFunction (getObjective s') (getTrialParameters s')
  /\ JNew s' = computeDerivative (getObjective s') (getTrialParameters s')
                 (getTrialFunction s')
  /\ getTrialChiSq s' = 2 * (0.5 * squaredNorm (getTrialFunction s')).
Proof.
  intros He s'. subst s'. unfold evaluates in He.
  destruct (trial F lib s) as [[[[s3 nH] d] nG]|] eqn:Et; [|discriminate He].
  destruct (trial_evaluated F lib _ _ _ _ _ Et He) as [(E1 & E2 & E3) _].
  rewrite (trial_Some F lib _ _ _ _ _ Et).
  destruct (tail_shape F lib s3 nH d nG)
    as (xx & ff & qq & jj & gg & nf & ng & yy & vv & BB & a' & c' & m' & n' & dl' & me
        & st' & ->).
  unfold getTrialFunction, getObjective, getTrialParameters, getTrialChiSq.
  destruct s3. members. members_in E1. members_in E2. members_in E3.
  rewrite E3. repeat split; assumption.
Qed.

Lemma trial_accessors_describe_the_evaluated_proposal_witness :
  let s := new_HybridOptimizer sigmoid [2] (control 0x1p-10 true) in
  let s' := step table_flags small_lib s in
  getTrialFunction s' = computeFunction (getObjective s') (getTrialParameters s').
Proof.
  refine (proj1 (trial_accessors_describe_the_evaluated_proposal table_flags small_lib
                   (new_HybridOptimizer sigmoid [2] (control 0x1p-10 true)) _)).
  vm_compute. reflexivity.
Defined.

(** ** How often the objective is asked *)

Section States.
Variable F : StateFlags.
Variable lib : NumLib.

(** The bitmask and the record of calls, piece by piece. *)
Lemma direction_state s :
  match direction F lib s with
  | Return r => state r = Z.lor (state s) (FAILURE_MINSTEP F) /\ calls r = calls s
  | Next (r, _) => state r = state s /\ calls r = calls s
  end.
Proof.
  destruct (solved_shape lib s) as [rr [h0 E]].
  destruct (direction_cases F lib s) as [-> | [hh ->]]; rewrite E; split; reflexivity.
Qed.

Lemma vet_state s nH :
  let d := fst (tryStep (obj s) (x s) (xNew s)) in
  match vet F s nH with
  | Return r =>
      d = MODIFIED
      /\ state r = Z.lor (Z.lor (state s) (STEP_MODIFIED F)) (FAILURE_MINSTEP F)
      /\ calls r = calls s ++ [CallTryStep]
  | Next (r, _, d') =>
      d' = d
      /\ state r = match d with
                   | MODIFIED => Z.lor (state s) (STEP_MODIFIED F)
                   | INVALID => Z.lor (state s) (STEP_INVALID F)
                   | VALID => Z.land (state s)
                                (Z.lnot (Z.lor (STEP_MODIFIED F) (STEP_INVALID F)))
                   end
      /\ calls r = calls s ++ [CallTryStep]
  end.
Proof.
  destruct s. cbv beta iota zeta delta [vet call_tryStep checkStep]. members.
  match goal with |- context [tryStep ?o ?a ?b] => destruct (tryStep o a b) as [d xn] end.
  destruct d; members; split_tests; repeat split.
Qed.

Lemma evaluate_calls s d :
  calls (fst (evaluate s d))
  = calls s ++ (if evaluable d then [CallComputeFunction; CallComputeDerivative] else []).
Proof.
  destruct s.
  cbv beta iota zeta delta [evaluate call_computeFunction call_computeDerivative]. members.
  destruct (evaluable d); cbv beta iota delta [andb]; split_tests; members;
    rewrite <- ?app_assoc, ?app_nil_r; reflexivity.
Qed.

(** [adjust] ends the step at the minimum-trust guard of the BFGS branch
    only. *)
Lemma adjust_state s nH nG :
  match adjust F lib s nH nG with
  | Return r =>
      method s = BFGS
      /\ state r = Z.lor (state s) (FAILURE_MINTRUST F)
      /\ delta r = delta s / 2
      /\ (delta r >? minStep (ctrl s) * (norm (x s) + minStep (ctrl s))) = false
  | Next (r, _, _) => state r = state s
  end.
Proof.
  destruct s.
  cbv beta iota zeta delta [adjust halve_delta checkStep rebuild_A]. members.
  match goal with |- context [match ?m with LM => _ | BFGS => _ end] => destruct m end;
    split_tests; try reflexivity; repeat split; assumption.
Qed.

Lemma finish_state s nH d nG b1 b2 :
  state (finish F s nH d nG b1 b2)
  = if evaluable d
    then if b1 then Z.lor (state (commit F (update_B s) nG)) (STEP_ACCEPTED F)
         else Z.land (state s) (Z.lnot (STEP_ACCEPTED F))
    else state s.
Proof.
  unfold finish. destruct (evaluable d); cbn [negb]; [|reflexivity]. cbv zeta.
  destruct b1, b2; unfold set_bits, clear_bits;
    cbn [state set_state]; rewrite ?state_switch_method, ?state_update_B; reflexivity.
Qed.

End States.

Section Calls.
Variable F : StateFlags.
Variable lib : NumLib.

Lemma tail_calls s nH d nG :
  calls (leave ('(s4, isBetter, shouldSwitchMethod) <- adjust F lib s nH nG ;;
                Next (finish F s4 nH d nG isBetter shouldSwitchMethod)))
  = calls s.
Proof.
  destruct (tail_shape F lib s nH d nG)
    as (xx & ff & qq & jj & gg & nf & ng & yy & vv & BB & a' & c' & m' & n' & dl' & me
        & st' & ->).
  reflexivity.
Qed.

Lemma step_calls s :
  calls (step F lib s)
  = calls s
    ++ match proposal_result F lib s with
       | None => []
       | Some d =>
           CallTryStep
           :: match trial F lib s with
              | Some _ => if evaluable d
                          then [CallComputeFunction; CallComputeDerivative] else []
              | None => []
              end
       end.
Proof.
  unfold proposal_result, trial, step, step_flow.
  pose proof (direction_state F lib s) as H1.
  destruct (direction F lib s) as [r | [s1 nH]]; cbn [bind leave].
  { destruct H1 as [_ ->]. symmetry. apply app_nil_r. }
  destruct H1 as [_ E1]. rewrite <- E1.
  pose proof (vet_state F s1 nH) as H2. cbv zeta in H2.
  destruct (vet F s1 nH) as [r | [[s2 nH2] d]]; cbn [bind leave].
  { destruct H2 as (_ & _ & ->). reflexivity. }
  destruct H2 as (<- & _ & E2).
  unfold conclude.
  pose proof (evaluate_calls s2 d) as H3.
  destruct (evaluate s2 d) as [s3 nG]. cbn [fst] in H3.
  rewrite tail_calls, H3, E2, <- app_assoc. reflexivity.
Qed.

(** An INVALID or VALID answer is never followed by a guard before the
    acceptance test. *)
Lemma trial_of_result s d :
  proposal_result F lib s = Some d -> d <> MODIFIED -> trial F lib s <> None.
Proof.
  unfold proposal_result, trial.
  destruct (direction F lib s) as [r | [s1 nH]]; [discriminate|].
  pose proof (vet_state F s1 nH) as H2. cbv zeta in H2.
  destruct (vet F s1 nH) as [r | [[s2 nH2] d2]].
  - destruct H2 as (E & _). intros H Hd. injection H as <-. contradiction.
  - intros _ _. destruct (evaluate s2 d2). discriminate.
Qed.

End Calls.

(** X5.  One [step()] asks the objective at most once for each of its three
    operations, in the order [tryStep], [computeFunction],
    [computeDerivative]: nothing when the step ends at the first minimum-step
    guard, [tryStep] alone when the proposal is INVALID or when a MODIFIED
    proposal fails the second guard, all three otherwise. *)
Theorem objective_calls_of_a_step (F : StateFlags) (lib : NumLib) (s : Impl) :
  let s' := step F lib s in
  match proposal_result F lib s with
  | None => calls s' = calls s
  | Some INVALID => calls s' = calls s ++ [CallTryStep]
  | Some VALID =>
      calls s' = calls s ++ [CallTryStep; CallComputeFunction; CallComputeDerivative]
  | Some MODIFIED =>
      match trial F lib s with
      | None => calls s' = calls s ++ [CallTryStep]
      | Some _ =>
          calls s' = calls s ++ [CallTryStep; CallComputeFunction; CallComputeDerivative]
      end
  end.
Proof.
  intro s'. subst s'. rewrite step_calls.
  destruct (proposal_result F lib s) as [d|] eqn:Ep; [|apply app_nil_r].
  destruct d.
  - destruct (trial F lib s); reflexivity.
  - pose proof (trial_of_result F lib s VALID Ep) as H.
    destruct (trial F lib s); [reflexivity|]. exfalso. apply H; [discriminate | reflexivity].
  - destruct (trial F lib s); reflexivity.
Qed.

(** ** When the iterate moves *)

Section Commit.
Variable F : StateFlags.
Variable lib : NumLib.

Lemma same_iterate_untouched s s' : untouched s s' -> same_iterate s s'.
Proof. unfold untouched, same_iterate. tauto. Qed.

Lemma same_iterate_trans a b c : same_iterate a b -> same_iterate b c -> same_iterate a c.
Proof.
  unfold same_iterate. intros H1 H2.
  repeat match goal with H : _ /\ _ |- _ => destruct H end.
  repeat split; congruence.
Qed.

(** The iterate after the part of [step] that follows the evaluation. *)
Lemma tail_commit s nH d nG :
  let r := leave ('(s4, isBetter, shouldSwitchMethod) <- adjust F lib s nH nG ;;
                  Next (finish F s4 nH d nG isBetter shouldSwitchMethod)) in
  match adjust F lib s nH nG with
  | Next (_, true, _) =>
      if evaluable d
      then trial_committed r /\ normInfF r = lpNormInf (fNew r) /\ normInfG r = nG
      else same_iterate s r
  | _ => same_iterate s r
  end.
Proof.
  cbv zeta.
  pose proof (adjust_shape F lib s nH nG) as Ha.
  destruct (adjust F lib s nH nG) as [r | [[s4 b1] b2]]; cbn [bind leave];
    destruct Ha as (a & c & m & n & dl & st & ->).
  { unfold same_iterate. destruct s. members. repeat split. }
  destruct (evaluable d) eqn:Hd.
  - rewrite (finish_evaluated F _ nH d nG b1 b2 Hd). cbv zeta.
    match goal with |- context [update_B ?t] =>
      destruct (update_B_shape t) as (vv & BB & ->) end.
    destruct b1.
    + match goal with |- context [commit F ?t nG] =>
        destruct (commit_shape F t nG) as (st' & ->) end.
      destruct b2.
      * match goal with |- context [switch_method ?t nH] =>
          destruct (switch_method_shape t nH) as (a' & d' & m' & ->) end.
        unfold trial_committed. destruct s. members. repeat split.
      * unfold trial_committed. destruct s. members. repeat split.
    + destruct b2.
      * match goal with |- context [switch_method ?t nH] =>
          destruct (switch_method_shape t nH) as (a' & d' & m' & ->) end.
        unfold same_iterate. destruct s. members. repeat split.
      * unfold same_iterate. destruct s. members. repeat split.
  - unfold finish. rewrite Hd. cbn [negb].
    destruct b1; unfold same_iterate; destruct s; members; repeat split.
Qed.

Lemma step_commit s :
  let s' := step F lib s in
  if completes F lib s && isBetter_at_return F lib s
  then trial_committed s' /\ normInfF s' = lpNormInf (fNew s')
  else same_iterate s s'.
Proof.
  cbv zeta. unfold completes, isBetter_at_return.
  destruct (trial F lib s) as [[[[s3 nH] d] nG]|] eqn:Et.
  - rewrite (trial_Some F lib _ _ _ _ _ Et).
    pose proof (same_iterate_untouched _ _ (trial_untouched F lib _ _ _ _ _ Et)) as U.
    pose proof (tail_commit s3 nH d nG) as H. cbv zeta in H.
    destruct (adjust F lib s3 nH nG) as [r | [[s4 b1] b2]].
    + cbn [andb]. eapply same_iterate_trans; eassumption.
    + destruct b1.
      * destruct (evaluable d); cbn [andb];
          [tauto | eapply same_iterate_trans; eassumption].
      * rewrite andb_false_r. eapply same_iterate_trans; eassumption.
  - cbn [andb]. apply same_iterate_untouched, step_no_trial, Et.
Qed.

End Commit.

(** X6.  The iterate moves only on a step that runs to its last statement
    with the acceptance test holding; it then is the trial point, with its
    residuals, Jacobian, gradient and chi-square.  On every other step (ended
    by a guard, refused by the objective, or rejected) the parameters, the
    residuals, the chi-square, the Jacobian, the gradient and both norms are
    what they were. *)
Theorem iterate_moves_on_acceptance_only (F : StateFlags) (lib : NumLib) (s : Impl) :
  let s' := step F lib s in
  if completes F lib s && isBetter_at_return F lib s
  then getParameters s' = getTrialParameters s'
       /\ getFunction s' = getTrialFunction s'
       /\ getChiSq s' = getTrialChiSq s'
       /\ J s' = JNew s' /\ g s' = gNew s'
       /\ getFunctionInfNorm s' = lpNormInf (getFunction s')
  else getParameters s' = getParameters s
       /\ getFunction s' = getFunction s
       /\ getChiSq s' = getChiSq s
       /\ J s' = J s /\ g s' = g s
       /\ getFunctionInfNorm s' = getFunctionInfNorm s
       /\ getGradientInfNorm s' = getGradientInfNorm s.
Proof.
  intro s'. subst s'. pose proof (step_commit F lib s) as H. cbv zeta in H.
  unfold getParameters, getTrialParameters, getFunction, getTrialFunction, getChiSq,
    getTrialChiSq, getFunctionInfNorm, getGradientInfNorm.
  destruct (completes F lib s && isBetter_at_return F lib s).
  - destruct H as [(H1 & H2 & H3 & H4 & H5) H6].
    rewrite H5, H6, <- H2. repeat split; assumption.
  - destruct H as (H1 & H2 & H3 & H4 & H5 & H6 & H7). rewrite H5.
    repeat split; assumption.
Qed.

(** X7.  On a step that runs to its last statement, [STEP_ACCEPTED] tells
    whether the iterate moved: when it is set the parameters are the trial
    parameters and [Q] has decreased (strictly for LM, up to the factor [1 +
    sqrtEps] for BFGS); when it is not set the parameters and the chi-square
    are unchanged. *)
Theorem accepted_flag_on_completed_steps (F : StateFlags) (lib : NumLib) (s : Impl) :
  STEP_ACCEPTED F <> 0%Z ->
  completes F lib s = true ->
  let s' := step F lib s in
  (has_flag (getState s') (STEP_ACCEPTED F) ->
   getParameters s' = getTrialParameters s'
   /\ match getMethod s with
      | LM => (Q s' <? Q s) = true
      | BFGS => (Q s' <? Q s) = true \/ (Q s' <=? (1 + sqrtEps) * Q s) = true
      end)
  /\ (~ has_flag (getState s') (STEP_ACCEPTED F) ->
      getParameters s' = getParameters s /\ getChiSq s' = getChiSq s).
Proof.
  intros Hne Hc s'. subst s'.
  destruct (completed_step_acceptance F lib s Hne Hc) as [Hiff Hdec].
  pose proof (step_commit F lib s) as H. cbv zeta in H. rewrite Hc in H. cbn [andb] in H.
  unfold getState, getParameters, getTrialParameters, getMethod, getChiSq. split.
  - intro Hf. apply Hiff in Hf. rewrite Hf in H. unfold trial_committed in H.
    split; [tauto | exact (Hdec Hf)].
  - intro Hf. destruct (isBetter_at_return F lib s).
    + exfalso. apply Hf, Hiff. reflexivity.
    + unfold same_iterate in H. destruct H as (H1 & _ & _ & _ & H5 & _).
      rewrite H5. split; [assumption | reflexivity].
Qed.

Lemma accepted_flag_on_completed_steps_witness :
  let s := new_HybridOptimizer halfline [1] (control 1 true) in
  let s' := step table_flags small_lib s in
  completes table_flags small_lib s = true
  /\ has_flag (getState s') (STEP_ACCEPTED table_flags)
  /\ getParameters s' = getTrialParameters s'
  /\ (Q s' <? Q s) = true.
Proof.
  assert (Hc : completes table_flags small_lib
                 (new_HybridOptimizer halfline [1] (control 1 true)) = true)
    by (vm_compute; reflexivity).
  assert (Hf : has_flag (getState (step table_flags small_lib
                 (new_HybridOptimizer halfline [1] (control 1 true))))
                 (STEP_ACCEPTED table_flags))
    by (vm_compute; reflexivity).
  split; [exact Hc|]. split; [exact Hf|].
  exact (proj1 (accepted_flag_on_completed_steps table_flags small_lib _
                  ltac:(discriminate) Hc) Hf).
Defined.

(** ** A refused proposal *)

Section Refused.
Variable F : StateFlags.
Variable lib : NumLib.

(** The state in which the acceptance test of a refused proposal is made. *)
Lemma trial_INVALID s :
  proposal_result F lib s = Some INVALID ->
  exists rr hh xx xn nH,
    trial F lib s
    = Some (set_QNew (set_bits (set_calls (set_xNew (set_xNew (set_h (set_rank s rr) hh) xx)
                                             xn) (calls s ++ [CallTryStep]))
                               (STEP_INVALID F)) infinity,
            nH, INVALID, 0).
Proof.
  unfold proposal_result, trial. intro Hp.
  destruct (direction F lib s) as [r | [s1 nH]] eqn:Ed; [discriminate|].
  destruct (direction_Next F lib s s1 nH Ed) as [rr [hh [xx ->]]].
  exists rr, hh, xx.
  unfold vet, call_tryStep.
  match goal with |- context [tryStep ?o ?a ?b] => destruct (tryStep o a b) as [d xn] end.
  cbn [fst] in Hp. injection Hp as ->. exists xn, nH.
  unfold evaluate. cbn [evaluable andb]. reflexivity.
Qed.

Lemma step_INVALID s :
  proposal_result F lib s = Some INVALID ->
  let s' := step F lib s in
  same_iterate s s'
  /\ method s' = method s /\ count s' = count s /\ B s' = B s
  /\ QNew s' = infinity /\ fNew s' = fNew s /\ JNew s' = JNew s
  /\ match method s with
     | LM => delta s' = delta s /\ mu s' = mu s * nu s /\ nu s' = nu s * 2
             /\ A s' = addDiagonal (A s) (mu s * (nu s - 1))
     | BFGS => delta s' = delta s / 2 /\ mu s' = mu s /\ nu s' = nu s /\ A s' = A s
     end.
Proof.
  intros Hp. cbv zeta. destruct (trial_INVALID s Hp) as (rr & hh & xx & xn & nH & Et).
  rewrite (trial_Some F lib _ _ _ _ _ Et). clear Et Hp.
  unfold adjust.
  cbn [method QNew set_QNew set_bits set_state set_calls set_xNew set_h set_rank].
  rewrite infinity_not_ltb. unfold same_iterate.
  destruct (method s) eqn:Em.
  - cbn [bind leave]. unfold finish. cbn [evaluable negb].
    destruct s. members. repeat split; exact Em.
  - cbv zeta.
    match goal with |- context [halve_delta F ?t ?a ?b] =>
      destruct (halve_delta_cases F t a b) as [-> | ->] end;
      cbn [bind leave]; unfold finish; cbn [evaluable negb];
      destruct s; members; repeat split; exact Em.
Qed.

End Refused.

(** X8.  A step whose proposal the objective refuses (INVALID) changes the
    trust region and nothing else of the iterate: the parameters, the
    residuals, the chi-square, the method and [B] are unchanged, the trial
    residuals are the stale ones, and [getTrialChiSq] is [+infinity].  With
    the method LM it multiplies [mu] by [nu], doubles [nu] and adds [mu (nu -
    1)] to the diagonal of [A], leaving [delta]; with the method BFGS it
    halves [delta], leaving [mu], [nu] and [A]. *)
Theorem refused_proposal_shrinks_the_trust_region_only
    (F : StateFlags) (lib : NumLib) (s : Impl) :
  proposal_result F lib s = Some INVALID ->
  let s' := step F lib s in
  getParameters s' = getParameters s
  /\ getFunction s' = getFunction s
  /\ getChiSq s' = getChiSq s
  /\ getMethod s' = getMethod s
  /\ B s' = B s
  /\ getTrialChiSq s' = infinity
  /\ getTrialFunction s' = getTrialFunction s
  /\ match getMethod s with
     | LM => getDelta s' = getDelta s /\ getMu s' = getMu s * nu s /\ nu s' = nu s * 2
             /\ A s' = addDiagonal (A s) (getMu s * (nu s - 1))
     | BFGS => getDelta s' = getDelta s / 2 /\ getMu s' = getMu s /\ nu s' = nu s
               /\ A s' = A s
     end.
Proof.
  intros Hp s'. subst s'. pose proof (step_INVALID F lib s Hp) as H. cbv zeta in H.
  unfold same_iterate in H.
  destruct H as ((H1 & H2 & _ & _ & H5 & _) & Hm & _ & HB & HQ & Hf & _ & Ht).
  unfold getParameters, getFunction, getChiSq, getMethod, getTrialChiSq, getTrialFunction,
    getDelta, getMu.
  rewrite H5, HQ. repeat split; assumption.
Qed.

Lemma refused_proposal_shrinks_the_trust_region_only_witness :
  let s := steps table_flags small_lib 28 (new_HybridOptimizer halfline [1] (control 1 true)) in
  let s' := step table_flags small_lib s in
  getMethod s = BFGS
  /\ getParameters s' = getParameters s
  /\ getTrialChiSq s' = infinity
  /\ getDelta s' = getDelta s / 2.
Proof.
  assert (Hp : proposal_result table_flags small_lib
                 (steps table_flags small_lib 28
                    (new_HybridOptimizer halfline [1] (control 1 true))) = Some INVALID)
    by (vm_compute; reflexivity).
  assert (Hm : getMethod (steps table_flags small_lib 28
                 (new_HybridOptimizer halfline [1] (control 1 true))) = BFGS)
    by (vm_compute; reflexivity).
  pose proof (refused_proposal_shrinks_the_trust_region_only table_flags small_lib _ Hp) as H.
  cbv zeta in H. rewrite Hm in H.
  destruct H as (H1 & _ & _ & _ & _ & H6 & _ & H8 & _).
  repeat split; assumption.
Defined.

(** ** The bitmask after a step *)

Section Bitmask.
Variable F : StateFlags.
Variable lib : NumLib.

Lemma finish_accepted_state s nH d nG b2 :
  evaluable d = true ->
  state (finish F s nH d nG true b2)
  = Z.lor (committed_state F (finish F s nH d nG true b2) (state s)) (STEP_ACCEPTED F).
Proof.
  intro Hd. rewrite (finish_evaluated F s nH d nG true b2 Hd). cbv zeta.
  destruct (update_B_shape s) as (vv & BB & ->).
  destruct b2.
  - match goal with |- context [switch_method ?t nH] =>
      destruct (switch_method_shape t nH) as (a' & d' & m' & ->) end.
    unfold committed_state. destruct s. cbv beta iota zeta delta [commit]. members.
    split_tests; first [reflexivity | congruence].
  - unfold committed_state. destruct s. cbv beta iota zeta delta [commit]. members.
    split_tests; first [reflexivity | congruence].
Qed.

Lemma step_state s : state (step F lib s) = state_after F lib s (step F lib s).
Proof.
  unfold state_after.
  destruct (trial F lib s) as [[[[s3 nH] d] nG]|] eqn:Et.
  - rewrite (trial_Some F lib _ _ _ _ _ Et).
    revert Et. unfold proposal_result, trial.
    pose proof (direction_state F lib s) as H1.
    destruct (direction F lib s) as [r | [s1 n1]]; [discriminate|]. destruct H1 as [E1 _].
    pose proof (vet_state F s1 n1) as H2. cbv zeta in H2.
    destruct (vet F s1 n1) as [r | [[s2 n2] d2]]; [discriminate|].
    destruct H2 as (Ed & E2 & _).
    pose proof (evaluate_state s2 d2) as H3.
    destruct (evaluate s2 d2) as [s3' nG']. cbn [fst] in H3.
    intro E. injection E as -> -> -> ->.
    rewrite <- Ed in E2 |- *. change (state s2 = vetted_state F d (state s1)) in E2.
    rewrite E1 in E2. rewrite <- E2, <- H3.
    pose proof (adjust_state F lib s3 nH nG) as H4.
    destruct (adjust F lib s3 nH nG) as [r | [[s4 b1] b2]]; cbn [bind leave].
    + tauto.
    + rewrite <- H4. destruct (evaluable d) eqn:Hd.
      * destruct b1; [apply finish_accepted_state, Hd|].
        rewrite finish_state, Hd. reflexivity.
      * rewrite finish_state, Hd. reflexivity.
  - revert Et. unfold proposal_result, trial, step, step_flow.
    pose proof (direction_state F lib s) as H1.
    destruct (direction F lib s) as [r | [s1 n1]]; cbn [bind leave]; [intros _; tauto|].
    destruct H1 as [E1 _].
    pose proof (vet_state F s1 n1) as H2. cbv zeta in H2.
    destruct (vet F s1 n1) as [r | [[s2 n2] d2]]; cbn [bind leave].
    + intros _. destruct H2 as (_ & E2 & _). rewrite E2, E1. reflexivity.
    + destruct (evaluate s2 d2). discriminate.
Qed.

End Bitmask.

(** X9.  The bitmask with which [step()] returns, in closed form
    ([state_after]): [FAILURE_MINSTEP] added at either minimum-step guard;
    otherwise the two proposal flags set or cleared by the answer of
    [tryStep], then [FAILURE_MINTRUST] added when the BFGS branch stops at its
    guard, or, on an evaluated proposal, [STEP_ACCEPTED] cleared on rejection
    and set on acceptance, together with [SUCCESS_FTOL] and [SUCCESS_GTOL]
    for each committed norm that is not above its tolerance; and nothing more
    when the proposal is refused.  [HybridOptimizer::step] returns this
    bitmask. *)
Theorem bitmask_after_a_step (F : StateFlags) (lib : NumLib) (s : Impl) :
  getState (step F lib s) = state_after F lib s (step F lib s)
  /\ snd (HybridOptimizer_step F lib s) = getState (step F lib s).
Proof. split; [apply step_state | reflexivity]. Qed.

Lemma keeps_sym m st st' : keeps m st st' -> keeps m st' st.
Proof. intros H i Hi. symmetry. apply H, Hi. Qed.

Lemma keeps_vetted F d m st :
  Z.land (STEP_MODIFIED F) m = 0%Z -> Z.land (STEP_INVALID F) m = 0%Z ->
  keeps m st (vetted_state F d st).
Proof.
  intros H1 H2. destruct d; cbn [vetted_state]; [apply keeps_lor, H2| |apply keeps_lor, H1].
  apply keeps_clear. rewrite Z.land_lor_distr_l, H1, H2. reflexivity.
Qed.

Lemma keeps_committed F s m st :
  Z.land (SUCCESS_FTOL F) m = 0%Z -> Z.land (SUCCESS_GTOL F) m = 0%Z ->
  keeps m st (committed_state F s st).
Proof.
  intros H1 H2. unfold committed_state. cbv zeta.
  destruct (normInfF s >? fTol (ctrl s)), (normInfG s >? gTol (ctrl s));
    repeat first [apply keeps_refl | eapply keeps_trans; [|apply keeps_lor; assumption]].
Qed.

(** Two distinct flags share no bit. *)
Ltac apart_flags wf :=
  let H := fresh in
  pose proof wf as H; unfold flags_wf in H; simpl in H;
  repeat match goal with H : _ /\ _ |- _ => destruct H end;
  first [assumption | rewrite Z.land_comm; assumption].

(** [st'] is reached from [st] by operations on flags that share no bit with
    [m]. *)
Ltac keeps_chain :=
  repeat first
    [ apply keeps_refl
    | eapply keeps_trans;
      [| first [ apply keeps_lor; assumption | apply keeps_clear; assumption
               | apply keeps_vetted; assumption | apply keeps_committed; assumption ] ] ].

Section Raised.
Variable F : StateFlags.
Variable lib : NumLib.
Hypothesis wf : flags_wf F.

Lemma step_keeps_maxiter s : keeps (FAILURE_MAXITER F) (state s) (state (step F lib s)).
Proof.
  assert (A1 : Z.land (FAILURE_MINSTEP F) (FAILURE_MAXITER F) = 0%Z) by apart_flags wf.
  assert (A2 : Z.land (FAILURE_MINTRUST F) (FAILURE_MAXITER F) = 0%Z) by apart_flags wf.
  assert (A3 : Z.land (STEP_MODIFIED F) (FAILURE_MAXITER F) = 0%Z) by apart_flags wf.
  assert (A4 : Z.land (STEP_INVALID F) (FAILURE_MAXITER F) = 0%Z) by apart_flags wf.
  assert (A5 : Z.land (STEP_ACCEPTED F) (FAILURE_MAXITER F) = 0%Z) by apart_flags wf.
  assert (A6 : Z.land (SUCCESS_FTOL F) (FAILURE_MAXITER F) = 0%Z) by apart_flags wf.
  assert (A7 : Z.land (SUCCESS_GTOL F) (FAILURE_MAXITER F) = 0%Z) by apart_flags wf.
  rewrite step_state. unfold state_after.
  destruct (proposal_result F lib s) as [d|]; [|apply keeps_lor, A1].
  destruct (trial F lib s) as [[[[s3 nH] d'] nG]|].
  - destruct (adjust F lib s3 nH nG) as [r | [[s4 b1] b2]].
    + eapply keeps_trans; [|apply keeps_lor, A2]. apply keeps_vetted; assumption.
    + destruct (evaluable d); [|apply keeps_vetted; assumption].
      destruct b1.
      * eapply keeps_trans; [|apply keeps_lor, A5].
        eapply keeps_trans; [|apply keeps_committed; assumption].
        apply keeps_vetted; assumption.
      * eapply keeps_trans; [|apply keeps_clear, A5]. apply keeps_vetted; assumption.
  - eapply keeps_trans; [apply keeps_lor, A3 | apply keeps_lor, A1].
Qed.

Lemma trial_result s s3 nH d nG :
  trial F lib s = Some (s3, nH, d, nG) -> proposal_result F lib s = Some d.
Proof.
  unfold proposal_result, trial.
  destruct (direction F lib s) as [r | [s1 n1]]; [discriminate|].
  pose proof (vet_state F s1 n1) as H2. cbv zeta in H2.
  destruct (vet F s1 n1) as [r | [[s2 n2] d2]]; [discriminate|].
  destruct H2 as (<- & _). destruct (evaluate s2 d2). intro E. injection E as _ _ -> _.
  reflexivity.
Qed.

Lemma keeps_iff m st st' (P : Prop) :
  keeps m st st' -> ~ P -> (has_flag st' m <-> has_flag st m \/ P).
Proof.
  intros Hk Hn. split.
  - intro H. left. apply (keeps_has_flag _ _ _ (keeps_sym _ _ _ Hk)), H.
  - intros [H | H]; [apply (keeps_has_flag _ _ _ Hk), H | contradiction].
Qed.

Ltac kept_flag := apply keeps_iff; [keeps_chain | intros [? ?]; discriminate].

(** A success flag is set after a step exactly when it was set before, or
    the step is accepted and the committed norm passes the test. *)
Lemma step_success s :
  let s' := step F lib s in
  (has_flag (state s') (SUCCESS_FTOL F)
   <-> has_flag (state s) (SUCCESS_FTOL F)
       \/ (completes F lib s && isBetter_at_return F lib s = true
           /\ (normInfF s' >? fTol (ctrl s')) = false))
  /\ (has_flag (state s') (SUCCESS_GTOL F)
      <-> has_flag (state s) (SUCCESS_GTOL F)
          \/ (completes F lib s && isBetter_at_return F lib s = true
              /\ (normInfG s' >? gTol (ctrl s')) = false)).
Proof.
  cbv zeta.
  assert (F1 : Z.land (FAILURE_MINSTEP F) (SUCCESS_FTOL F) = 0%Z) by apart_flags wf.
  assert (F2 : Z.land (FAILURE_MINTRUST F) (SUCCESS_FTOL F) = 0%Z) by apart_flags wf.
  assert (F3 : Z.land (STEP_MODIFIED F) (SUCCESS_FTOL F) = 0%Z) by apart_flags wf.
  assert (F4 : Z.land (STEP_INVALID F) (SUCCESS_FTOL F) = 0%Z) by apart_flags wf.
  assert (F5 : Z.land (STEP_ACCEPTED F) (SUCCESS_FTOL F) = 0%Z) by apart_flags wf.
  assert (F6 : Z.land (SUCCESS_GTOL F) (SUCCESS_FTOL F) = 0%Z) by apart_flags wf.
  assert (G1 : Z.land (FAILURE_MINSTEP F) (SUCCESS_GTOL F) = 0%Z) by apart_flags wf.
  assert (G2 : Z.land (FAILURE_MINTRUST F) (SUCCESS_GTOL F) = 0%Z) by apart_flags wf.
  assert (G3 : Z.land (STEP_MODIFIED F) (SUCCESS_GTOL F) = 0%Z) by apart_flags wf.
  assert (G4 : Z.land (STEP_INVALID F) (SUCCESS_GTOL F) = 0%Z) by apart_flags wf.
  assert (G5 : Z.land (STEP_ACCEPTED F) (SUCCESS_GTOL F) = 0%Z) by apart_flags wf.
  assert (G6 : Z.land (SUCCESS_FTOL F) (SUCCESS_GTOL F) = 0%Z) by apart_flags wf.
  rewrite step_state. unfold state_after, completes, isBetter_at_return.
  generalize (step F lib s). intro s'.
  destruct (trial F lib s) as [[[[s3 nH] d] nG]|] eqn:Et.
  - rewrite (trial_result _ _ _ _ _ Et).
    destruct (adjust F lib s3 nH nG) as [r | [[s4 b1] b2]]; cbn [andb];
      [split; kept_flag|].
    destruct (evaluable d); cbn [andb]; [|split; kept_flag].
    destruct b1; [|split; kept_flag].
    unfold committed_state. cbv zeta.
    destruct (normInfF s' >? fTol (ctrl s')), (normInfG s' >? gTol (ctrl s')).
    + split; kept_flag.
    + split; [kept_flag|].
      split; [intros _; right; split; reflexivity|]. intros _.
      apply has_flag_lor_l, has_flag_lor_r.
    + split; [|kept_flag].
      split; [intros _; right; split; reflexivity|]. intros _.
      apply has_flag_lor_l, has_flag_lor_r.
    + split; (split; [intros _; right; split; reflexivity|]); intros _.
      * apply has_flag_lor_l, has_flag_lor_l, has_flag_lor_r.
      * apply has_flag_lor_l, has_flag_lor_r.
  - cbn [andb]. destruct (proposal_result F lib s); split; kept_flag.
Qed.

(** A failure flag that a step raises is raised by a guard. *)
Lemma step_minstep s :
  ~ has_flag (state s) (FAILURE_MINSTEP F) ->
  has_flag (state (step F lib s)) (FAILURE_MINSTEP F) ->
  trial F lib s = None.
Proof.
  assert (A1 : Z.land (FAILURE_MINTRUST F) (FAILURE_MINSTEP F) = 0%Z) by apart_flags wf.
  assert (A2 : Z.land (STEP_MODIFIED F) (FAILURE_MINSTEP F) = 0%Z) by apart_flags wf.
  assert (A3 : Z.land (STEP_INVALID F) (FAILURE_MINSTEP F) = 0%Z) by apart_flags wf.
  assert (A4 : Z.land (STEP_ACCEPTED F) (FAILURE_MINSTEP F) = 0%Z) by apart_flags wf.
  assert (A5 : Z.land (SUCCESS_FTOL F) (FAILURE_MINSTEP F) = 0%Z) by apart_flags wf.
  assert (A6 : Z.land (SUCCESS_GTOL F) (FAILURE_MINSTEP F) = 0%Z) by apart_flags wf.
  intros Hn. rewrite step_state. unfold state_after. generalize (step F lib s). intro s'.
  destruct (trial F lib s) as [[[[s3 nH] d] nG]|] eqn:Et; [|reflexivity].
  rewrite (trial_result _ _ _ _ _ Et). intro H. exfalso. apply Hn.
  revert H. apply keeps_has_flag, keeps_sym.
  destruct (adjust F lib s3 nH nG) as [r | [[s4 b1] b2]]; [keeps_chain|].
  destruct (evaluable d); [|keeps_chain]. destruct b1; keeps_chain.
Qed.

Lemma step_mintrust s :
  ~ has_flag (state s) (FAILURE_MINTRUST F) ->
  has_flag (state (step F lib s)) (FAILURE_MINTRUST F) ->
  method s = BFGS
  /\ delta (step F lib s) = delta s / 2
  /\ (delta (step F lib s) >? minStep (ctrl s) * (norm (x s) + minStep (ctrl s))) = false
  /\ completes F lib s = false.
Proof.
  assert (A1 : Z.land (FAILURE_MINSTEP F) (FAILURE_MINTRUST F) = 0%Z) by apart_flags wf.
  assert (A2 : Z.land (STEP_MODIFIED F) (FAILURE_MINTRUST F) = 0%Z) by apart_flags wf.
  assert (A3 : Z.land (STEP_INVALID F) (FAILURE_MINTRUST F) = 0%Z) by apart_flags wf.
  assert (A4 : Z.land (STEP_ACCEPTED F) (FAILURE_MINTRUST F) = 0%Z) by apart_flags wf.
  assert (A5 : Z.land (SUCCESS_FTOL F) (FAILURE_MINTRUST F) = 0%Z) by apart_flags wf.
  assert (A6 : Z.land (SUCCESS_GTOL F) (FAILURE_MINTRUST F) = 0%Z) by apart_flags wf.
  intros Hn H.
  assert (K : forall st', keeps (FAILURE_MINTRUST F) (state s) st' ->
                          state (step F lib s) = st' -> False).
  { intros st' Hk E. apply Hn. rewrite E in H. revert H.
    apply keeps_has_flag, keeps_sym, Hk. }
  pose proof (step_state F lib s) as E. unfold state_after in E. unfold completes.
  destruct (trial F lib s) as [[[[s3 nH] d] nG]|] eqn:Et.
  - rewrite (trial_result _ _ _ _ _ Et) in E.
    pose proof (trial_untouched F lib _ _ _ _ _ Et) as U. unfold untouched in U.
    rewrite (trial_Some F lib _ _ _ _ _ Et) in *.
    pose proof (adjust_state F lib s3 nH nG) as Ha.
    destruct (adjust F lib s3 nH nG) as [r | [[s4 b1] b2]]; cbn [bind leave] in *.
    + destruct Ha as (Hm & _ & Hd & Hc).
      repeat match goal with H : _ /\ _ |- _ => destruct H end.
      repeat split; congruence.
    + exfalso. revert E. apply K.
      destruct (evaluable d); [|keeps_chain]. destruct b1; keeps_chain.
  - exfalso. revert E. apply K. destruct (proposal_result F lib s); keeps_chain.
Qed.

End Raised.

(** X10.  A success flag is set after a step exactly when it was set before,
    or the step is accepted and the committed norm (of the residuals for
    [SUCCESS_FTOL], of the gradient for [SUCCESS_GTOL]) is not above its
    tolerance.  Rejected, refused and interrupted steps raise neither. *)
Theorem success_flags_are_raised_at_accepted_iterates
    (F : StateFlags) (lib : NumLib) (s : Impl) :
  flags_wf F ->
  let s' := step F lib s in
  let accepted := completes F lib s && isBetter_at_return F lib s in
  (has_flag (getState s') (SUCCESS_FTOL F)
   <-> has_flag (getState s) (SUCCESS_FTOL F)
       \/ (accepted = true /\ (getFunctionInfNorm s' >? fTol (getControl s')) = false))
  /\ (has_flag (getState s') (SUCCESS_GTOL F)
      <-> has_flag (getState s) (SUCCESS_GTOL F)
          \/ (accepted = true /\ (getGradientInfNorm s' >? gTol (getControl s')) = false)).
Proof. intros wf. exact (step_success F lib wf s). Qed.

Lemma success_flags_are_raised_at_accepted_iterates_witness :
  let s := steps table_flags small_lib 8 (new_HybridOptimizer sigmoid [2] (control 0x1p-10 true)) in
  let s' := step table_flags small_lib s in
  ~ has_flag (getState s) (SUCCESS_FTOL table_flags)
  /\ has_flag (getState s') (SUCCESS_FTOL table_flags)
  /\ (getFunctionInfNorm s' >? fTol (getControl s')) = false.
Proof.
  cbv zeta.
  assert (Hn : ~ has_flag (getState (steps table_flags small_lib 8
                    (new_HybridOptimizer sigmoid [2] (control 0x1p-10 true))))
                 (SUCCESS_FTOL table_flags)) by (vm_compute; discriminate).
  assert (Hf : has_flag (getState (step table_flags small_lib
                  (steps table_flags small_lib 8
                     (new_HybridOptimizer sigmoid [2] (control 0x1p-10 true)))))
                 (SUCCESS_FTOL table_flags)) by (vm_compute; reflexivity).
  split; [exact Hn|]. split; [exact Hf|].
  destruct (proj1 (proj1 (success_flags_are_raised_at_accepted_iterates table_flags
                            small_lib _ table_flags_wf)) Hf) as [C | [_ Ht]];
    [contradiction | exact Ht].
Defined.

(** X11.  A failure flag that a step raises is raised by its guard.  When
    [FAILURE_MINSTEP] appears, the step ended before its acceptance test: the
    parameters, the chi-square, the method, [delta] and [mu] are unchanged.
    When [FAILURE_MINTRUST] appears, the method was BFGS, [delta] has been
    halved, the halved [delta] is not above [minStep * (|x| + minStep)], and
    the parameters are unchanged; an LM step never raises it. *)
Theorem failure_flags_are_raised_by_the_guards (F : StateFlags) (lib : NumLib) (s : Impl) :
  flags_wf F ->
  let s' := step F lib s in
  (~ has_flag (getState s) (FAILURE_MINSTEP F) ->
   has_flag (getState s') (FAILURE_MINSTEP F) ->
   trial F lib s = None
   /\ getParameters s' = getParameters s /\ getChiSq s' = getChiSq s
   /\ getMethod s' = getMethod s /\ getDelta s' = getDelta s /\ getMu s' = getMu s)
  /\ (~ has_flag (getState s) (FAILURE_MINTRUST F) ->
      has_flag (getState s') (FAILURE_MINTRUST F) ->
      getMethod s = BFGS
      /\ getDelta s' = getDelta s / 2
      /\ (getDelta s' >? minStep (getControl s)
                         * (norm (getParameters s) + minStep (getControl s))) = false
      /\ getParameters s' = getParameters s).
Proof.
  intros wf s'. subst s'.
  unfold getState, getParameters, getChiSq, getMethod, getDelta, getMu, getControl. split.
  - intros Hn H. pose proof (step_minstep F lib wf s Hn H) as Et.
    split; [exact Et|].
    pose proof (step_no_trial F lib s Et) as U. unfold untouched in U.
    destruct U as (_ & _ & Um & _ & Ux & _ & _ & _ & _ & _ & _ & _ & UQ & Umu & _ & Ud).
    rewrite UQ. repeat split; assumption.
  - intros Hn H. destruct (step_mintrust F lib wf s Hn H) as (H1 & H2 & H3 & H4).
    repeat split; try assumption.
    pose proof (step_commit F lib s) as Hc. cbv zeta in Hc. rewrite H4 in Hc.
    cbn [andb] in Hc. unfold same_iterate in Hc. tauto.
Qed.

Lemma failure_flags_are_raised_by_the_guards_witness :
  let s := steps table_flags small_lib 292 (new_HybridOptimizer halfline [1] (control 1 true)) in
  let s' := step table_flags small_lib s in
  has_flag (getState s') (FAILURE_MINTRUST table_flags)
  /\ getMethod s = BFGS /\ getDelta s' = getDelta s / 2.
Proof.
  assert (Hn : ~ has_flag (getState (steps table_flags small_lib 292
                    (new_HybridOptimizer halfline [1] (control 1 true))))
                 (FAILURE_MINTRUST table_flags)) by (vm_compute; discriminate).
  assert (H : has_flag (getState (step table_flags small_lib
                 (steps table_flags small_lib 292
                    (new_HybridOptimizer halfline [1] (control 1 true)))))
                (FAILURE_MINTRUST table_flags)) by (vm_compute; reflexivity).
  split; [exact H|].
  destruct (proj2 (failure_flags_are_raised_by_the_guards table_flags small_lib _
                     table_flags_wf) Hn H) as (H1 & H2 & _).
  split; assumption.
Defined.

(** X12.  [step()] neither sets nor clears [FAILURE_MAXITER]: only [run()]
    raises it. *)
Theorem step_leaves_the_iteration_limit_flag (F : StateFlags) (lib : NumLib) (s : Impl) :
  flags_wf F ->
  keeps (FAILURE_MAXITER F) (getState s) (getState (step F lib s))
  /\ (has_flag (getState (step F lib s)) (FAILURE_MAXITER F)
      <-> has_flag (getState s) (FAILURE_MAXITER F)).
Proof.
  intro wf. pose proof (step_keeps_maxiter F lib wf s) as K. unfold getState.
  split; [exact K|]. split; apply keeps_has_flag; [apply keeps_sym|]; exact K.
Qed.

Lemma step_leaves_the_iteration_limit_flag_witness :
  let s := fst (run table_flags small_lib (new_HybridOptimizer halfline [1] (control 1 true))) in
  has_flag (getState s) (FAILURE_MAXITER table_flags)
  /\ has_flag (getState (step table_flags small_lib s)) (FAILURE_MAXITER table_flags).
Proof.
  assert (H : has_flag (getState (fst (run table_flags small_lib
                 (new_HybridOptimizer halfline [1] (control 1 true)))))
                (FAILURE_MAXITER table_flags)) by (vm_compute; reflexivity).
  split; [exact H|].
  exact (proj2 (proj2 (step_leaves_the_iteration_limit_flag table_flags small_lib _
                         table_flags_wf)) H).
Defined.

(** ** What each method leaves alone *)

Section Frames.
Variable F : StateFlags.
Variable lib : NumLib.

(** The BFGS branch of [adjust] assigns [delta] and [state] only. *)
Lemma adjust_BFGS s nH nG :
  method s = BFGS ->
  match adjust F lib s nH nG with
  | Return r => exists dl st, r = set_state (set_delta s dl) st
  | Next (r, _, _) => exists dl st, r = set_state (set_delta s dl) st
  end.
Proof.
  intro Hm. destruct s. members_in Hm. subst.
  cbv beta iota zeta delta [adjust halve_delta checkStep]. members.
  split_tests; do 2 eexists; reflexivity.
Qed.

(** The LM branch of [adjust] never ends the step, and assigns [A], [count],
    [mu] and [nu] only. *)
Lemma adjust_LM s nH nG :
  method s = LM ->
  exists a c m n b1 b2,
    adjust F lib s nH nG = Next (set_nu (set_mu (set_count (set_A s a) c) m) n, b1, b2).
Proof.
  intro Hm. destruct s. members_in Hm. subst.
  cbv beta iota zeta delta [adjust rebuild_A]. members.
  split_tests; do 6 eexists; reflexivity.
Qed.

Lemma step_BFGS s :
  method s = BFGS ->
  let s' := step F lib s in
  mu s' = mu s /\ nu s' = nu s /\ count s' = count s
  /\ match method s' with
     | BFGS => A s' = A s
     | LM => completes F lib s = true
             /\ A s' = addDiagonal (rankUpdateLower (setZero (A s))
                                      (adjoint (getParameterSize (obj s)) (J s')) 1) (mu s)
     end.
Proof.
  intro Hm. cbv zeta. unfold completes.
  destruct (trial F lib s) as [[[[s3 nH] d] nG]|] eqn:Et.
  - rewrite (trial_Some F lib _ _ _ _ _ Et).
    pose proof (trial_untouched F lib _ _ _ _ _ Et) as U. unfold untouched in U.
    destruct U as (Uo & _ & Um & Uc & _ & _ & _ & _ & UA & _ & _ & _ & _ & Umu & Unu & _).
    rewrite <- Uo, <- Umu, <- Unu, <- Uc, <- UA. rewrite <- Um in Hm. clear Uo Um Uc UA Umu Unu Et.
    pose proof (adjust_BFGS s3 nH nG Hm) as Ha.
    destruct (adjust F lib s3 nH nG) as [r | [[s4 b1] b2]]; cbn [bind leave];
      destruct Ha as (dl & st & ->).
    + destruct s3. members_in Hm. subst. members. repeat split.
    + destruct (evaluable d) eqn:Hd.
      * rewrite (finish_evaluated F _ nH d nG b1 b2 Hd). cbv zeta.
        match goal with |- context [update_B ?t] =>
          destruct (update_B_shape t) as (vv & BB & ->) end.
        destruct b1.
        -- match goal with |- context [commit F ?t nG] =>
             destruct (commit_shape F t nG) as (st' & ->) end.
           destruct s3. members_in Hm. subst.
           destruct b2; cbv beta iota zeta delta [switch_method rebuild_A]; members;
             repeat split.
        -- destruct s3. members_in Hm. subst.
           destruct b2; cbv beta iota zeta delta [switch_method rebuild_A]; members;
             repeat split.
      * unfold finish. rewrite Hd. cbn [negb].
        destruct s3. members_in Hm. subst. members. repeat split.
  - pose proof (step_no_trial F lib s Et) as U. unfold untouched in U.
    destruct U as (_ & _ & Um & Uc & _ & _ & _ & _ & UA & _ & _ & _ & _ & Umu & Unu & _).
    rewrite Um, Hm. repeat split; assumption.
Qed.

(** With the method LM the step is not clipped: the local [normH] is the norm
    of [h] when the acceptance test is made. *)
Lemma direction_LM s s1 nH :
  method s = LM -> direction F lib s = Next (s1, nH) -> nH = norm (h s1).
Proof.
  intro Hm. unfold direction.
  destruct (solved_shape lib s) as [rr [h0 E]].
  assert (Hm' : method (solved lib s) = LM) by (rewrite E; exact Hm).
  destruct (checkStep_cases (solved lib s) (norm (h (solved lib s))) (FAILURE_MINSTEP F))
    as [-> | ->]; cbn [negb]; [|discriminate].
  rewrite Hm'. cbn [is_BFGS andb]. intro H. injection H as <- <-. reflexivity.
Qed.

Lemma vet_norm s nH :
  nH = norm (h s) ->
  match vet F s nH with
  | Return _ => True
  | Next (s2, nH2, _) => nH2 = norm (h s2)
  end.
Proof.
  intros ->. destruct s. cbv beta iota zeta delta [vet call_tryStep checkStep]. members.
  match goal with |- context [tryStep ?o ?a ?b] => destruct (tryStep o a b) as [d xn] end.
  destruct d; members; split_tests; first [exact I | reflexivity].
Qed.

Lemma trial_LM_norm s s3 nH d nG :
  method s = LM -> trial F lib s = Some (s3, nH, d, nG) -> nH = norm (h s3).
Proof.
  intro Hm. unfold trial.
  destruct (direction F lib s) as [r | [s1 n1]] eqn:Ed; [discriminate|].
  pose proof (vet_norm s1 n1 (direction_LM s s1 n1 Hm Ed)) as Hv.
  destruct (vet F s1 n1) as [r | [[s2 n2] d2]]; [discriminate|].
  destruct (evaluate_shape s2 d2) as (fn & q & jn & gn & cl & Ee).
  destruct (evaluate s2 d2) as [s3' nG']. cbn [fst] in Ee.
  intro H. injection H as <- <- _ _. rewrite Ee. exact Hv.
Qed.

Lemma step_LM s :
  method s = LM ->
  let s' := step F lib s in
  match method s' with
  | LM => delta s' = delta s
  | BFGS => completes F lib s = true
            /\ delta s' = std_max (1.5 * minStep (ctrl s)
                                     * (squaredNorm (f s') + minStep (ctrl s)))
                                  (0.2 * norm (h s'))
  end.
Proof.
  intro Hm. cbv zeta. unfold completes.
  destruct (trial F lib s) as [[[[s3 nH] d] nG]|] eqn:Et.
  - rewrite (trial_Some F lib _ _ _ _ _ Et).
    pose proof (trial_LM_norm s s3 nH d nG Hm Et) as Hn.
    pose proof (trial_untouched F lib _ _ _ _ _ Et) as U. unfold untouched in U.
    destruct U as (_ & Uc & Um & _ & _ & _ & _ & _ & _ & _ & _ & _ & _ & _ & _ & Ud).
    rewrite <- Ud, <- Uc. rewrite <- Um in Hm. clear Um Ud Uc Et.
    destruct (adjust_LM s3 nH nG Hm) as (a & c & m & n & b1 & b2 & ->). cbn [bind leave].
    destruct (evaluable d) eqn:Hd.
    + rewrite (finish_evaluated F _ nH d nG b1 b2 Hd). cbv zeta.
      match goal with |- context [update_B ?t] =>
        destruct (update_B_shape t) as (vv & BB & ->) end.
      destruct b1.
      * match goal with |- context [commit F ?t nG] =>
          destruct (commit_shape F t nG) as (st' & ->) end.
        destruct s3. members_in Hm. members_in Hn. subst.
        destruct b2; cbv beta iota zeta delta [switch_method rebuild_A]; members;
          repeat split.
      * destruct s3. members_in Hm. members_in Hn. subst.
        destruct b2; cbv beta iota zeta delta [switch_method rebuild_A]; members;
          repeat split.
    + unfold finish. rewrite Hd. cbn [negb].
      destruct s3. members_in Hm. subst. members. reflexivity.
  - pose proof (step_no_trial F lib s Et) as U. unfold untouched in U.
    destruct U as (_ & _ & Um & _ & _ & _ & _ & _ & _ & _ & _ & _ & _ & _ & _ & Ud).
    rewrite Um, Hm. exact Ud.
Qed.

(** The BFGS branch of [adjust] asks for the switch to LM when the trial
    gradient is not below the committed one. *)
Lemma adjust_BFGS_switch s nH nG :
  method s = BFGS ->
  match adjust F lib s nH nG with
  | Return _ => True
  | Next (_, _, shouldSwitchMethod) => shouldSwitchMethod = (nG >=? normInfG s)
  end.
Proof.
  intro Hm. destruct s. members_in Hm. subst.
  cbv beta iota zeta delta [adjust halve_delta checkStep]. members.
  split_tests; first [exact I | reflexivity].
Qed.

Lemma step_BFGS_switch s :
  method s = BFGS -> completes F lib s = true ->
  method (step F lib s)
  = if lpNormInf (gNew (step F lib s)) >=? normInfG s then LM else BFGS.
Proof.
  intros Hm. unfold completes.
  destruct (trial F lib s) as [[[[s3 nH] d] nG]|] eqn:Et; [|discriminate].
  rewrite (trial_Some F lib _ _ _ _ _ Et).
  pose proof (trial_untouched F lib _ _ _ _ _ Et) as U. unfold untouched in U.
  destruct U as (_ & _ & Um & _ & _ & _ & _ & _ & _ & _ & _ & UG & _).
  rewrite <- UG. rewrite <- Um in Hm.
  pose proof (adjust_BFGS_switch s3 nH nG Hm) as Hs.
  pose proof (adjust_BFGS s3 nH nG Hm) as Ha.
  destruct (adjust F lib s3 nH nG) as [r | [[s4 b1] b2]]; [discriminate|].
  intro Hd. destruct Ha as (dl & st & ->). subst b2. cbn [bind leave].
  destruct (trial_evaluated F lib _ _ _ _ _ Et Hd) as [_ Hg].
  rewrite Hm in Hg. destruct (Hg eq_refl) as [_ ->]. clear Hg Et Um UG.
  rewrite (finish_evaluated F _ nH d _ b1 _ Hd). cbv zeta.
  match goal with |- context [update_B ?t] =>
    destruct (update_B_shape t) as (vv & BB & ->) end.
  destruct b1.
  - match goal with |- context [commit F ?t ?n] =>
      destruct (commit_shape F t n) as (st' & ->) end.
    destruct s3. members_in Hm. subst.
    cbv beta iota zeta delta [switch_method rebuild_A]. members.
    split_tests; first [reflexivity | congruence].
  - destruct s3. members_in Hm. subst.
    cbv beta iota zeta delta [switch_method rebuild_A]. members.
    split_tests; first [reflexivity | congruence].
Qed.

End Frames.

(** X13.  A BFGS step leaves the damping of the LM method alone: [mu], [nu]
    and [count] are unchanged, and so is [A] unless the step switches to LM,
    which happens only on a step that runs to its last statement; [A] is then
    rebuilt from the committed Jacobian with the [mu] the last LM step left.
    A BFGS step that runs to its last statement switches to LM exactly when
    the infinity norm of the trial gradient is not below that of the
    committed gradient. *)
Theorem BFGS_step_leaves_the_damping (F : StateFlags) (lib : NumLib) (s : Impl) :
  getMethod s = BFGS ->
  let s' := step F lib s in
  getMu s' = getMu s /\ nu s' = nu s /\ count s' = count s
  /\ match getMethod s' with
     | BFGS => A s' = A s
     | LM => completes F lib s = true
             /\ A s' = addDiagonal (rankUpdateLower (setZero (A s))
                                      (adjoint (getParameterSize (getObjective s)) (J s')) 1)
                                   (getMu s)
     end
  /\ (completes F lib s = true ->
      getMethod s' = if lpNormInf (gNew s') >=? getGradientInfNorm s then LM else BFGS).
Proof.
  intros Hm s'. subst s'. destruct (step_BFGS F lib s Hm) as (H1 & H2 & H3 & H4).
  repeat split; try assumption. intro Hc. apply step_BFGS_switch; assumption.
Qed.

Lemma BFGS_step_leaves_the_damping_witness :
  let s := steps table_flags small_lib 4 (new_HybridOptimizer sigmoid [2] (control 0x1p-10 true)) in
  let s' := step table_flags small_lib s in
  getMethod s = BFGS /\ getMethod s' = LM /\ getMu s' = getMu s /\ nu s' = nu s.
Proof.
  assert (Hm : getMethod (steps table_flags small_lib 4
                 (new_HybridOptimizer sigmoid [2] (control 0x1p-10 true))) = BFGS)
    by (vm_compute; reflexivity).
  split; [exact Hm|]. split; [vm_compute; reflexivity|].
  destruct (BFGS_step_leaves_the_damping table_flags small_lib _ Hm) as (H1 & H2 & _).
  split; assumption.
Defined.

(** X14.  An LM step leaves the trust radius alone: [delta] is unchanged
    unless the step switches to BFGS, which happens only on a step that runs
    to its last statement; [delta] is then [max(1.5 minStep (|f|^2 +
    minStep), 0.2 |h|)], with the residuals [f] committed by this step and
    the step [h] it proposed. *)
Theorem LM_step_leaves_the_trust_radius (F : StateFlags) (lib : NumLib) (s : Impl) :
  getMethod s = LM ->
  let s' := step F lib s in
  match getMethod s' with
  | LM => getDelta s' = getDelta s
  | BFGS => completes F lib s = true
            /\ getDelta s' = std_max (1.5 * minStep (getControl s)
                                        * (squaredNorm (getFunction s')
                                           + minStep (getControl s)))
                                     (0.2 * norm (h s'))
  end.
Proof. exact (step_LM F lib s). Qed.

Lemma LM_step_leaves_the_trust_radius_witness :
  let s := new_HybridOptimizer halfline [1] (control 1 true) in
  getMethod (step table_flags small_lib s) = LM
  /\ getDelta (step table_flags small_lib s) = getDelta s.
Proof.
  cbv zeta.
  assert (E : getMethod (step table_flags small_lib
                (new_HybridOptimizer halfline [1] (control 1 true))) = LM)
    by (vm_compute; reflexivity).
  split; [exact E|].
  pose proof (LM_step_leaves_the_trust_radius table_flags small_lib
                (new_HybridOptimizer halfline [1] (control 1 true)) eq_refl) as H.
  cbv zeta in H. rewrite E in H. exact H.
Defined.

(** ** An accepted LM step *)

Lemma ltb_leb (a b : float) : (a <? b) = true -> (a <=? b) = true.
Proof.
  rewrite ltb_spec, leb_spec. unfold SFltb, SFleb.
  destruct (SFcompare (Prim2SF a) (Prim2SF b)) as [[| |]|]; intro H;
    first [reflexivity | discriminate H].
Qed.

(** [std::max(1/3, z)] is at least [1/3], also when [z] is [NaN]. *)
Lemma std_max_third z : (1 / 3 <=? std_max (1 / 3) z) = true.
Proof.
  unfold std_max. destruct (1 / 3 <? z) eqn:E; [apply ltb_leb, E | reflexivity].
Qed.

Section Accepted.
Variable F : StateFlags.
Variable lib : NumLib.

(** The LM branch of [adjust] when the candidate is better. *)
Lemma adjust_LM_accepted s nH nG :
  method s = LM -> (QNew s <? Q s) = true ->
  let near := std_min nG (Q s - QNew s) <? 0.02 * QNew s in
  let c := if near then (count s + 1)%Z else 0%Z in
  let m := mu s * std_max (1 / 3) (1 - std_pow lib (2 * rho_LM s - 1) 3) in
  adjust F lib s nH nG
  = Next (set_A (set_count (set_nu (set_mu s m) 2) c)
                (if (c =? 3)%Z then A s
                 else addDiagonal (rankUpdateLower (setZero (A s))
                                     (adjoint (getParameterSize (obj s)) (JNew s)) 1) m),
          true, near && (c =? 3)%Z).
Proof.
  intros Hm Hq. cbv zeta. unfold adjust. rewrite Hm, Hq. cbv zeta.
  destruct s. members_in Hm. subst.
  cbv beta iota zeta delta [rebuild_A]. members.
  split_tests; first [reflexivity | congruence].
Qed.

End Accepted.

Section AcceptedStep.
Variable F : StateFlags.
Variable lib : NumLib.

Lemma trial_refused s s3 nH nG :
  trial F lib s = Some (s3, nH, INVALID, nG) -> QNew s3 = infinity.
Proof.
  intro Et. pose proof (trial_result F lib _ _ _ _ _ Et) as Hp.
  destruct (trial_INVALID F lib s Hp) as (rr & hh & xx & xn & nH' & Et').
  rewrite Et in Et'. injection Et' as -> _ _. reflexivity.
Qed.

Lemma step_LM_accepted s :
  method s = LM ->
  isBetter_at_return F lib s = true ->
  let s' := step F lib s in
  let near := std_min (normInfG s') (Q s - Q s') <? 0.02 * Q s' in
  completes F lib s = true
  /\ (Q s' <? Q s) = true
  /\ nu s' = 2
  /\ (exists c, (1 / 3 <=? c) = true /\ mu s' = mu s * c)
  /\ count s' = (if near then count s + 1 else 0)%Z
  /\ method s' = (if near && (count s' =? 3)%Z then BFGS else LM)
  /\ match method s' with
     | LM => A s' = addDiagonal (rankUpdateLower (setZero (A s))
                                   (adjoint (getParameterSize (obj s)) (J s')) 1) (mu s')
     | BFGS => A s' = A s
     end.
Proof.
  intros Hm Hb. cbv zeta. revert Hb. unfold completes, isBetter_at_return.
  destruct (trial F lib s) as [[[[s3 nH] d] nG]|] eqn:Et; [|discriminate].
  rewrite (trial_Some F lib _ _ _ _ _ Et).
  pose proof (trial_untouched F lib _ _ _ _ _ Et) as U. unfold untouched in U.
  destruct U as (Uo & _ & Um & Uc & _ & _ & _ & _ & UA & _ & _ & _ & UQ & Umu & _).
  rewrite <- Uo, <- Uc, <- UA, <- UQ, <- Umu. rewrite <- Um in Hm.
  destruct (adjust_LM F lib s3 nH nG Hm) as (a0 & c0 & m0 & n0 & b1 & b2 & Ea).
  intro Hb. assert (Hb1 : b1 = true) by (rewrite Ea in Hb; exact Hb). subst b1.
  destruct (adjust_Next F lib _ _ _ _ _ _ Ea) as (_ & _ & Eb). rewrite Hm in Eb.
  symmetry in Eb. clear Hb.
  assert (Hd : evaluable d = true).
  { destruct d; try reflexivity. rewrite (trial_refused _ _ _ _ Et) in Eb.
    rewrite infinity_not_ltb in Eb. discriminate Eb. }
  clear Ea Et Uo Um Uc UA UQ Umu.
  rewrite (adjust_LM_accepted F lib s3 nH nG Hm Eb). cbn [bind leave].
  rewrite (finish_evaluated F _ nH d nG true _ Hd). cbv zeta.
  match goal with |- context [update_B ?t] =>
    destruct (update_B_shape t) as (vv & BB & ->) end.
  match goal with |- context [commit F ?t nG] =>
    destruct (commit_shape F t nG) as (st' & ->) end.
  split; [exact Hd|].
  destruct s3. members_in Hm. members_in Eb. subst.
  cbv beta iota zeta delta [switch_method]. members.
  split_tests;
    try match goal with H : (0 =? 3)%Z = true |- _ => discriminate H end;
    repeat split; try assumption; try congruence;
    eexists; (split; [apply std_max_third | reflexivity]).
Qed.

End AcceptedStep.

(** X15.  An LM step whose acceptance test holds runs to its last statement
    and decreases [Q] strictly.  It resets [nu] to [2] and multiplies [mu] by
    a factor that is at least [1/3] (also when the gain ratio is [NaN]).  The
    counter [count] is incremented when [min(|g|, Q_old - Q_new) < 0.02
    Q_new] and reset to [0] otherwise; the method becomes BFGS exactly when
    the incremented counter is [3], and [A] is then left as it was, while
    otherwise [A] is rebuilt from the new Jacobian with the new [mu]. *)
Theorem accepted_LM_step (F : StateFlags) (lib : NumLib) (s : Impl) :
  getMethod s = LM ->
  isBetter_at_return F lib s = true ->
  let s' := step F lib s in
  let near := std_min (getGradientInfNorm s') (Q s - Q s') <? 0.02 * Q s' in
  completes F lib s = true
  /\ (Q s' <? Q s) = true
  /\ nu s' = 2
  /\ (exists c, (1 / 3 <=? c) = true /\ getMu s' = getMu s * c)
  /\ count s' = (if near then count s + 1 else 0)%Z
  /\ getMethod s' = (if near && (count s' =? 3)%Z then BFGS else LM)
  /\ match getMethod s' with
     | LM => A s' = addDiagonal (rankUpdateLower (setZero (A s))
                                   (adjoint (getParameterSize (getObjective s)) (J s')) 1)
                                (getMu s')
     | BFGS => A s' = A s
     end.
Proof. exact (step_LM_accepted F lib s). Qed.

Lemma accepted_LM_step_witness :
  let s := steps table_flags small_lib 26 (new_HybridOptimizer halfline [1] (control 1 true)) in
  let s' := step table_flags small_lib s in
  getMethod s = LM /\ count s = 2%Z /\ getMethod s' = BFGS /\ nu s' = 2 /\ (Q s' <? Q s) = true.
Proof.
  assert (Hm : getMethod (steps table_flags small_lib 26
                 (new_HybridOptimizer halfline [1] (control 1 true))) = LM)
    by (vm_compute; reflexivity).
  assert (Hb : isBetter_at_return table_flags small_lib
                 (steps table_flags small_lib 26
                    (new_HybridOptimizer halfline [1] (control 1 true))) = true)
    by (vm_compute; reflexivity).
  split; [exact Hm|]. split; [vm_compute; reflexivity|]. split; [vm_compute; reflexivity|].
  destruct (accepted_LM_step table_flags small_lib _ Hm Hb) as (_ & H2 & H3 & _).
  split; assumption.
Defined.

(** ** The driver [run] *)

(** [FINISHED] contains [FAILURE_MAXITER]. *)
Lemma finished_maxiter F st :
  FAILURE_MAXITER F <> 0%Z -> any_bit (Z.lor st (FAILURE_MAXITER F)) (FINISHED F) = true.
Proof.
  intro Hne. unfold any_bit. apply negb_true_iff, Z.eqb_neq. intro H0. apply Hne.
  apply Z.bits_inj'. intros i _.
  apply (f_equal (fun z => Z.testbit z i)) in H0. revert H0. unfold FINISHED.
  rewrite Z.land_spec, !Z.lor_spec, Z.bits_0.
  destruct (Z.testbit (FAILURE_MAXITER F) i); [|reflexivity].
  rewrite !orb_true_r. simpl. auto.
Qed.

Lemma finished_not_step F i :
  flags_wf F -> Z.testbit (FINISHED F) i = true -> Z.testbit (step_flags F) i = false.
Proof.
  intros wf. unfold FINISHED. rewrite !Z.lor_spec. intro H.
  assert (K : forall T, In T (terminal_flags F) -> Z.testbit T i = true ->
                        Z.testbit (step_flags F) i = false).
  { intros T HT Hi. apply (apart_testbit _ T); [|exact Hi].
    rewrite Z.land_comm. apply apart_terminal; assumption. }
  repeat match type of H with
    | (_ || _)%bool = true => apply orb_true_iff in H; destruct H as [H|H]
    end;
    (eapply K; [|exact H]); simpl; tauto.
Qed.

Lemma finished_sticky F st st' :
  flags_wf F -> sticky F st st' ->
  any_bit st (FINISHED F) = true -> any_bit st' (FINISHED F) = true.
Proof.
  intros wf Hs. unfold any_bit. rewrite !negb_true_iff, !Z.eqb_neq. intros H H0. apply H.
  apply Z.bits_inj'. intros i _. rewrite Z.land_spec, Z.bits_0.
  destruct (Z.testbit st i) eqn:E1; [|reflexivity].
  destruct (Z.testbit (FINISHED F) i) eqn:E2; [|reflexivity].
  apply (f_equal (fun z => Z.testbit z i)) in H0.
  rewrite Z.land_spec, E2, Z.bits_0, (Hs i E1 (finished_not_step F i wf E2)) in H0.
  discriminate H0.
Qed.

Section Driver.
Variable F : StateFlags.
Variable lib : NumLib.

Lemma steps_shift k s : steps F lib (S k) s = steps F lib k (step F lib s).
Proof. induction k as [|k IH]; [reflexivity|]. cbn [steps] in *. rewrite IH. reflexivity. Qed.

(** [run] is [step] repeated until a terminal flag shows or the rounds are
    used up. *)
Lemma run_loop_steps todo s :
  exists k,
    (k <= todo)%nat
    /\ (forall j, (0 < j < k)%nat -> any_bit (state (steps F lib j s)) (FINISHED F) = false)
    /\ (((0 < k)%nat
         /\ any_bit (state (steps F lib k s)) (FINISHED F) = true
         /\ run_loop F lib todo s = (steps F lib k s, state (steps F lib k s)))
        \/ (k = todo
            /\ ((0 < k)%nat -> any_bit (state (steps F lib k s)) (FINISHED F) = false)
            /\ run_loop F lib todo s
               = (set_bits (steps F lib k s) (FAILURE_MAXITER F),
                  Z.lor (state (steps F lib k s)) (FAILURE_MAXITER F)))).
Proof.
  revert s. induction todo as [|todo IH]; intro s.
  - exists 0%nat. split; [lia|]. split; [intros j Hj; lia|]. right.
    split; [reflexivity|]. split; [intro; lia | reflexivity].
  - cbn [run_loop]. destruct (any_bit (state (step F lib s)) (FINISHED F)) eqn:E.
    + exists 1%nat. split; [lia|]. split; [intros j Hj; lia|]. left.
      split; [lia|]. split; [exact E | reflexivity].
    + destruct (IH (step F lib s)) as (k & Hk & Hj & Hr).
      exists (S k). split; [lia|]. split.
      * intros j Hj'. destruct j as [|j]; [lia|]. rewrite steps_shift.
        destruct j as [|j]; [exact E|]. apply Hj. lia.
      * rewrite steps_shift. destruct Hr as [(H1 & H2 & H3) | (H1 & H2 & H3)].
        -- left. split; [lia|]. split; assumption.
        -- right. split; [lia|]. split; [|exact H3].
           intros _. destruct k as [|k]; [exact E | apply H2; lia].
Qed.

Lemma run_loop_finished todo s :
  FAILURE_MAXITER F <> 0%Z ->
  any_bit (snd (run_loop F lib todo s)) (FINISHED F) = true.
Proof.
  intro Hne. revert s. induction todo as [|todo IH]; intro s; cbn [run_loop].
  - cbn [snd]. apply finished_maxiter, Hne.
  - destruct (any_bit (state (step F lib s)) (FINISHED F)) eqn:E; [exact E | apply IH].
Qed.

End Driver.

(** X16.  [run()] is [step()] repeated: it makes [k] steps for some [k] of at
    most [maxIter] (none when [maxIter <= 0]), no step before the last leaves
    a [FINISHED] bit set, and either the last one does, and [run] returns its
    state and bitmask, or [k = maxIter] steps were made without one, and
    [run] adds [FAILURE_MAXITER]. *)
Theorem run_is_repeated_step (F : StateFlags) (lib : NumLib) (s : Impl) :
  exists k,
    (Z.of_nat k <= Z.max 0 (maxIter (getControl s)))%Z
    /\ (forall j, (0 < j < k)%nat -> any_bit (state (steps F lib j s)) (FINISHED F) = false)
    /\ (((0 < k)%nat
         /\ any_bit (state (steps F lib k s)) (FINISHED F) = true
         /\ run F lib s = (steps F lib k s, getState (steps F lib k s)))
        \/ (Z.of_nat k = Z.max 0 (maxIter (getControl s))
            /\ ((0 < k)%nat -> any_bit (state (steps F lib k s)) (FINISHED F) = false)
            /\ run F lib s
               = (set_bits (steps F lib k s) (FAILURE_MAXITER F),
                  Z.lor (getState (steps F lib k s)) (FAILURE_MAXITER F)))).
Proof.
  unfold run, getControl, getState.
  destruct (run_loop_steps F lib (Z.to_nat (maxIter (ctrl s))) s) as (k & Hk & Hj & Hr).
  exists k. split; [lia|]. split; [exact Hj|].
  destruct Hr as [H | (H1 & H2 & H3)]; [left; exact H | right].
  split; [lia|]. split; assumption.
Qed.

(** X17.  [run()] always returns with a [FINISHED] bit set, and the integer
    it returns is the state that [getState] reads afterwards. *)
Theorem run_returns_a_finished_state (F : StateFlags) (lib : NumLib) (s : Impl) :
  FAILURE_MAXITER F <> 0%Z ->
  any_bit (snd (run F lib s)) (FINISHED F) = true
  /\ snd (run F lib s) = getState (fst (run F lib s)).
Proof.
  intro Hne. unfold run, getState. split; [apply run_loop_finished, Hne|].
  apply run_loop_sticky.
Qed.

Lemma run_returns_a_finished_state_witness :
  any_bit (snd (run table_flags small_lib (new_HybridOptimizer halfline [1] (control 1 true))))
          (FINISHED table_flags) = true.
Proof.
  apply (run_returns_a_finished_state table_flags small_lib
           (new_HybridOptimizer halfline [1] (control 1 true))).
  discriminate.
Defined.

(** X18.  [run()] does not look at the state before it steps: called on an
    optimizer that has already finished (and with [maxIter > 0]) it makes
    exactly one more step and returns, as [step()] would. *)
Theorem run_on_a_finished_optimizer_is_one_step (F : StateFlags) (lib : NumLib) (s : Impl) :
  flags_wf F ->
  (0 < maxIter (getControl s))%Z ->
  any_bit (getState s) (FINISHED F) = true ->
  run F lib s = HybridOptimizer_step F lib s.
Proof.
  unfold getControl, getState. intros wf Hm Hf. unfold run, HybridOptimizer_step.
  destruct (Z.to_nat (maxIter (ctrl s))) as [|todo] eqn:E; [lia|]. cbn [run_loop].
  rewrite (finished_sticky F _ _ wf (step_sticky F lib s) Hf). reflexivity.
Qed.

Lemma run_on_a_finished_optimizer_is_one_step_witness :
  let s := fst (run table_flags small_lib
                  (new_HybridOptimizer sigmoid [2] (control 0x1p-10 true))) in
  any_bit (getState s) (FINISHED table_flags) = true
  /\ run table_flags small_lib s = HybridOptimizer_step table_flags small_lib s.
Proof.
  assert (H : any_bit (getState (fst (run table_flags small_lib
                (new_HybridOptimizer sigmoid [2] (control 0x1p-10 true)))))
                (FINISHED table_flags) = true) by (vm_compute; reflexivity).
  split; [exact H|].
  apply (run_on_a_finished_optimizer_is_one_step table_flags small_lib _ table_flags_wf);
    [vm_compute; reflexivity | exact H].
Defined.

(** ** The eigenvalues that [solve] drops *)

(** The loop of [solve] stops at the first eigenvalue that is not below the
    threshold. *)
Lemma scan_spec ev thr r : forall fuel i,
  (0 <= i <= r)%Z -> (r - i <= Z.of_nat fuel)%Z ->
  (forall j, (i <= j < scan ev thr r fuel i)%Z -> (coeffZ ev j <? thr) = true)
  /\ ((scan ev thr r fuel i < r)%Z -> (coeffZ ev (scan ev thr r fuel i) <? thr) = false).
Proof.
  induction fuel as [|fuel IH]; intros i Hi Hf; cbn [scan].
  - split; [intros j Hj; lia | intro; lia].
  - destruct (i <? r)%Z eqn:E1; cbn [andb].
    + destruct (coeffZ ev i <? thr) eqn:E2.
      * apply Z.ltb_lt in E1. destruct (IH (i + 1)%Z) as [H1 H2]; [lia | lia |].
        split; [|exact H2]. intros j Hj.
        destruct (Z.eq_dec j i) as [->|Hne]; [exact E2 | apply H1; lia].
      * split; [intros j Hj; lia | intros _; exact E2].
    + apply Z.ltb_ge in E1. split; [intros j Hj; lia | intro; lia].
Qed.

(** X19.  In eigen mode, [solve] drops a leading run of the eigenvalues: with
    [threshold = eigenvalues[n-1] * epsilon] and [dropped = n - rank], every
    eigenvalue before index [dropped] is below the threshold and, unless all
    are dropped, the one at index [dropped] is not.  When the threshold is
    [NaN] nothing is dropped. *)
Theorem eigen_solver_drops_the_leading_eigenvalues (lib : NumLib) (s : Impl) (m : Matrix) :
  useCholesky (ctrl s) = false ->
  let n := Z.of_nat (getParameterSize (obj s)) in
  let eigenvalues := fst (eigh_compute lib m) in
  let threshold := coeffZ eigenvalues (n - 1) * epsilon in
  let dropped := (n - rank (solve lib s m))%Z in
  (0 <= dropped <= n)%Z
  /\ (forall j, (0 <= j < dropped)%Z -> (coeffZ eigenvalues j <? threshold) = true)
  /\ ((dropped < n)%Z -> (coeffZ eigenvalues dropped <? threshold) = false)
  /\ (is_nan threshold = true -> rank (solve lib s m) = n).
Proof.
  intros Hc n eigenvalues threshold dropped.
  pose proof (rank_solve lib s m Hc) as Hr. fold n in Hr.
  assert (Ed : dropped = scan eigenvalues threshold n (Z.to_nat n) 0).
  { unfold dropped, solve. rewrite Hc. cbv zeta. unfold eigenvalues, threshold.
    destruct (eigh_compute lib m) as [ev V]. cbn [fst rank set_rank set_h obj]. fold n.
    rewrite Z.sub_sub_distr, Z.sub_diag. reflexivity. }
  destruct (scan_spec eigenvalues threshold n (Z.to_nat n) 0) as [H1 H2]; [lia | lia |].
  rewrite <- Ed in H1, H2.
  split; [lia|]. split; [exact H1|]. split; [exact H2|].
  intro Hn. assert (dropped = 0)%Z; [|lia].
  destruct (Z.eq_dec dropped 0) as [E|E]; [exact E|]. exfalso.
  assert (H : (coeffZ eigenvalues 0 <? threshold) = true) by (apply H1; lia).
  rewrite (nan_not_gtb threshold (coeffZ eigenvalues 0) Hn) in H. discriminate H.
Qed.

Lemma eigen_solver_drops_the_leading_eigenvalues_witness :
  let s := new_HybridOptimizer plane [1; 1] (control 1 false) in
  let m := [[-1; 0]; [0; 1]] in
  rank (solve small_lib s m) = 1%Z
  /\ (coeffZ (fst (eigh_compute small_lib m)) 0
      <? coeffZ (fst (eigh_compute small_lib m)) 1 * epsilon) = true.
Proof.
  split; [vm_compute; reflexivity|].
  refine (proj1 (proj2 (eigen_solver_drops_the_leading_eigenvalues small_lib
                          (new_HybridOptimizer plane [1; 1] (control 1 false))
                          [[-1; 0]; [0; 1]] eq_refl)) 0%Z _).
  vm_compute. split; [discriminate | reflexivity].
Defined.
